(** * The Mibae halftone filter of kanvas (KanvasCanvas.ts)

    A shallow embedding of the image filter of [KanvasCanvas.ts]:
    the pattern cache ([getPatternImageData]), the pattern search
    ([getBestPattern]) and the per-cell pipeline of [applyMibaeFilter]
    (window normalization, the sequence of searches, stamping and
    Floyd-Steinberg error diffusion); then the undo history of the
    element and drawing with the pointer ([drawPoint], [drawLine] and
    the pointer handlers).

    Conventions of the embedding.
    - A JavaScript number that takes part in non-integral arithmetic is an
      IEEE 754 binary64 value, modelled by [spec_float] with precision 53
      and maximal exponent 1024; the operations are the standard library's
      executable specification of IEEE arithmetic.
    - Sums of squared byte differences are integers far below 2^53, where
      binary64 arithmetic is exact; they are modelled in [Z].
    - A [Uint8ClampedArray] is a [list Z] of bytes; a store of a number goes
      through [toUint8Clamp].
    - A thrown [TypeError] is the result [None] of a computation in the
      monad [M]; module-level mutable objects (the pattern cache and the
      scratch canvas used for rendering) are the fields of [World]. *)

From Stdlib Require Import ZArith QArith Qabs Lqa List Bool Floats.SpecFloat.
From stdpp Require Import base option list gmap strings.

Local Open Scope Z_scope.

(** ** JavaScript numbers *)

Module JS.

Definition prec : Z := 53.
Definition emax : Z := 1024.

Definition num := spec_float.

(** The number denoted by an integer literal or read from a byte array. *)
Definition ofZ (z : Z) : num := binary_normalize prec emax z 0 false.

Definition add : num -> num -> num := SFadd prec emax.
Definition sub : num -> num -> num := SFsub prec emax.
Definition mul : num -> num -> num := SFmul prec emax.
Definition div : num -> num -> num := SFdiv prec emax.

(** A decimal literal [m / 10^e], correctly rounded. *)
Definition decimal (m : Z) (e : Z) : num := div (ofZ m) (ofZ (10 ^ e)).

Definition Infinity : num := S754_infinity false.
Definition NegInfinity : num := S754_infinity true.

Definition ltb (a b : num) : bool :=
    match SFcompare a b with Some Lt => true | _ => false end.

(** [Math.max(...l)] and [Math.min(...l)]: the fold starts from
      -Infinity (resp. +Infinity), which is also the result on []. *)
Definition max2 (a b : num) : num :=
    match a, b with
    | S754_nan, _ | _, S754_nan => S754_nan
    | _, _ => if ltb a b then b else a
    end.
Definition min2 (a b : num) : num :=
    match a, b with
    | S754_nan, _ | _, S754_nan => S754_nan
    | _, _ => if ltb b a then b else a
    end.
Definition Math_max (l : list num) : num := fold_left max2 l NegInfinity.
Definition Math_min (l : list num) : num := fold_left min2 l Infinity.

(** Round a non-negative dyadic [m * 2^e] to the nearest integer, ties
      to even. *)
Definition roundHalfEven (m : positive) (e : Z) : Z :=
    if 0 <=? e then Z.pos m * 2 ^ e
    else
      let d := 2 ^ (- e) in
      let q := Z.pos m / d in
      let r := Z.pos m mod d in
      match 2 * r ?= d with
      | Lt => q
      | Gt => q + 1
      | Eq => if Z.even q then q else q + 1
      end.

(** ECMAScript's ToUint8Clamp, the conversion applied by every store into
      a [Uint8ClampedArray]: NaN becomes 0, the value is clamped to
      [0, 255] and rounded to the nearest integer, ties to even. *)
Definition toUint8Clamp (v : num) : Z :=
    match v with
    | S754_nan => 0
    | S754_zero _ => 0
    | S754_infinity s => if s then 0 else 255
    | S754_finite s m e => if s then 0 else Z.min 255 (roundHalfEven m e)
    end.

Definition isFinite (v : num) : bool :=
  match v with
  | S754_zero _ | S754_finite _ _ _ => true
  | _ => false
  end.

(** The rational denoted by a finite number (0 for the others). *)
Definition toQ (v : num) : Q :=
  match v with
  | S754_finite s m e =>
      ((if s then Z.neg m else Z.pos m) # 1) * Qpower (2 # 1) e
  | _ => 0%Q
  end.

(** [%] on integers: the remainder takes the sign of the dividend. *)
Definition rem (a b : Z) : Z := Z.rem a b.

(** Array indexing [l[i]] by a number: [None] is [undefined]. *)
Definition index {A} (l : list A) (i : Z) : option A :=
    if i <? 0 then None else l !! Z.to_nat i.

(** A byte read from a typed array as a number; [undefined] behaves as
    NaN in arithmetic. *)
Definition read (l : list Z) (i : Z) : num :=
  match index l i with
  | Some z => ofZ z
  | None => S754_nan
  end.

(** [l[i] = v] on a [Uint8ClampedArray]: a store out of range is ignored. *)
Definition store (l : list Z) (i : Z) (v : num) : list Z :=
  if i <? 0 then l else <[Z.to_nat i := toUint8Clamp v]> l.

End JS.

(** ** Canvases

    The backing store of a 2D canvas is not visible to the program as an
    array: it is read through [getImageData] and written through
    [fillRect] and [putImageData]. It is modelled as a finite map from
    coordinates to RGBA pixels; a pixel never written is transparent
    black, and so is every pixel outside the canvas. *)

Definition Pixel : Type := Z * Z * Z * Z.
Definition RGB : Type := Z * Z * Z.

Record Canvas := mkCanvas {
  width : Z;
  height : Z;
  pixels : gmap (Z * Z) Pixel
}.

Definition blankCanvas (w h : Z) : Canvas := mkCanvas w h empty.

Definition inCanvas (c : Canvas) (x y : Z) : bool :=
  (0 <=? x) && (x <? width c) && (0 <=? y) && (y <? height c).

Definition setPixel (c : Canvas) (x y : Z) (p : Pixel) : Canvas :=
  if inCanvas c x y
  then mkCanvas (width c) (height c) (<[(x, y) := p]> (pixels c))
  else c.

Definition pixelAt (c : Canvas) (x y : Z) : Pixel :=
  if inCanvas c x y
  then default (0, 0, 0, 0) (pixels c !! (x, y))
  else (0, 0, 0, 0).

Definition pixelData (p : Pixel) : list Z :=
  let '(r, g, b, a) := p in [r; g; b; a].

(** [ctx.getImageData(sx, sy, sw, sh).data]: row-major RGBA bytes. *)
Definition getImageData (c : Canvas) (sx sy sw sh : Z) : list Z :=
  flat_map (fun y => flat_map (fun x => pixelData (pixelAt c x y)) (seqZ sx sw))
           (seqZ sy sh).

(** [ctx.fillStyle = color; ctx.fillRect(x, y, w, h)] for an opaque color
    whose parsed value is [rgb] and for a width and a height that are
    not negative: source-over compositing of an opaque color replaces
    the covered pixels. *)
Definition fillRect (c : Canvas) (rgb : RGB) (x y w h : Z) : Canvas :=
  let '(r, g, b) := rgb in
  fold_left
    (fun c py => fold_left (fun c px => setPixel c px py (r, g, b, 255)) (seqZ x w) c)
    (seqZ y h) c.

(** What reads back from a pixel written by [putImageData]. A canvas
    stores colors premultiplied by alpha: an opaque pixel is kept as
    written, a pixel of alpha 0 loses its color, and for the alphas in
    between the round trip through the premultiplied form is lossy in a
    way that the HTML standard leaves to the browser, so that it is the
    parameter [lossy]; the alpha itself is kept. *)
Definition stored (lossy : Pixel -> RGB) (p : Pixel) : Pixel :=
  let '(r, g, b, a) := p in
  if a =? 255 then p
  else if a =? 0 then (0, 0, 0, 0)
  else let '(r', g', b') := lossy p in (r', g', b', a).

(** [ctx.putImageData(img, x, y)] for a 1x1 image whose data is [d]. *)
Definition putImageData1 (lossy : Pixel -> RGB) (c : Canvas) (d : list Z)
  (x y : Z) : Canvas :=
  match d with
  | [r; g; b; a] => setPixel c x y (stored lossy (r, g, b, a))
  | _ => c
  end.

(** ** Objects used as dictionaries

    An object literal is the list of its entries in insertion order.
    [objGet] is the property read [o[k]] ([None] is [undefined]);
    [Object_fromEntries] keeps the position of the first occurrence of a
    key and the value of its last occurrence. *)

Fixpoint objGet {V} (o : list (string * V)) (k : string) : option V :=
  match o with
  | [] => None
  | (k', v) :: o' => if String.eqb k k' then Some v else objGet o' k
  end.

Fixpoint objSet {V} (o : list (string * V)) (k : string) (v : V)
  : list (string * V) :=
  match o with
  | [] => [(k, v)]
  | (k', v') :: o' =>
      if String.eqb k k' then (k, v) :: o' else (k', v') :: objSet o' k v
  end.

Definition Object_keys {V} (o : list (string * V)) : list string := map fst o.
Definition Object_values {V} (o : list (string * V)) : list V := map snd o.
Definition Object_fromEntries {V} (l : list (string * V)) : list (string * V) :=
  fold_left (fun o kv => objSet o (fst kv) (snd kv)) l [].

(** [a[0]] for an array of color strings, used afterwards only as a
    property key or as a fill style: [undefined] is the key "undefined". *)
Definition first (a : list string) : string := default "undefined"%string (head a).

(** ** Configuration

    [tones.ts] and [palettes.ts] are imported by [KanvasCanvas.ts]; their
    tables are the fields of [Config]. A tone is given by its bitmap, an
    array of rows of numbers, where a non-zero entry is a foreground
    pixel. [cssColor] is the browser's parsing of a palette color string
    into an opaque RGB triple, and [premultiplied] its lossy storage of
    the color of a pixel that is neither opaque nor fully transparent
    (see [stored]). *)

Record Config := mkConfig {
  tonePeriod : Z;
  tones : list (string * list (list Z));
  palettes : list (string * list string);
  cssColor : string -> RGB;
  premultiplied : Pixel -> RGB
}.

Record Pattern := mkPattern {
  toneType : string;
  backgroundColor : string;
  foregroundColor : string;
  offsetY : Z;
  offsetX : Z
}.

Definition patternKey (p : Pattern) : string * string * string * Z * Z :=
  (toneType p, backgroundColor p, foregroundColor p, offsetY p, offsetX p).

(** The values taken by an accumulated distance and by the running best:
    a finite integer, the initial [Infinity], or NaN (a read past the end
    of a tile). *)
Inductive Distance := Fin (d : Z) | Inf | NaN.

Definition Distance_ltb (a b : Distance) : bool :=
  match a, b with
  | Fin x, Fin y => x <? y
  | Fin _, Inf => true
  | _, _ => false
  end.

Definition Distance_add (a : Distance) (t : option Z) : Distance :=
  match a, t with
  | Fin x, Some y => Fin (x + y)
  | Inf, Some _ => Inf
  | _, _ => NaN
  end.

(** ** Module state and the monad of the filter

    [searches] is a ghost field: every call of [getBestPattern] records
    its arguments there; no computation reads it. *)

Record World := mkWorld {
  patternImageDataCache : gmap (string * string * string * Z * Z) (list Z);
  patternContext : Canvas;
  searches : list (list Z * list Pattern)
}.

(** The ghost update made on entry to [getBestPattern]. *)
Definition recordSearch (data : list Z) (patterns : list Pattern) (w : World)
  : World :=
  mkWorld (patternImageDataCache w) (patternContext w)
          (searches w ++ [(data, patterns)]).

Definition M (A : Type) : Type := World -> option (A * World).

Definition ret {A} (a : A) : M A := fun w => Some (a, w).
Definition throw {A} : M A := fun _ => None.
Definition bind {A B} (m : M A) (k : A -> M B) : M B :=
  fun w => match m w with
           | Some (a, w') => k a w'
           | None => None
           end.

Notation "'let*' x ':=' m 'in' k" := (bind m (fun x => k))
  (at level 10, x name, m at level 100, k at level 200).

(** [l.forEach(a => { s = body(a, s) })] threading a local state [s]. *)
Fixpoint forEachM {A S} (l : list A) (body : A -> S -> M S) (s : S) : M S :=
  match l with
  | [] => ret s
  | a :: l' => let* s' := body a s in forEachM l' body s'
  end.

(** The same loop where the body can only throw or update [s]. *)
Fixpoint forEachO {A S} (l : list A) (body : A -> S -> option S) (s : S)
  : option S :=
  match l with
  | [] => Some s
  | a :: l' => match body a s with
               | Some s' => forEachO l' body s'
               | None => None
               end
  end.

Definition truthy (v : option Z) : bool :=
  match v with
  | Some z => negb (z =? 0)
  | None => false
  end.

(** The indices visited by
    [for (let dataIndex = 0; dataIndex < n; dataIndex += 4)]. *)
Definition pixelIndices (count : nat) : list Z :=
  map (fun k => 4 * Z.of_nat k) (seq 0 count).
Definition dataIndices (n : nat) : list Z := pixelIndices (Nat.div (n + 3) 4).

Definition ditheringRate : JS.num := JS.decimal 5 1.

Record Diffusion := mkDiffusion {
  deltaX : Z;
  deltaY : Z;
  rate : JS.num
}.

Definition ditheringPattern : list Diffusion :=
  [ mkDiffusion 1 0 (JS.mul (JS.div (JS.ofZ 7) (JS.ofZ 16)) ditheringRate);
    mkDiffusion (-1) 1 (JS.mul (JS.div (JS.ofZ 3) (JS.ofZ 16)) ditheringRate);
    mkDiffusion 0 1 (JS.mul (JS.div (JS.ofZ 5) (JS.ofZ 16)) ditheringRate);
    mkDiffusion 1 1 (JS.mul (JS.div (JS.ofZ 1) (JS.ofZ 16)) ditheringRate) ].

(** *** Window normalization (the two [for] loops of [applyMibaeFilter]) *)

Definition isOpaque (data : list Z) (dataIndex : Z) : bool :=
  bool_decide (JS.index data (dataIndex + 3) = Some 255).

Definition store3 (data : list Z) (dataIndex : Z) (v : JS.num) : list Z :=
  JS.store (JS.store (JS.store data (dataIndex + 2) v) (dataIndex + 1) v)
           (dataIndex + 0) v.

(** [data[i] * 0.299 + data[i + 1] * 0.587 + data[i + 2] * 0.114] *)
Definition lightnessAt (data : list Z) (dataIndex : Z) : JS.num :=
  JS.add
    (JS.add (JS.mul (JS.read data (dataIndex + 0)) (JS.decimal 299 3))
            (JS.mul (JS.read data (dataIndex + 1)) (JS.decimal 587 3)))
    (JS.mul (JS.read data (dataIndex + 2)) (JS.decimal 114 3)).

Definition grayscaleStep (st : list Z * list JS.num) (dataIndex : Z)
  : list Z * list JS.num :=
  let '(normalizedData, lightnesses) := st in
  if negb (isOpaque normalizedData dataIndex) then st
  else
    let average := lightnessAt normalizedData dataIndex in
    (store3 normalizedData dataIndex average, lightnesses ++ [average]).

Definition rescaleStep (minLightness maxLightness : JS.num)
  (normalizedData : list Z) (dataIndex : Z) : list Z :=
  if negb (isOpaque normalizedData dataIndex) then normalizedData
  else
    store3 normalizedData dataIndex
      (JS.div
         (JS.mul (JS.sub (JS.read normalizedData (dataIndex + 0)) minLightness)
                 (JS.ofZ 255))
         (JS.sub maxLightness minLightness)).

Definition grayscale (data : list Z) : list Z * list JS.num :=
  fold_left grayscaleStep (dataIndices (length data)) (data, []).

Definition normalize (data : list Z) : list Z :=
  let '(normalizedData, lightnesses) := grayscale data in
  let maxLightness := JS.Math_max lightnesses in
  let minLightness := JS.Math_min lightnesses in
  fold_left (rescaleStep minLightness maxLightness)
            (dataIndices (length normalizedData)) normalizedData.

(** *** Error diffusion into one neighbor (the body of
    [ditheringPattern.forEach]) *)

Definition diffuse (cfg : Config) (original put : list Z) (x y : Z)
  (shrinkedContext : Canvas) (d : Diffusion) : Canvas :=
  let neighborhood :=
    getImageData shrinkedContext (x + deltaX d) (y + deltaY d) 1 1 in
  let channel (c : Z) (data : list Z) : list Z :=
    JS.store data c
      (JS.add (JS.read data c)
              (JS.mul (JS.sub (JS.read original c) (JS.read put c)) (rate d))) in
  putImageData1 (premultiplied cfg) shrinkedContext
    (channel 2 (channel 1 (channel 0 neighborhood)))
    (x + deltaX d) (y + deltaY d).

(** The property names that every plain object inherits from
    [Object.prototype]. *)
Definition Object_prototype_keys : list string :=
  [ "constructor"; "__proto__"; "hasOwnProperty"; "isPrototypeOf";
    "propertyIsEnumerable"; "toLocaleString"; "toString"; "valueOf";
    "__defineGetter__"; "__defineSetter__"; "__lookupGetter__";
    "__lookupSetter__" ]%string.

(** The name [k] is a key of the object with the keys [own], or it is
    not the name of an inherited property: looking it up finds an own
    property or [undefined]. *)
Definition plainLookup (own : list string) (k : string) : bool :=
  bool_decide (k ∈ own) || negb (bool_decide (k ∈ Object_prototype_keys)).

Section Filter.

Variable cfg : Config.

Definition colors : list string := concat (Object_values (palettes cfg)).
Definition tonePeriodRange : list Z := seqZ 0 (tonePeriod cfg).

(** The cache object is built once with a slot (holding [undefined]) for
    every tone, every pair of colors and every pair of offsets in
    [tonePeriodRange]. Reading
    [patternImageDataCache[toneType][backgroundColor][foregroundColor][offsetY][offsetX]]
    throws exactly when one of the first four lookups is [undefined];
    the last one is an array read and yields [undefined] out of range.
    The three objects are plain objects, and the lookup of a name is
    modelled for the names that are keys of the object or that no object
    has: a name that is not a key but is inherited from
    [Object.prototype] (see [Object_prototype_keys]) is found by the
    source and lies outside the model. *)
Definition cacheRowExists (p : Pattern) : bool :=
  bool_decide (toneType p ∈ Object_keys (tones cfg))
  && bool_decide (backgroundColor p ∈ colors)
  && bool_decide (foregroundColor p ∈ colors)
  && (0 <=? offsetY p) && (offsetY p <? tonePeriod cfg).

Definition initialWorld : World :=
  mkWorld empty (blankCanvas (tonePeriod cfg) (tonePeriod cfg)) [].

(** The two nested [tonePeriodRange.forEach] loops of
    [getPatternImageData], painting the scratch canvas. *)
Definition paintPattern (bitmap : list (list Z)) (p : Pattern) (ctx : Canvas)
  : option Canvas :=
  forEachO tonePeriodRange (fun y ctx =>
    forEachO tonePeriodRange (fun x ctx =>
      match JS.index bitmap (JS.rem (y + offsetY p) (tonePeriod cfg)) with
      | None => None
      | Some row =>
          let isForeground :=
            truthy (JS.index row (JS.rem (x + offsetX p) (tonePeriod cfg))) in
          Some (fillRect ctx
                  (cssColor cfg (if isForeground then foregroundColor p
                                 else backgroundColor p))
                  x y 1 1)
      end) ctx) ctx.

Definition getPatternImageData (p : Pattern) : M (list Z) :=
  fun w =>
    if negb (cacheRowExists p) then None
    else
      match patternImageDataCache w !! patternKey p with
      | Some cachedPatternImageData => Some (cachedPatternImageData, w)
      | None =>
          match objGet (tones cfg) (toneType p) with
          | None => None
          | Some bitmap =>
              match paintPattern bitmap p (patternContext w) with
              | None => None
              | Some ctx =>
                  let patternImageData :=
                    getImageData ctx 0 0 (tonePeriod cfg) (tonePeriod cfg) in
                  Some (patternImageData,
                        mkWorld
                          (<[patternKey p := patternImageData]>
                             (patternImageDataCache w))
                          ctx
                          (searches w))
              end
          end
      end.

(** One term of the distance: [(data[i] - tile[i]) ** 2]. *)
Definition sqDiff (data tile : list Z) (i : Z) : option Z :=
  match JS.index data i, JS.index tile i with
  | Some a, Some b => Some ((a - b) ^ 2)
  | _, _ => None
  end.

Definition sum3 (a b c : option Z) : option Z :=
  match a, b, c with
  | Some x, Some y, Some z => Some (x + y + z)
  | _, _, _ => None
  end.

(** The body of the [for] loop of [getBestPattern] for one pattern. *)
Definition accumulate (data : list Z) (pattern : Pattern)
  (dataIndex : Z) (distance : Distance) : M Distance :=
  if negb (isOpaque data dataIndex)
  then ret distance
  else
    let* patternImageData := getPatternImageData pattern in
    ret (Distance_add distance
           (sum3 (sqDiff data patternImageData (dataIndex + 0))
                 (sqDiff data patternImageData (dataIndex + 1))
                 (sqDiff data patternImageData (dataIndex + 2)))).

Definition patternDistance (data : list Z) (pattern : Pattern) : M Distance :=
  forEachM (dataIndices (length data)) (accumulate data pattern) (Fin 0).

(** The [patterns.forEach] loop of [getBestPattern]; the local state is
    the pair [(bestPattern, bestPatternDistance)]. *)
Definition searchLoop (data : list Z) (patterns : list Pattern)
  : M (option Pattern * Distance) :=
  forEachM patterns
    (fun pattern best =>
       let* distance := patternDistance data pattern in
       ret (if Distance_ltb distance (snd best)
            then (Some pattern, distance)
            else best))
    (head patterns, Inf).

Definition getBestPattern (data : list Z) (patterns : list Pattern)
  : M (option Pattern) :=
  fun w =>
    (let* best := searchLoop data patterns in ret (fst best))
      (recordSearch data patterns w).

(** *** The cell callback of [applyMibaeFilter] *)

Definition liftO {A} (o : option A) : M A :=
  match o with
  | Some a => ret a
  | None => throw
  end.

Definition paletteFromLightness : list (string * list string) :=
  Object_fromEntries
    (map (fun palette => (first palette, palette)) (Object_values (palettes cfg))).

(** [palettes.light[0]] and [palettes.dark[0]]; reading [[0]] of a missing
    palette throws. *)
Definition anchor (name : string) : option string :=
  first <$> objGet (palettes cfg) name.

(** The five consecutive searches of the cell callback. Destructuring the
    result of a search over an empty list throws. *)
Definition selectPattern (normalizedData windowData : list Z)
  (offsetY offsetX : Z) : M Pattern :=
  let* tonePatterns :=
    liftO (mapM (fun toneType =>
                   match anchor "light", anchor "dark" with
                   | Some bg, Some fg =>
                       Some (mkPattern toneType bg fg offsetY offsetX)
                   | _, _ => None
                   end)
                (Object_keys (tones cfg))) in
  let* best := getBestPattern normalizedData tonePatterns in
  let* toneType := liftO (toneType <$> best) in
  let* backgroundTiers :=
    liftO (mapM (fun backgroundColor =>
                   match anchor "dark" with
                   | Some fg =>
                       Some (mkPattern toneType backgroundColor fg offsetY offsetX)
                   | None => None
                   end)
                (Object_keys paletteFromLightness)) in
  let* best := getBestPattern windowData backgroundTiers in
  let* backgroundLightness := liftO (backgroundColor <$> best) in
  let* backgroundPalette := liftO (objGet paletteFromLightness backgroundLightness) in
  let* backgroundColors :=
    liftO (mapM (fun backgroundColor =>
                   match anchor "dark" with
                   | Some fg =>
                       Some (mkPattern toneType backgroundColor fg offsetY offsetX)
                   | None => None
                   end)
                backgroundPalette) in
  let* best := getBestPattern windowData backgroundColors in
  let* backgroundColor := liftO (backgroundColor <$> best) in
  let* best :=
    getBestPattern windowData
      (map (fun foregroundColor =>
              mkPattern toneType backgroundColor foregroundColor offsetY offsetX)
           (Object_keys paletteFromLightness)) in
  let* foregroundLightness := liftO (foregroundColor <$> best) in
  let* foregroundPalette := liftO (objGet paletteFromLightness foregroundLightness) in
  let* best :=
    getBestPattern windowData
      (map (fun foregroundColor =>
              mkPattern toneType backgroundColor foregroundColor offsetY offsetX)
           foregroundPalette) in
  let* foregroundColor := liftO (foregroundColor <$> best) in
  ret (mkPattern toneType backgroundColor foregroundColor offsetY offsetX).

(** The phase offsets of a cell: [Math.abs(begin % tonePeriod)] with
    [begin = position - tonePeriod / 2]. The division is the integer one:
    it agrees with the source for an even [tonePeriod]. *)
Definition cellOffset (position : Z) : Z :=
  Z.abs (JS.rem (position - tonePeriod cfg / 2) (tonePeriod cfg)).

(** The body of the inner [forEach] for the cell [(x, y)], where
    [this.context] exists (the method as a whole, with its checks and
    the making of the source canvas, is [KanvasCanvas_applyMibaeFilter]
    below). The state is the pair of the shrinked (source) canvas and
    the displayed canvas. *)
Definition processCell (actualZoom : Z) (y x : Z) (st : Canvas * Canvas)
  : M (Canvas * Canvas) :=
  let '(shrinkedContext, context) := st in
  let beginX := x - tonePeriod cfg / 2 in
  let beginY := y - tonePeriod cfg / 2 in
  let windowImageData :=
    getImageData shrinkedContext beginX beginY (tonePeriod cfg) (tonePeriod cfg) in
  let normalizedData := normalize windowImageData in
  let offsetX := cellOffset x in
  let offsetY := cellOffset y in
  let* pattern := selectPattern normalizedData windowImageData offsetY offsetX in
  let* bitmap := liftO (objGet (tones cfg) (toneType pattern)) in
  let* row := liftO (JS.index bitmap (JS.rem y (tonePeriod cfg))) in
  let isForeground := truthy (JS.index row (JS.rem x (tonePeriod cfg))) in
  let context :=
    fillRect context
      (cssColor cfg (if isForeground then foregroundColor pattern
                     else backgroundColor pattern))
      (x * actualZoom) (y * actualZoom) actualZoom actualZoom in
  let original := getImageData shrinkedContext x y 1 1 in
  let put := getImageData context (x * actualZoom) (y * actualZoom) 1 1 in
  ret (fold_left (diffuse cfg original put x y) ditheringPattern shrinkedContext,
       context).

(** The scan of the method [applyMibaeFilter]: its two nested [forEach]
    loops over the cells of the source canvas. *)
Definition applyMibaeFilter (actualZoom : Z) (shrinkedContext context : Canvas)
  : M (Canvas * Canvas) :=
  forEachM (seqZ 0 (height shrinkedContext))
    (fun y st =>
       forEachM (seqZ 0 (width shrinkedContext))
         (fun x st => processCell actualZoom y x st) st)
    (shrinkedContext, context).

End Filter.

(** ** A sample configuration

    The examples run the filter on a small configuration: four tones of
    period [P] and three palettes whose colors are taken from
    [colors.ts]. *)

Definition sampleBitmap (P : Z) (f : Z -> Z -> bool) : list (list Z) :=
  map (fun y => map (fun x => if f x y then 1 else 0) (seqZ 0 P)) (seqZ 0 P).

Definition sampleTones (P : Z) : list (string * list (list Z)) :=
  [ ("fill"%string, sampleBitmap P (fun _ _ => true));
    ("dot"%string, sampleBitmap P (fun x y => (x mod 2 =? 0) && (y mod 2 =? 0)));
    ("horizontal"%string, sampleBitmap P (fun _ y => y mod 2 =? 0));
    ("blank"%string, sampleBitmap P (fun _ _ => false)) ].

Definition samplePalettes : list (string * list string) :=
  [ ("light", ["hsl(0, 0%, 100%)"; "hsl(0, 67%, 67%)"; "hsl(240, 67%, 67%)"]);
    ("gray", ["hsl(0, 0%, 67%)"; "hsl(0, 0%, 33%)"]);
    ("dark", ["hsl(0, 0%, 0%)"; "hsl(0, 33%, 33%)"; "hsl(240, 33%, 33%)"]) ]%string.

Definition sampleCssColor (c : string) : RGB :=
  default (0, 0, 0)
    (objGet
       [ ("hsl(0, 0%, 100%)"%string, (255, 255, 255));
         ("hsl(0, 67%, 67%)"%string, (227, 114, 114));
         ("hsl(240, 67%, 67%)"%string, (114, 114, 227));
         ("hsl(0, 0%, 67%)"%string, (171, 171, 171));
         ("hsl(0, 0%, 33%)"%string, (84, 84, 84));
         ("hsl(0, 0%, 0%)"%string, (0, 0, 0));
         ("hsl(0, 33%, 33%)"%string, (112, 56, 56));
         ("hsl(240, 33%, 33%)"%string, (56, 56, 112)) ]
       c).

(** A storage that rounds to the nearest byte in both directions. *)
Definition samplePremultiplied (p : Pixel) : RGB :=
  let '(r, g, b, a) := p in
  let roundTrip (v : Z) : Z := (((v * a + 127) / 255) * 255 + a / 2) / a in
  (roundTrip r, roundTrip g, roundTrip b).

Definition sampleConfig (P : Z) : Config :=
  mkConfig P (sampleTones P) samplePalettes sampleCssColor samplePremultiplied.

(** A [w] x [h] canvas filled with one opaque gray level. *)
Definition grayCanvas (w h v : Z) : Canvas :=
  fillRect (blankCanvas w h) (v, v, v) 0 0 w h.

(** ** The undo history of [KanvasCanvas]

    The fields [history] and [historyIndex] of the element, and the
    methods that update them. A data URL is a string; the effects of a
    method on the outside (a request to load an image, the
    [kanvasHistoryChange] event) are returned as a list. *)

Definition historyMaxLength : Z := 30.

Record History := mkHistory {
  history : list string;
  historyIndex : Z
}.

Inductive Effect :=
| LoadImage (src : option string)
| HistoryChange (history : list string) (historyIndex : Z).

(** [a.slice(start, end)] *)
Definition Array_slice {A} (a : list A) (start end_ : Z) : list A :=
  let len := Z.of_nat (length a) in
  let k := if start <? 0 then Z.max (len + start) 0 else Z.min start len in
  let final := if end_ <? 0 then Z.max (len + end_) 0 else Z.min end_ len in
  take (Z.to_nat (final - k)) (drop (Z.to_nat k) a).

Definition initialHistory : History := mkHistory [] (-1).

Definition dispatchChangeHistoryEvent (h : History) : list Effect :=
  [HistoryChange (history h) (historyIndex h)].

(** [putImageFromHistory] asks [load] for [history[historyIndex]]. *)
Definition putImageFromHistory (h : History) : list Effect :=
  [LoadImage (JS.index (history h) (historyIndex h))].

(** [pushImageToHistory], given the data URL of the canvas. *)
Definition pushImageToHistory (dataURL : string) (h : History)
  : History * list Effect :=
  if (0 <=? historyIndex h)
     && bool_decide (JS.index (history h) (historyIndex h) = Some dataURL)
  then (h, [])
  else
    let history' :=
      Array_slice (history h)
        (Z.max (historyIndex h - historyMaxLength) 0) (historyIndex h + 1)
      ++ [dataURL] in
    let h' := mkHistory history' (Z.of_nat (length history') - 1) in
    (h', dispatchChangeHistoryEvent h').

Definition undo (h : History) : History * list Effect :=
  if historyIndex h <? 1 then (h, [])
  else
    let h' := mkHistory (history h) (historyIndex h - 1) in
    (h', putImageFromHistory h' ++ dispatchChangeHistoryEvent h').

Definition redo (h : History) : History * list Effect :=
  if Z.of_nat (length (history h)) - 1 <=? historyIndex h then (h, [])
  else
    let h' := mkHistory (history h) (historyIndex h + 1) in
    (h', putImageFromHistory h' ++ dispatchChangeHistoryEvent h').

(** A user action on the history, and the state after a sequence of
    them. *)
Inductive HistoryAction :=
| PushImage (dataURL : string)
| Undo
| Redo.

Definition historyStep (h : History) (a : HistoryAction) : History :=
  match a with
  | PushImage dataURL => fst (pushImageToHistory dataURL h)
  | Undo => fst (undo h)
  | Redo => fst (redo h)
  end.

(** ** Drawing with the pointer

    The methods [drawPoint] and [drawLine] of [KanvasCanvas] and the
    pointer handlers that call them. [brushes.ts] is imported by
    [KanvasCanvas.ts]: its table, which gives every brush its bitmap, is
    a parameter, and so are the two services of the browser that the
    handlers use, the rasterization of text and the encoding of the
    canvas as a data URL.

    A canvas position is a pair of numbers produced by [Math.round]: a
    coordinate is an integer, or [None] for a number that is not finite
    (NaN or an infinity). Integer arithmetic on coordinates (a
    difference of two coordinates, a product with the zoom) is exact in
    binary64 below 2^53 and is modelled in [Z]; the length of a segment
    and the interpolation along it are binary64 computations. A thrown
    TypeError or RangeError is the result [None]. The element is
    connected to a document, so that [this.canvas], [this.context] and
    [this.textPreviewRect] exist. *)

(** [Math.round]: the nearest integer, ties toward +Infinity; [None] is
    a result that is not finite. *)
Definition Math_round (v : JS.num) : option Z :=
  match v with
  | S754_zero _ => Some 0
  | S754_finite s m e =>
      let n := if s then Z.neg m else Z.pos m in
      if 0 <=? e then Some (n * 2 ^ e)
      else Some ((2 * n + 2 ^ (- e)) / 2 ^ (1 - e))
  | _ => None
  end.

Definition Math_sqrt : JS.num -> JS.num := SFsqrt JS.prec JS.emax.

(** [Math.pow(v, 2.0)] *)
Definition Math_pow2 (v : JS.num) : JS.num := JS.mul v v.

(** [[...Array(length).keys()]]: a RangeError unless the length is an
    integer from 0 to 2^32 - 1. *)
Definition Array_keys (length : option Z) : option (list Z) :=
  match length with
  | Some n => if (0 <=? n) && (n <? 2 ^ 32) then Some (seqZ 0 n) else None
  | None => None
  end.

Definition KanvasPosition : Type := option Z * option Z.

(** A coordinate as a number. The computations below do not tell NaN
    from an infinity: either makes the length of a segment not finite. *)
Definition coordinate (c : option Z) : JS.num :=
  match c with
  | Some z => JS.ofZ z
  | None => S754_nan
  end.

(** [to - from] on coordinates. *)
Definition difference (to from : option Z) : JS.num :=
  match to, from with
  | Some a, Some b => JS.ofZ (a - b)
  | _, _ => S754_nan
  end.

Inductive KanvasCanvasMode := Shape | Text.

(** The fields of the element that drawing reads and writes; [hist]
    holds [history] and [historyIndex], and [context] is the canvas
    behind [this.context]. *)
Module Kanvas.

Record Element := mkElement {
  brushType : string;
  color : string;
  fontType : string;
  hist : History;
  mode : KanvasCanvasMode;
  prevPosition : KanvasPosition;
  text : string;
  toneType : string;
  transactionMode : option KanvasCanvasMode;
  actualZoom : Z;
  context : Canvas
}.

Definition withContext (this : Element) (c : Canvas) : Element :=
  mkElement (brushType this) (color this) (fontType this) (hist this)
    (mode this) (prevPosition this) (text this) (toneType this)
    (transactionMode this) (actualZoom this) c.

Definition withHistory (this : Element) (h : History) : Element :=
  mkElement (brushType this) (color this) (fontType this) h
    (mode this) (prevPosition this) (text this) (toneType this)
    (transactionMode this) (actualZoom this) (context this).

Definition withPrevPosition (this : Element) (p : KanvasPosition) : Element :=
  mkElement (brushType this) (color this) (fontType this) (hist this)
    (mode this) p (text this) (toneType this)
    (transactionMode this) (actualZoom this) (context this).

Definition withTransactionMode (this : Element) (m : option KanvasCanvasMode)
  : Element :=
  mkElement (brushType this) (color this) (fontType this) (hist this)
    (mode this) (prevPosition this) (text this) (toneType this)
    m (actualZoom this) (context this).

End Kanvas.

(** [v === 0] *)
Definition isZero (v : option Z) : bool :=
  match v with
  | Some 0 => true
  | _ => false
  end.

Section Drawing.

Variable cfg : Config.
Variable brushes : list (string * list (list Z)).
Variable fillText : Kanvas.Element -> KanvasPosition -> Canvas.
Variable toDataURL : Canvas -> string.

(** [tone.bitmap[Math.abs(y % tonePeriod)]]: [y % 0] is NaN, which
    indexes no row. *)
Definition toneRow (tone : list (list Z)) (y : Z) : option (list Z) :=
  if tonePeriod cfg =? 0 then None
  else JS.index tone (Z.abs (JS.rem y (tonePeriod cfg))).

(** [drawPoint]. The brush is centered on the position:
    [(length - 1) / 2] is an integer when the brush has an odd number of
    rows and of columns. The model applies to such brushes and to
    positions, brush sizes and zooms small enough for the loop counters
    and the pixel coordinates to stay below 2^53 (see [oddBrush] and
    [smallPosition]): with an even side the source indexes the tone by a
    fraction or fills at half cells, and from 2^53 on its counters no
    longer advance. At a position that is not finite no loop is
    entered. *)
Definition drawPoint (this : Kanvas.Element) (position : KanvasPosition)
  : option Kanvas.Element :=
  match objGet brushes (Kanvas.brushType this) with
  | None => None
  | Some brush =>
      match JS.index brush 0 with
      | None => None
      | Some row0 =>
          match position with
          | (Some px, Some py) =>
              let beginX := px - (Z.of_nat (length row0) - 1) / 2 in
              let beginY := py - (Z.of_nat (length brush) - 1) / 2 in
              let tone := objGet (tones cfg) (Kanvas.toneType this) in
              Kanvas.withContext this <$>
              forEachO (seqZ beginY (Z.of_nat (length brush))) (fun y context =>
                forEachO (seqZ beginX (Z.of_nat (length row0))) (fun x context =>
                  match JS.index brush (Z.abs (y - beginY)) with
                  | None => None
                  | Some brushRow =>
                      if isZero (JS.index brushRow (Z.abs (x - beginX)))
                      then Some context
                      else
                        match tone ≫= (fun bitmap => toneRow bitmap y) with
                        | None => None
                        | Some row =>
                            if isZero (JS.index row
                                         (Z.abs (JS.rem x (tonePeriod cfg))))
                            then Some context
                            else
                              Some (fillRect context
                                      (cssColor cfg (Kanvas.color this))
                                      (x * Kanvas.actualZoom this)
                                      (y * Kanvas.actualZoom this)
                                      (Kanvas.actualZoom this)
                                      (Kanvas.actualZoom this))
                        end
                  end) context) (Kanvas.context this)
          | _ => Some this
          end
      end
  end.

(** The number of steps of a segment. *)
Definition stepLength (from to : KanvasPosition) : option Z :=
  Math_round
    (Math_sqrt
       (JS.add (Math_pow2 (difference (fst to) (fst from)))
               (Math_pow2 (difference (snd to) (snd from))))).

(** The position drawn at a step. *)
Definition linePoint (from to : KanvasPosition) (stepLength step : Z)
  : KanvasPosition :=
  let distance := JS.div (JS.ofZ step) (JS.ofZ stepLength) in
  (Math_round (JS.add (coordinate (fst from))
                      (JS.mul (difference (fst to) (fst from)) distance)),
   Math_round (JS.add (coordinate (snd from))
                      (JS.mul (difference (snd to) (snd from)) distance))).

Definition drawLine (this : Kanvas.Element) (from to : KanvasPosition)
  : option Kanvas.Element :=
  match stepLength from to with
  | None => None
  | Some n =>
      match Array_keys (Some n) with
      | None => None
      | Some steps =>
          forEachO steps
            (fun step this => drawPoint this (linePoint from to n step)) this
      end
  end.

(** [displayTextPreviewRect] writes to the style of a DOM element, which
    the program never reads; it throws when the brush does not exist. *)
Definition displayTextPreviewRect (this : Kanvas.Element)
  : option Kanvas.Element :=
  match objGet brushes (Kanvas.brushType this) with
  | None => None
  | Some _ => Some this
  end.

(** The pointer handlers, given the canvas position of the event. *)
Definition handlePointerDown (position : KanvasPosition) (this : Kanvas.Element)
  : option Kanvas.Element :=
  match Kanvas.transactionMode this with
  | Some _ => Some this
  | None =>
      (fun this => Kanvas.withPrevPosition this position) <$>
      match Kanvas.mode this with
      | Shape =>
          drawPoint (Kanvas.withTransactionMode this (Some Shape)) position
      | Text =>
          displayTextPreviewRect (Kanvas.withTransactionMode this (Some Text))
      end
  end.

Definition handlePointerMove (position : KanvasPosition) (this : Kanvas.Element)
  : option Kanvas.Element :=
  match Kanvas.transactionMode this with
  | None => Some this
  | Some transactionMode =>
      (fun this => Kanvas.withPrevPosition this position) <$>
      match transactionMode with
      | Shape => drawLine this (Kanvas.prevPosition this) position
      | Text => displayTextPreviewRect this
      end
  end.

Definition handlePointerUp (position : KanvasPosition) (this : Kanvas.Element)
  : option (Kanvas.Element * list Effect) :=
  match Kanvas.transactionMode this with
  | None => Some (this, [])
  | Some transactionMode =>
      (fun this =>
         let pushed :=
           pushImageToHistory (toDataURL (Kanvas.context this))
             (Kanvas.hist this) in
         (Kanvas.withTransactionMode (Kanvas.withHistory this (fst pushed)) None,
          snd pushed)) <$>
      match transactionMode with
      | Shape => drawLine this (Kanvas.prevPosition this) position
      | Text =>
          match objGet brushes (Kanvas.brushType this) with
          | None => None
          | Some _ => Some (Kanvas.withContext this (fillText this position))
          end
      end
  end.

Definition handlePointerCancel (this : Kanvas.Element)
  : Kanvas.Element * list Effect :=
  match Kanvas.transactionMode this with
  | None => (this, [])
  | Some transactionMode =>
      (Kanvas.withTransactionMode this None,
       match transactionMode with
       | Shape => putImageFromHistory (Kanvas.hist this)
       | Text => []
       end)
  end.

End Drawing.

(** Three brushes with odd sides, and an element as its constructor
    leaves it, on a canvas of 8 x 8 pixels with zoom 2. *)
Definition sampleBrushes : list (string * list (list Z)) :=
  [ ("light"%string, [[1]]);
    ("medium"%string, [[0; 1; 0]; [1; 1; 1]; [0; 1; 0]]);
    ("bold"%string, [[1; 1; 1]; [1; 1; 1]; [1; 1; 1]]) ].

Definition sampleElement (brushType toneType : string) : Kanvas.Element :=
  Kanvas.mkElement brushType "hsl(0, 0%, 0%)" "sans-serif" initialHistory
    Shape (Some 0, Some 0) "" toneType None 2 (blankCanvas 8 8).

(** ** The method [applyMibaeFilter] as a whole

    [applyMibaeFilter] above is the scan of the cells, the two nested
    [forEach] loops of the method. Before the scan the method creates
    the source canvas: its size is the size of the displayed canvas
    divided by the zoom, and its content is the displayed canvas drawn
    into it by [drawImage]. How [drawImage] resamples is left to the
    browser and is the parameter [drawImage], which gives the pixels of
    the destination from the source and the destination size; it throws
    an InvalidStateError when the source canvas has no width or no
    height. [this.canvas] may be [undefined], and so may
    [this.context], which otherwise draws on [this.canvas]; the canvas
    element that the method creates does give a 2D context. *)

(** The value that [width] or [height] of a canvas takes when a number
    is assigned to it: the conversion to [unsigned long] (NaN and the
    infinities give 0, other numbers are truncated and reduced modulo
    2^32), and the default of the attribute above 2^31 - 1. *)
Definition canvasSize (default : Z) (v : JS.num) : Z :=
  let n :=
    match v with
    | S754_finite s m e =>
        let magnitude :=
          if 0 <=? e then Z.pos m * 2 ^ e else Z.pos m / 2 ^ (- e) in
        (if s then - magnitude else magnitude) mod 2 ^ 32
    | _ => 0
    end in
  if n <=? 2147483647 then n else default.

Section Method.

Variable cfg : Config.
Variable drawImage : Canvas -> Z -> Z -> gmap (Z * Z) Pixel.

Definition KanvasCanvas_applyMibaeFilter (canvas : option Canvas)
  (hasContext : bool) (actualZoom : Z) : M Canvas :=
  match canvas with
  | None => throw
  | Some canvas =>
      let shrinkedWidth :=
        canvasSize 300 (JS.div (JS.ofZ (width canvas)) (JS.ofZ actualZoom)) in
      let shrinkedHeight :=
        canvasSize 150 (JS.div (JS.ofZ (height canvas)) (JS.ofZ actualZoom)) in
      if (width canvas =? 0) || (height canvas =? 0) then throw
      else
        let shrinkedContext :=
          mkCanvas shrinkedWidth shrinkedHeight
            (drawImage canvas shrinkedWidth shrinkedHeight) in
        if hasContext then
          let* st := applyMibaeFilter cfg actualZoom shrinkedContext canvas in
          ret (snd st)
        else if (0 <? shrinkedWidth) && (0 <? shrinkedHeight) then throw
        else ret canvas
  end.

End Method.

(** ** Specification

    The predicates and functions in which the properties of the filter
    are stated. *)

(** [framed data nd]: [nd] has the length and the alpha bytes of [data],
    and the color bytes of every pixel of [data] that is not opaque. *)
Definition framed (data nd : list Z) : Prop :=
  length nd = length data
  /\ (forall k : nat, nd !! (4 * k + 3)%nat = data !! (4 * k + 3)%nat)
  /\ (forall k c : nat, (c < 3)%nat -> isOpaque data (4 * Z.of_nat k) = false ->
        nd !! (4 * k + c)%nat = data !! (4 * k + c)%nat).

(** [untouchedFrom data nd n]: the pixels from [n] on are still those of
    [data]. *)
Definition untouchedFrom (data nd : list Z) (n : nat) : Prop :=
  forall k c : nat, (c < 3)%nat -> (n <= k)%nat ->
    nd !! (4 * k + c)%nat = data !! (4 * k + c)%nat.

(** The pixel that one diffusion step leaves in place of the pixel
    [px]: each color byte receives the error of its channel,
    [original - put], times the rate, through the clamping store of the
    image data; the alpha is the one read; the canvas then stores the
    pixel. *)
Definition diffused (cfg : Config) (original put : list Z) (d : Diffusion)
  (px : Pixel) : Pixel :=
  let '(r, g, b, a) := px in
  let channel (c : Z) (old : Z) : Z :=
    JS.toUint8Clamp
      (JS.add (JS.ofZ old)
              (JS.mul (JS.sub (JS.read original c) (JS.read put c)) (rate d))) in
  stored (premultiplied cfg) (channel 0 r, channel 1 g, channel 2 b, a).

(** No pixel of the window has alpha 255. *)
Definition noOpaquePixel (data : list Z) : Prop :=
  forall k : nat, isOpaque data (4 * Z.of_nat k) = false.

Definition accumulateStep (data tile : list Z) (distance : Distance)
  (dataIndex : Z) : Distance :=
  if negb (isOpaque data dataIndex) then distance
  else
    Distance_add distance
      (sum3 (sqDiff data tile (dataIndex + 0))
            (sqDiff data tile (dataIndex + 1))
            (sqDiff data tile (dataIndex + 2))).

Definition tileDistance (data tile : list Z) : Distance :=
  fold_left (accumulateStep data tile) (dataIndices (length data)) (Fin 0).


Section Specification.

Variable cfg : Config.

(** The pixel [(x, y)] of the tile of [p], read off the tone bitmap. *)
Definition patternPixel (bitmap : list (list Z)) (p : Pattern) (x y : Z) : Pixel :=
  let isForeground :=
    truthy (JS.index bitmap (JS.rem (y + offsetY p) (tonePeriod cfg))
              ≫= fun row => JS.index row (JS.rem (x + offsetX p) (tonePeriod cfg))) in
  let '(r, g, b) :=
    cssColor cfg (if isForeground then foregroundColor p else backgroundColor p) in
  (r, g, b, 255).

Definition tileData (bitmap : list (list Z)) (p : Pattern) : list Z :=
  flat_map (fun y => flat_map (fun x => pixelData (patternPixel bitmap p x y))
                              (tonePeriodRange cfg))
           (tonePeriodRange cfg).

(** Every row of the bitmap that the rendering of [p] indexes exists. *)
Definition rowsExist (bitmap : list (list Z)) (p : Pattern) : bool :=
  forallb (fun y => bool_decide
                      (is_Some (JS.index bitmap
                                  (JS.rem (y + offsetY p) (tonePeriod cfg)))))
          (tonePeriodRange cfg).

(** The tile of [p] as a function of [p] alone: what a render on a fresh
    scratch canvas gives. *)
Definition tileOf (p : Pattern) : option (list Z) :=
  if negb (cacheRowExists cfg p) then None
  else
    match objGet (tones cfg) (toneType p) with
    | None => None
    | Some bitmap => if rowsExist bitmap p then Some (tileData bitmap p) else None
    end.

(** The invariant of the module state: the scratch canvas has the size
    of a tile, and every cached tile is the tile of its key. *)
Definition World_ok (w : World) : Prop :=
  width (patternContext w) = tonePeriod cfg
  /\ height (patternContext w) = tonePeriod cfg
  /\ forall p t, patternImageDataCache w !! patternKey p = Some t ->
                 tileOf p = Some t.

(** [respectful m]: on states that satisfy the invariant the value
    computed by [m] does not depend on the state, [m] keeps the
    invariant, and [m] only ever adds entries to the cache. *)
Definition respectful {A} (m : M A) : Prop :=
  (forall w1 w2, World_ok w1 -> World_ok w2 ->
     fst <$> m w1 = fst <$> m w2)
  /\ (forall w a w', World_ok w -> m w = Some (a, w') -> World_ok w')
  /\ (forall w a w', m w = Some (a, w') ->
        patternImageDataCache w ⊆ patternImageDataCache w').

End Specification.

(** The distance accumulated for [p]; NaN stands for a pattern without a
    tile, for which the search throws. *)
Definition distanceTo (cfg : Config) (data : list Z) (p : Pattern) : Distance :=
  match tileOf cfg p with
  | Some tile => tileDistance data tile
  | None => NaN
  end.

(** Every bitmap of [tones] is a square of side [tonePeriod]. *)
Definition squareTones (cfg : Config) : bool :=
  forallb (fun tone =>
             (Z.of_nat (length (snd tone)) =? tonePeriod cfg)
             && forallb (fun row => Z.of_nat (length row) =? tonePeriod cfg)
                        (snd tone))
          (tones cfg).

(** The tables are well formed: square bitmaps, at least one tone, the
    palettes "light" and "dark" exist, and no palette is empty. *)
Definition wellFormed (cfg : Config) : bool :=
  squareTones cfg
  && negb (bool_decide (tones cfg = []))
  && bool_decide (is_Some (objGet (palettes cfg) "light"))
  && bool_decide (is_Some (objGet (palettes cfg) "dark"))
  && forallb (fun palette => negb (bool_decide (palette = [])))
             (Object_values (palettes cfg)).

(** The state left by a first render on the sample configuration: its
    cache is not empty. *)
Definition warmWorld (cfg : Config) (p : Pattern) : World :=
  match getPatternImageData cfg p (initialWorld cfg) with
  | Some (_, w) => w
  | None => initialWorld cfg
  end.

Section SearchSpecification.

Variable cfg : Config.

(** The update of [(bestPattern, bestPatternDistance)] by one candidate. *)
Definition keepBest (data : list Z) (best : option Pattern * Distance)
  (pattern : Pattern) : option Pattern * Distance :=
  if Distance_ltb (distanceTo cfg data pattern) (snd best)
  then (Some pattern, distanceTo cfg data pattern)
  else best.

(** [firstMinimum data patterns i]: the candidate at index [i] has a
    finite distance, no candidate has a smaller one, and every candidate
    before [i] has a strictly larger one. *)
Definition firstMinimum (data : list Z) (patterns : list Pattern) (i : nat)
  (best : Pattern) (d : Z) : Prop :=
  patterns !! i = Some best
  /\ distanceTo cfg data best = Fin d
  /\ forall (j : nat) q, patterns !! j = Some q ->
       exists dq, distanceTo cfg data q = Fin dq
                  /\ d <= dq /\ ((j < i)%nat -> d < dq).

Section Candidates.

Variables (offsetY offsetX : Z).

(** The candidate lists of the five searches of a cell, from the results
    of the previous ones. *)
Definition toneCandidates (light dark : string) : list Pattern :=
  map (fun toneType => mkPattern toneType light dark offsetY offsetX)
      (Object_keys (tones cfg)).

Definition backgroundCandidates (toneType dark : string) (choices : list string)
  : list Pattern :=
  map (fun backgroundColor =>
         mkPattern toneType backgroundColor dark offsetY offsetX) choices.

Definition foregroundCandidates (toneType backgroundColor : string)
  (choices : list string) : list Pattern :=
  map (fun foregroundColor =>
         mkPattern toneType backgroundColor foregroundColor offsetY offsetX)
      choices.

End Candidates.

End SearchSpecification.

Definition inRect (x y w h px py : Z) : bool :=
  (x <=? px) && (px <? x + w) && (y <=? py) && (py <? y + h).

Definition alphaOf (p : Pixel) : Z := snd p.

Definition opaque (rgb : RGB) : Pixel :=
  let '(r, g, b) := rgb in (r, g, b, 255).

(** The displayed pixel [(px, py)] lies in the block of a cell that
    satisfies [cells]. *)
Definition covered (actualZoom : Z) (cells : Z -> Z -> Prop) (px py : Z) : Prop :=
  exists x y, cells x y
    /\ inRect (x * actualZoom) (y * actualZoom) actualZoom actualZoom px py = true.

(** The state of the two canvases after the cells in [cells] have been
    processed, starting from [(s0, c0)]. *)
Definition stampedState (cfg : Config) (actualZoom : Z) (s0 c0 : Canvas)
  (cells : Z -> Z -> Prop) (st : Canvas * Canvas) : Prop :=
  width (fst st) = width s0 /\ height (fst st) = height s0
  /\ (forall x y, alphaOf (pixelAt (fst st) x y) = alphaOf (pixelAt s0 x y))
  /\ width (snd st) = width c0 /\ height (snd st) = height c0
  /\ (forall px py, ~ covered actualZoom cells px py ->
        pixelAt (snd st) px py = pixelAt c0 px py)
  /\ (forall px py, covered actualZoom cells px py ->
        inCanvas c0 px py = true ->
        exists color, color ∈ colors cfg
          /\ pixelAt (snd st) px py = opaque (cssColor cfg color)).

(** The state is either empty with index -1, or the index points into
    the list; the list never holds more than [historyMaxLength + 2]
    entries. *)
Definition historyOk (h : History) : Prop :=
  -1 <= historyIndex h < Z.of_nat (length (history h))
  /\ (history h = [] -> historyIndex h = -1)
  /\ (history h <> [] -> 0 <= historyIndex h)
  /\ Z.of_nat (length (history h)) <= historyMaxLength + 2.

(** [paintedBy rgb R c c']: [c'] is [c] with the pixels of the region
    [R] that lie on the canvas painted in the opaque color [rgb]. *)
Definition paintedBy (rgb : RGB) (R : Z -> Z -> bool) (c c' : Canvas) : Prop :=
  width c' = width c /\ height c' = height c
  /\ forall qx qy,
       pixelAt c' qx qy
       = if inCanvas c qx qy && R qx qy then opaque rgb else pixelAt c qx qy.

(** [brush[y][x]] and [tone[|y % tonePeriod|][|x % tonePeriod|]] *)
Definition brushBit (brush : list (list Z)) (x y : Z) : option Z :=
  JS.index brush y ≫= fun row => JS.index row x.

Definition toneBit (cfg : Config) (tone : list (list Z)) (x y : Z) : option Z :=
  JS.index tone (Z.abs (JS.rem y (tonePeriod cfg)))
  ≫= fun row => JS.index row (Z.abs (JS.rem x (tonePeriod cfg))).

(** The cell [(x, y)] is painted by a stamp of [brush] through [tone]
    at the position [(px, py)]: it lies in the rectangle of the brush
    centered there, and neither the entry of the brush nor the entry of
    the tone at the cell is 0. *)
Definition stamps (cfg : Config) (brush tone : list (list Z)) (px py x y : Z)
  : bool :=
  let w := Z.of_nat (length (default [] (head brush))) in
  let h := Z.of_nat (length brush) in
  let beginX := px - (w - 1) / 2 in
  let beginY := py - (h - 1) / 2 in
  inRect beginX beginY w h x y
  && negb (isZero (brushBit brush (x - beginX) (y - beginY)))
  && negb (isZero (toneBit cfg tone x y)).

(** The brush has an odd number of rows and of columns, so that it is
    centered on whole cells, and fewer than 2^25 of each. *)
Definition oddBrush (brush : list (list Z)) : bool :=
  Z.odd (Z.of_nat (length brush))
  && Z.odd (Z.of_nat (length (default [] (head brush))))
  && (Z.of_nat (length brush) <? 2 ^ 25)
  && (Z.of_nat (length (default [] (head brush))) <? 2 ^ 25).

(** The coordinates of the position that are finite are below 2^25 in
    absolute value. With such positions, a zoom below 2^25 and a brush
    as above, every loop counter and every pixel coordinate that
    [drawPoint] computes is an integer below 2^53, where the arithmetic
    of the source is the integer arithmetic of the model. *)
Definition smallPosition (p : KanvasPosition) : bool :=
  let small (c : option Z) : bool :=
    match c with
    | Some z => Z.abs z <? 2 ^ 25
    | None => true
    end in
  small (fst p) && small (snd p).

(** A stroke up to its last pointer move: a pointer down followed by
    pointer moves. *)
Definition stroke (cfg : Config) (brushes : list (string * list (list Z)))
  (start : KanvasPosition) (moves : list KanvasPosition) (this : Kanvas.Element)
  : option Kanvas.Element :=
  handlePointerDown cfg brushes start this
  ≫= forEachO moves (handlePointerMove cfg brushes).

(** The current entry of the history is the data URL of the canvas. *)
Definition committed (toDataURL : Canvas -> string) (this : Kanvas.Element)
  : Prop :=
  JS.index (history (Kanvas.hist this)) (historyIndex (Kanvas.hist this))
  = Some (toDataURL (Kanvas.context this)).

(** The number that the rescaling loop computes for the opaque pixel
    at the data index [i], before it is stored as a byte. *)
Definition rescaled (data : list Z) (i : Z) : JS.num :=
  let lo := JS.Math_min (snd (grayscale data)) in
  let hi := JS.Math_max (snd (grayscale data)) in
  JS.div
    (JS.mul (JS.sub (JS.ofZ (JS.toUint8Clamp (lightnessAt data i))) lo)
            (JS.ofZ 255))
    (JS.sub hi lo).

(** ** Sample data *)

Definition samplePattern : Pattern :=
  mkPattern "dot" "hsl(0, 0%, 100%)" "hsl(0, 0%, 0%)" 1 0.

Definition transparentWindow : list Z :=
  [12; 200; 7; 0; 255; 255; 255; 254; 90; 90; 90; 128; 1; 2; 3; 0].

(** Two candidates with the same tile (the tone "fill" shows no
    background): the one listed first wins, in either order. *)
Definition tiedA : Pattern :=
  mkPattern "fill" "hsl(0, 0%, 100%)" "hsl(0, 0%, 0%)" 1 1.
Definition tiedB : Pattern :=
  mkPattern "fill" "hsl(0, 67%, 67%)" "hsl(0, 0%, 0%)" 1 1.
Definition opaqueWindow : list Z :=
  [10; 20; 30; 255; 200; 100; 50; 255; 1; 2; 3; 4; 90; 90; 90; 255].

(** The window of the literal test: 16 x 16 opaque pixels of value
    (128, 128, 128). *)
Definition midGrayWindow : list Z :=
  getImageData (grayCanvas 16 16 128) 0 0 16 16.

(** A window of [P] x [P] opaque pixels of one gray level. *)
Definition flatWindow (P v : Z) : list Z :=
  getImageData (grayCanvas P P v) 0 0 P P.

(** ** Proofs: numbers and arrays *)

Lemma roundHalfEven_nonneg m e : 0 <= JS.roundHalfEven m e.
Proof.
  unfold JS.roundHalfEven.
  destruct (0 <=? e) eqn:He.
  - apply Z.leb_le in He.
    apply Z.mul_nonneg_nonneg; [lia | apply Z.pow_nonneg; lia].
  - apply Z.leb_gt in He.
    assert (Hd : 0 < 2 ^ (- e)) by (apply Z.pow_pos_nonneg; lia).
    assert (Hq : 0 <= Z.pos m / 2 ^ (- e)) by (apply Z.div_pos; lia).
    cbv zeta.
    destruct (2 * (Z.pos m mod 2 ^ (- e)) ?= 2 ^ (- e)); [|lia|lia].
    destruct (Z.even _); lia.
Qed.

Lemma toUint8Clamp_byte v : 0 <= JS.toUint8Clamp v <= 255.
Proof.
  destruct v as [s|s| |s m e]; simpl; try destruct s; try lia.
  pose proof (roundHalfEven_nonneg m e). lia.
Qed.

Lemma index_nat {A} (l : list A) (n : nat) : JS.index l (Z.of_nat n) = l !! n.
Proof.
  unfold JS.index.
  destruct (Z.of_nat n <? 0) eqn:H; [apply Z.ltb_lt in H; lia|].
  by rewrite Nat2Z.id.
Qed.

Lemma index_Some_lt {A} (l : list A) i a :
  JS.index l i = Some a -> 0 <= i < Z.of_nat (length l).
Proof.
  unfold JS.index. destruct (i <? 0) eqn:H; [done|].
  apply Z.ltb_ge in H. intros Hl. apply lookup_lt_Some in Hl. lia.
Qed.

Lemma index_is_Some {A} (l : list A) i :
  0 <= i < Z.of_nat (length l) -> is_Some (JS.index l i).
Proof.
  intros [H0 H1]. unfold JS.index.
  destruct (i <? 0) eqn:H; [apply Z.ltb_lt in H; lia|].
  apply lookup_lt_is_Some. lia.
Qed.

Lemma length_store l i v : length (JS.store l i v) = length l.
Proof. unfold JS.store. destruct (i <? 0); [done|]. apply length_insert. Qed.

Lemma lookup_store_ne l i v (j : nat) :
  i <> Z.of_nat j -> JS.store l i v !! j = l !! j.
Proof.
  intros Hne. unfold JS.store. destruct (i <? 0) eqn:H; [done|].
  apply Z.ltb_ge in H. apply list_lookup_insert_ne. lia.
Qed.

Lemma lookup_store_eq l i v (j : nat) :
  i = Z.of_nat j -> (j < length l)%nat ->
  JS.store l i v !! j = Some (JS.toUint8Clamp v).
Proof.
  intros -> Hlt. unfold JS.store.
  destruct (Z.of_nat j <? 0) eqn:H; [apply Z.ltb_lt in H; lia|].
  rewrite Nat2Z.id. by apply list_lookup_insert_eq.
Qed.

Lemma length_store3 l i v : length (store3 l i v) = length l.
Proof. unfold store3. by rewrite !length_store. Qed.

Lemma lookup_store3_ne l i v (j : nat) :
  i + 0 <> Z.of_nat j -> i + 1 <> Z.of_nat j -> i + 2 <> Z.of_nat j ->
  store3 l i v !! j = l !! j.
Proof.
  intros H0 H1 H2. unfold store3. by rewrite !lookup_store_ne.
Qed.

Lemma lookup_store3_eq l i v (j : nat) :
  (i + 0 = Z.of_nat j \/ i + 1 = Z.of_nat j \/ i + 2 = Z.of_nat j) ->
  (j < length l)%nat ->
  store3 l i v !! j = Some (JS.toUint8Clamp v).
Proof.
  intros H Hlt. unfold store3.
  destruct (decide (i + 0 = Z.of_nat j)) as [E0|N0].
  { apply lookup_store_eq; [done|]. by rewrite !length_store. }
  rewrite lookup_store_ne by done.
  destruct (decide (i + 1 = Z.of_nat j)) as [E1|N1].
  { apply lookup_store_eq; [done|]. by rewrite !length_store. }
  rewrite lookup_store_ne by done.
  apply lookup_store_eq; [lia | done].
Qed.

Lemma isOpaque_nat data (k : nat) :
  isOpaque data (4 * Z.of_nat k) = bool_decide (data !! (4 * k + 3)%nat = Some 255).
Proof.
  unfold isOpaque.
  replace (4 * Z.of_nat k + 3) with (Z.of_nat (4 * k + 3)) by lia.
  by rewrite index_nat.
Qed.

Lemma pixelIndices_S n :
  pixelIndices (S n) = pixelIndices n ++ [4 * Z.of_nat n].
Proof. unfold pixelIndices. by rewrite seq_S, map_app. Qed.

Lemma elem_of_pixelIndices i n :
  i ∈ pixelIndices n <-> exists k : nat, i = 4 * Z.of_nat k /\ (k < n)%nat.
Proof.
  unfold pixelIndices. rewrite list_elem_of_fmap. split.
  - intros (k & -> & Hk). apply elem_of_seq in Hk. exists k. split; [done|lia].
  - intros (k & -> & Hk). exists k. split; [done|]. apply elem_of_seq. lia.
Qed.

(** ** Proofs: window normalization *)

Lemma framed_refl data : framed data data.
Proof. repeat split; done. Qed.

Lemma framed_isOpaque data nd (k : nat) :
  framed data nd ->
  isOpaque nd (4 * Z.of_nat k) = isOpaque data (4 * Z.of_nat k).
Proof. intros (_ & Ha & _). by rewrite !isOpaque_nat, Ha. Qed.

Lemma framed_store3 data nd n v :
  framed data nd ->
  isOpaque data (4 * Z.of_nat n) = true ->
  framed data (store3 nd (4 * Z.of_nat n) v).
Proof.
  intros (Hlen & Ha & Hno) Hop. repeat split.
  - by rewrite length_store3.
  - intros k. rewrite lookup_store3_ne by lia. apply Ha.
  - intros k c Hc Hk.
    assert (k <> n) by (intros ->; congruence).
    rewrite lookup_store3_ne by lia. by apply Hno.
Qed.

Lemma untouchedFrom_store3 data nd n v :
  untouchedFrom data nd n ->
  untouchedFrom data (store3 nd (4 * Z.of_nat n) v) (S n).
Proof.
  intros Hge k c Hc Hk. rewrite lookup_store3_ne by lia. apply Hge; lia.
Qed.

Lemma read_untouchedFrom data nd n (c : Z) :
  untouchedFrom data nd n -> 0 <= c < 3 ->
  JS.read nd (4 * Z.of_nat n + c) = JS.read data (4 * Z.of_nat n + c).
Proof.
  intros Hge Hc. unfold JS.read.
  replace (4 * Z.of_nat n + c) with (Z.of_nat (4 * n + Z.to_nat c)) by lia.
  rewrite !index_nat, Hge; [done|lia|lia].
Qed.

Lemma lightnessAt_untouchedFrom data nd n :
  untouchedFrom data nd n ->
  lightnessAt nd (4 * Z.of_nat n) = lightnessAt data (4 * Z.of_nat n).
Proof.
  intros H. unfold lightnessAt.
  rewrite (read_untouchedFrom data nd n 0 H), (read_untouchedFrom data nd n 1 H),
    (read_untouchedFrom data nd n 2 H) by lia.
  done.
Qed.

Lemma grayscale_prefix data n :
  let st := fold_left grayscaleStep (pixelIndices n) (data, []) in
  framed data (fst st)
  /\ untouchedFrom data (fst st) n
  /\ snd st = map (lightnessAt data) (List.filter (isOpaque data) (pixelIndices n)).
Proof.
  induction n as [|n (IH1 & IH2 & IH3)].
  { split; [apply framed_refl|]. split; [by intros k c _ _ | done]. }
  cbv zeta. rewrite pixelIndices_S, fold_left_app, List.filter_app, map_app.
  destruct (fold_left grayscaleStep (pixelIndices n) (data, [])) as [nd ls].
  simpl in IH1, IH2, IH3. simpl.
  rewrite (framed_isOpaque data nd n IH1).
  destruct (isOpaque data (4 * Z.of_nat n)) eqn:Hop; simpl.
  - split; [by apply framed_store3|]. split; [by apply untouchedFrom_store3|].
    by rewrite IH3, (lightnessAt_untouchedFrom data nd n IH2).
  - split; [done|]. split; [intros k c Hc Hk; apply IH2; lia|].
    by rewrite IH3, app_nil_r.
Qed.

Lemma rescale_prefix lo hi data nd0 n :
  framed data nd0 ->
  framed data (fold_left (rescaleStep lo hi) (pixelIndices n) nd0).
Proof.
  intros H0. induction n as [|n IH]; [done|].
  rewrite pixelIndices_S, fold_left_app. simpl.
  set (nd := fold_left (rescaleStep lo hi) (pixelIndices n) nd0) in *.
  unfold rescaleStep. rewrite (framed_isOpaque data nd n IH).
  destruct (isOpaque data (4 * Z.of_nat n)) eqn:Hop; simpl; [|done].
  by apply framed_store3.
Qed.

Lemma normalize_framed data : framed data (normalize data).
Proof.
  unfold normalize, grayscale, dataIndices.
  pose proof (grayscale_prefix data (Nat.div (length data + 3) 4)) as (H1 & _ & _).
  destruct (fold_left grayscaleStep _ (data, [])) as [nd ls]. simpl in H1.
  unfold dataIndices. by apply rescale_prefix.
Qed.

(** C9. Window normalization leaves every pixel whose alpha byte is not
    255 exactly as it is in the window: both loops skip it. The alpha
    byte of every pixel is kept, only the color bytes of opaque pixels
    can change, and the lightness list handed to [Math.max] and
    [Math.min] holds the lightness of the opaque pixels of the window
    and nothing else. *)
Theorem normalize_skips_non_opaque (data : list Z) :
  length (normalize data) = length data
  /\ (forall k c : nat, (c < 4)%nat ->
        isOpaque data (4 * Z.of_nat k) = false ->
        normalize data !! (4 * k + c)%nat = data !! (4 * k + c)%nat
        /\ fst (grayscale data) !! (4 * k + c)%nat = data !! (4 * k + c)%nat)
  /\ (forall k : nat,
        normalize data !! (4 * k + 3)%nat = data !! (4 * k + 3)%nat)
  /\ (forall k c : nat, (c < 4)%nat ->
        normalize data !! (4 * k + c)%nat <> data !! (4 * k + c)%nat ->
        isOpaque data (4 * Z.of_nat k) = true /\ (c < 3)%nat)
  /\ snd (grayscale data)
     = map (lightnessAt data)
           (List.filter (isOpaque data) (dataIndices (length data))).
Proof.
  pose proof (normalize_framed data) as (Hlen & Ha & Hno).
  pose proof (grayscale_prefix data (Nat.div (length data + 3) 4))
    as ((_ & Hga & Hgno) & _ & Hls).
  fold (dataIndices (length data)) in Hga, Hgno, Hls.
  fold (grayscale data) in Hga, Hgno, Hls.
  split; [done|]. split; [|split; [done|split; [|done]]].
  - intros k c Hc Hop.
    destruct (decide (c = 3%nat)) as [->|Hc3]; [by rewrite Ha, Hga|].
    split; [apply Hno | apply Hgno]; (lia || done).
  - intros k c Hc Hne.
    destruct (isOpaque data (4 * Z.of_nat k)) eqn:Hop.
    + split; [done|]. destruct (decide (c = 3%nat)) as [->|]; [|lia].
      by rewrite Ha in Hne.
    + exfalso. apply Hne.
      destruct (decide (c = 3%nat)) as [->|]; [apply Ha | apply Hno; (lia || done)].
Qed.

(** ** Proofs: loops *)

Lemma forEachO_invariant {A S} (I : list A -> S -> Prop)
  (body : A -> S -> option S) (l : list A) :
  forall pre s,
    I pre s ->
    (forall pre a s, I pre s -> a ∈ l ->
       exists s', body a s = Some s' /\ I (pre ++ [a]) s') ->
    exists s', forEachO l body s = Some s' /\ I (pre ++ l) s'.
Proof.
  induction l as [|a l IH]; intros pre s Hpre Hstep; simpl.
  - exists s. by rewrite app_nil_r.
  - destruct (Hstep pre a s Hpre) as (s1 & -> & H1); [left|].
    destruct (IH (pre ++ [a]) s1 H1) as (s' & Hrun & Hs').
    { intros pre' a' s0 Hp Hin. apply Hstep; [done | by right]. }
    exists s'. split; [done|]. by rewrite <- app_assoc in Hs'.
Qed.

Lemma forEachO_fails {A S} (body : A -> S -> option S) (l : list A) (a : A) :
  a ∈ l -> (forall s, body a s = None) -> forall s, forEachO l body s = None.
Proof.
  induction l as [|b l IH]; intros Hin Hnone s; [by apply elem_of_nil in Hin|].
  simpl. apply elem_of_cons in Hin as [<-|Hin]; [by rewrite Hnone|].
  destruct (body b s); [by apply IH | done].
Qed.

Lemma forEachM_skip {A S} (body : A -> S -> M S) (l : list A) (s : S) (w : World) :
  (forall a, a ∈ l -> body a s w = Some (s, w)) ->
  forEachM l body s w = Some (s, w).
Proof.
  induction l as [|a l IH]; intros H; [done|].
  simpl. unfold bind. rewrite H by left. apply IH.
  intros b Hb. apply H. by right.
Qed.

(** ** Proofs: canvases *)

Lemma seqZ_1 x : seqZ x 1 = [x].
Proof. unfold seqZ. simpl. f_equal. Qed.

Lemma fillRect_1x1 c r g b x y :
  fillRect c (r, g, b) x y 1 1 = setPixel c x y (r, g, b, 255).
Proof. unfold fillRect. by rewrite !seqZ_1. Qed.

Lemma width_setPixel c x y p : width (setPixel c x y p) = width c.
Proof. unfold setPixel. by destruct (inCanvas c x y). Qed.

Lemma height_setPixel c x y p : height (setPixel c x y p) = height c.
Proof. unfold setPixel. by destruct (inCanvas c x y). Qed.

Lemma inCanvas_setPixel c x y p x' y' :
  inCanvas (setPixel c x y p) x' y' = inCanvas c x' y'.
Proof. unfold inCanvas. by rewrite width_setPixel, height_setPixel. Qed.

Lemma inCanvas_true c x y :
  inCanvas c x y = true <-> 0 <= x < width c /\ 0 <= y < height c.
Proof. unfold inCanvas. rewrite !andb_true_iff, !Z.leb_le, !Z.ltb_lt. lia. Qed.

Lemma pixelAt_setPixel_eq c x y p :
  inCanvas c x y = true -> pixelAt (setPixel c x y p) x y = p.
Proof.
  intros H. unfold pixelAt. rewrite inCanvas_setPixel, H.
  unfold setPixel. rewrite H. simpl. by rewrite lookup_insert_eq.
Qed.

Lemma pixelAt_setPixel_ne c x y p x' y' :
  (x, y) <> (x', y') -> pixelAt (setPixel c x y p) x' y' = pixelAt c x' y'.
Proof.
  intros H. unfold pixelAt. rewrite inCanvas_setPixel.
  unfold setPixel. destruct (inCanvas c x y); [|done].
  simpl. by rewrite lookup_insert_ne.
Qed.

Lemma pixelAt_outside c x y : inCanvas c x y = false -> pixelAt c x y = (0, 0, 0, 0).
Proof. intros H. unfold pixelAt. by rewrite H. Qed.

Lemma flat_map_ext_elem {A B} (f g : A -> list B) (l : list A) :
  (forall a, a ∈ l -> f a = g a) -> flat_map f l = flat_map g l.
Proof.
  induction l as [|a l IH]; intros H; [done|].
  simpl. rewrite (H a) by left. f_equal. apply IH. intros b Hb. apply H. by right.
Qed.

Lemma getImageData_ext c1 c2 sx sy sw sh :
  (forall x y, x ∈ seqZ sx sw -> y ∈ seqZ sy sh -> pixelAt c1 x y = pixelAt c2 x y) ->
  getImageData c1 sx sy sw sh = getImageData c2 sx sy sw sh.
Proof.
  intros H. unfold getImageData.
  apply flat_map_ext_elem. intros y Hy. apply flat_map_ext_elem. intros x Hx.
  by rewrite H.
Qed.

Lemma getImageData_1x1 c x y : getImageData c x y 1 1 = pixelData (pixelAt c x y).
Proof. unfold getImageData. rewrite !seqZ_1. simpl. by rewrite !app_nil_r. Qed.

(** ** Proofs: rendering a pattern *)

Section Rendering.

Variable cfg : Config.

Lemma elem_of_tonePeriodRange i :
  i ∈ tonePeriodRange cfg <-> 0 <= i < tonePeriod cfg.
Proof. unfold tonePeriodRange. rewrite elem_of_seqZ. lia. Qed.

Lemma rowsExist_true bitmap p :
  rowsExist cfg bitmap p = true <->
  forall y, y ∈ tonePeriodRange cfg ->
    is_Some (JS.index bitmap (JS.rem (y + offsetY p) (tonePeriod cfg))).
Proof.
  unfold rowsExist. rewrite forallb_forall. split.
  - intros H y Hy. apply list_elem_of_In in Hy. apply H in Hy.
    by apply bool_decide_eq_true in Hy.
  - intros H y Hy. apply bool_decide_eq_true. apply H. by apply list_elem_of_In.
Qed.

Lemma rowsExist_false bitmap p :
  rowsExist cfg bitmap p = false ->
  exists y, y ∈ tonePeriodRange cfg
    /\ JS.index bitmap (JS.rem (y + offsetY p) (tonePeriod cfg)) = None.
Proof.
  unfold rowsExist.
  induction (tonePeriodRange cfg) as [|a l IH]; [done|]. simpl.
  destruct (JS.index bitmap (JS.rem (a + offsetY p) (tonePeriod cfg))) eqn:Ha.
  - rewrite bool_decide_eq_true_2 by (by eexists). simpl. intros H.
    destruct (IH H) as (y & Hy & Hn). exists y. split; [by right | done].
  - intros _. exists a. split; [by left | done].
Qed.

(** One step of the inner loop paints exactly the pixel [(x, y)]. *)
Lemma paint_step bitmap p ctx x y row :
  JS.index bitmap (JS.rem (y + offsetY p) (tonePeriod cfg)) = Some row ->
  fillRect ctx
    (cssColor cfg
       (if truthy (JS.index row (JS.rem (x + offsetX p) (tonePeriod cfg)))
        then foregroundColor p else backgroundColor p)) x y 1 1
  = setPixel ctx x y (patternPixel cfg bitmap p x y).
Proof.
  intros Hrow. unfold patternPixel. rewrite Hrow. simpl.
  destruct (cssColor cfg _) as [[r g] b]. apply fillRect_1x1.
Qed.

Lemma paintPattern_succeeds bitmap p ctx :
  width ctx = tonePeriod cfg -> height ctx = tonePeriod cfg ->
  rowsExist cfg bitmap p = true ->
  exists ctx',
    paintPattern cfg bitmap p ctx = Some ctx'
    /\ width ctx' = tonePeriod cfg /\ height ctx' = tonePeriod cfg
    /\ forall x y, x ∈ tonePeriodRange cfg -> y ∈ tonePeriodRange cfg ->
         pixelAt ctx' x y = patternPixel cfg bitmap p x y.
Proof.
  intros Hw Hh Hrows. rewrite rowsExist_true in Hrows.
  unfold paintPattern.
  destruct (forEachO_invariant
    (fun (done : list Z) (c : Canvas) =>
       width c = tonePeriod cfg /\ height c = tonePeriod cfg
       /\ forall x y, x ∈ tonePeriodRange cfg -> y ∈ done ->
            pixelAt c x y = patternPixel cfg bitmap p x y)
    (fun y ctx => forEachO (tonePeriodRange cfg) (fun x ctx =>
       match JS.index bitmap (JS.rem (y + offsetY p) (tonePeriod cfg)) with
       | None => None
       | Some row =>
           Some (fillRect ctx
                   (cssColor cfg
                      (if truthy (JS.index row (JS.rem (x + offsetX p) (tonePeriod cfg)))
                       then foregroundColor p else backgroundColor p)) x y 1 1)
       end) ctx)
    (tonePeriodRange cfg) [] ctx) as (ctx' & Hrun & Hw' & Hh' & Hpix).
  - split; [done|]. split; [done|]. intros x y _ Hy. by apply elem_of_nil in Hy.
  - intros pre y c (Hcw & Hch & Hc) Hy.
    destruct (Hrows y Hy) as [row Hrow]. rewrite Hrow.
    destruct (forEachO_invariant
      (fun (done : list Z) (c' : Canvas) =>
         width c' = tonePeriod cfg /\ height c' = tonePeriod cfg
         /\ (forall x, x ∈ done -> pixelAt c' x y = patternPixel cfg bitmap p x y)
         /\ (forall x y', y' <> y -> pixelAt c' x y' = pixelAt c x y'))
      (fun x ctx =>
         Some (fillRect ctx
                 (cssColor cfg
                    (if truthy (JS.index row (JS.rem (x + offsetX p) (tonePeriod cfg)))
                     then foregroundColor p else backgroundColor p)) x y 1 1))
      (tonePeriodRange cfg) [] c) as (c' & Hrun & Hw' & Hh' & Hrowy & Hother).
    + repeat split; try done. intros x Hx. by apply elem_of_nil in Hx.
    + intros pre' x c1 (Hw1 & Hh1 & Hdone & Hoth) Hx.
      eexists. split; [done|]. rewrite (paint_step bitmap p c1 x y row Hrow).
      rewrite width_setPixel, height_setPixel. repeat split; try done.
      * intros x' Hx'. apply elem_of_app in Hx' as [Hx'|Hx'].
        -- destruct (decide (x' = x)) as [->|Hne].
           ++ apply pixelAt_setPixel_eq. apply inCanvas_true.
              apply elem_of_tonePeriodRange in Hx, Hy. lia.
           ++ rewrite pixelAt_setPixel_ne by congruence. by apply Hdone.
        -- apply list_elem_of_singleton in Hx' as ->.
           apply pixelAt_setPixel_eq. apply inCanvas_true.
           apply elem_of_tonePeriodRange in Hx, Hy. lia.
      * intros x' y' Hne. rewrite pixelAt_setPixel_ne by congruence. by apply Hoth.
    + exists c'. split; [exact Hrun|]. repeat split; try done.
      intros x y' Hx Hy'. apply elem_of_app in Hy' as [Hy'|Hy'].
      * destruct (decide (y' = y)) as [->|Hne]; [by apply Hrowy|].
        rewrite Hother by done. by apply Hc.
      * apply list_elem_of_singleton in Hy' as ->. by apply Hrowy.
  - exists ctx'. split; [exact Hrun|]. repeat split; try done.
Qed.

Lemma paintPattern_fails bitmap p ctx :
  rowsExist cfg bitmap p = false -> paintPattern cfg bitmap p ctx = None.
Proof.
  intros H. destruct (rowsExist_false bitmap p H) as (y & Hy & Hnone).
  unfold paintPattern. apply (forEachO_fails _ _ y Hy).
  intros c. apply (forEachO_fails _ _ y Hy). intros c'. by rewrite Hnone.
Qed.

Lemma getImageData_tile bitmap p ctx :
  (forall x y, x ∈ tonePeriodRange cfg -> y ∈ tonePeriodRange cfg ->
     pixelAt ctx x y = patternPixel cfg bitmap p x y) ->
  getImageData ctx 0 0 (tonePeriod cfg) (tonePeriod cfg) = tileData cfg bitmap p.
Proof.
  intros H. unfold getImageData, tileData. fold (tonePeriodRange cfg).
  apply flat_map_ext_elem. intros y Hy. apply flat_map_ext_elem. intros x Hx.
  by rewrite H.
Qed.

End Rendering.

(** ** Proofs: the pattern cache *)

Section Cache.

Variable cfg : Config.

Lemma initialWorld_ok : World_ok cfg (initialWorld cfg).
Proof. repeat split. intros p t H. simpl in H. by rewrite lookup_empty in H. Qed.

(** On a state that satisfies the invariant, [getPatternImageData]
    returns the tile of its argument, or throws when there is none. *)
Lemma getPatternImageData_tileOf p w :
  World_ok cfg w ->
  match tileOf cfg p with
  | Some t =>
      exists w', getPatternImageData cfg p w = Some (t, w')
                 /\ World_ok cfg w'
                 /\ patternImageDataCache w'
                    = <[patternKey p := t]> (patternImageDataCache w)
                 /\ searches w' = searches w
  | None => getPatternImageData cfg p w = None
  end.
Proof.
  intros (Hw & Hh & Hc). unfold tileOf, getPatternImageData.
  destruct (cacheRowExists cfg p) eqn:Hrow; simpl; [|done].
  destruct (patternImageDataCache w !! patternKey p) as [t|] eqn:Hhit.
  - pose proof (Hc p t Hhit) as Ht. unfold tileOf in Ht.
    rewrite Hrow in Ht. simpl in Ht.
    rewrite Ht. exists w. repeat split; try done. by rewrite insert_id.
  - destruct (objGet (tones cfg) (toneType p)) as [bitmap|] eqn:Htone; [|done].
    destruct (rowsExist cfg bitmap p) eqn:Hrows.
    + destruct (paintPattern_succeeds cfg bitmap p (patternContext w) Hw Hh Hrows)
        as (ctx' & -> & Hw' & Hh' & Hpix).
      rewrite (getImageData_tile cfg bitmap p ctx' Hpix).
      eexists. split; [done|]. repeat split; try done. simpl.
      intros q t Hq. destruct (decide (patternKey p = patternKey q)) as [E|N].
      * rewrite E, lookup_insert_eq in Hq. injection Hq as <-.
        assert (q = p) as ->.
        { destruct p, q. unfold patternKey in E. simpl in E. congruence. }
        unfold tileOf. by rewrite Hrow, Htone, Hrows.
      * rewrite lookup_insert_ne in Hq by done. by apply Hc.
    + by rewrite paintPattern_fails.
Qed.

Lemma getPatternImageData_grows p w t w' :
  getPatternImageData cfg p w = Some (t, w') ->
  patternImageDataCache w ⊆ patternImageDataCache w'
  /\ patternImageDataCache w' !! patternKey p = Some t
  /\ searches w' = searches w.
Proof.
  unfold getPatternImageData.
  destruct (cacheRowExists cfg p); simpl; [|done].
  destruct (patternImageDataCache w !! patternKey p) as [t0|] eqn:Hhit.
  - intros [= <- <-]. done.
  - destruct (objGet (tones cfg) (toneType p)) as [bitmap|]; [|done].
    destruct (paintPattern cfg bitmap p (patternContext w)) as [ctx|]; [|done].
    intros [= <- <-]. simpl. split; [by apply insert_subseteq|].
    split; [by rewrite lookup_insert_eq | done].
Qed.

Lemma respectful_ret {A} (a : A) : respectful cfg (ret a).
Proof.
  split; [done|]. split.
  - by intros w a' w' Hw [= <- <-].
  - by intros w a' w' [= <- <-].
Qed.

Lemma respectful_throw {A} : respectful cfg (@throw A).
Proof. split; [done|]. split; by intros. Qed.

Lemma respectful_liftO {A} (o : option A) : respectful cfg (liftO o).
Proof. destruct o; [apply respectful_ret | apply respectful_throw]. Qed.

Lemma respectful_bind {A B} (m : M A) (k : A -> M B) :
  respectful cfg m -> (forall a, respectful cfg (k a)) -> respectful cfg (bind m k).
Proof.
  intros (Hd & Hp & Hg) Hk. unfold bind. split; [|split].
  - intros w1 w2 H1 H2. specialize (Hd w1 w2 H1 H2).
    destruct (m w1) as [[a1 w1']|] eqn:E1, (m w2) as [[a2 w2']|] eqn:E2;
      simpl in Hd; try done.
    injection Hd as <-. apply (Hk a1); eauto.
  - intros w b w' Hw. destruct (m w) as [[a w1]|] eqn:E; [|done].
    intros Hrun. destruct (Hk a) as (_ & Hkp & _). eauto.
  - intros w b w'. destruct (m w) as [[a w1]|] eqn:E; [|done].
    intros Hrun. destruct (Hk a) as (_ & _ & Hkg).
    etrans; [by eapply Hg | by eapply Hkg].
Qed.

Lemma respectful_forEachM {A S} (body : A -> S -> M S) (l : list A) :
  (forall a s, respectful cfg (body a s)) -> forall s, respectful cfg (forEachM l body s).
Proof.
  intros Hbody. induction l as [|a l IH]; intros s; simpl.
  - apply respectful_ret.
  - apply respectful_bind; [apply Hbody | apply IH].
Qed.

Lemma respectful_getPatternImageData p : respectful cfg (getPatternImageData cfg p).
Proof.
  split; [|split].
  - intros w1 w2 H1 H2.
    pose proof (getPatternImageData_tileOf p w1 H1) as R1.
    pose proof (getPatternImageData_tileOf p w2 H2) as R2.
    destruct (tileOf cfg p).
    + destruct R1 as (? & -> & _), R2 as (? & -> & _). done.
    + by rewrite R1, R2.
  - intros w t w' Hw Hrun.
    pose proof (getPatternImageData_tileOf p w Hw) as R.
    destruct (tileOf cfg p); [|congruence].
    destruct R as (w1 & Hrun' & Hok & _). congruence.
  - intros w t w' Hrun. by apply getPatternImageData_grows in Hrun as (? & _).
Qed.

Lemma respectful_accumulate data p i d : respectful cfg (accumulate cfg data p i d).
Proof.
  unfold accumulate. destruct (negb (isOpaque data i)); [apply respectful_ret|].
  apply respectful_bind; [apply respectful_getPatternImageData|].
  intros t. apply respectful_ret.
Qed.

Lemma respectful_patternDistance data p : respectful cfg (patternDistance cfg data p).
Proof.
  unfold patternDistance. apply respectful_forEachM.
  intros i d. apply respectful_accumulate.
Qed.

Lemma recordSearch_ok data patterns w :
  World_ok cfg w -> World_ok cfg (recordSearch data patterns w).
Proof. by intros (? & ? & ?). Qed.

Lemma respectful_recorded {A} (m : M A) data patterns :
  respectful cfg m -> respectful cfg (fun w => m (recordSearch data patterns w)).
Proof.
  intros (Hd & Hp & Hg). split; [|split].
  - intros w1 w2 H1 H2. apply Hd; by apply recordSearch_ok.
  - intros w a w' Hw Hrun. eapply Hp; [|exact Hrun]. by apply recordSearch_ok.
  - intros w a w' Hrun. by apply Hg in Hrun.
Qed.

Lemma respectful_getBestPattern data patterns :
  respectful cfg (getBestPattern cfg data patterns).
Proof.
  unfold getBestPattern.
  apply (respectful_recorded
           (let* best := searchLoop cfg data patterns in ret (fst best))).
  apply respectful_bind; [|intros; apply respectful_ret].
  unfold searchLoop. apply respectful_forEachM. intros p best.
  apply respectful_bind; [apply respectful_patternDistance|].
  intros d. apply respectful_ret.
Qed.

Ltac respect :=
  repeat first
    [ apply respectful_ret
    | apply respectful_liftO
    | apply respectful_getBestPattern
    | apply respectful_bind; [|intros ?] ].

Lemma respectful_selectPattern nd wd oy ox :
  respectful cfg (selectPattern cfg nd wd oy ox).
Proof. unfold selectPattern. respect. Qed.

Lemma respectful_processCell zoom y x st : respectful cfg (processCell cfg zoom y x st).
Proof.
  unfold processCell. destruct st as [shrinked context]. cbv zeta.
  apply respectful_bind; [apply respectful_selectPattern | intros p].
  respect.
Qed.

Lemma respectful_applyMibaeFilter zoom shrinked context :
  respectful cfg (applyMibaeFilter cfg zoom shrinked context).
Proof.
  unfold applyMibaeFilter. apply respectful_forEachM. intros y st.
  apply respectful_forEachM. intros x st'. apply respectful_processCell.
Qed.

End Cache.

(** ** Determinism of the pipeline *)

Lemma warmWorld_ok cfg p : World_ok cfg (warmWorld cfg p).
Proof.
  unfold warmWorld.
  destruct (getPatternImageData cfg p (initialWorld cfg)) as [[t w]|] eqn:E.
  - destruct (respectful_getPatternImageData cfg p) as (_ & Hp & _).
    eapply Hp; [apply initialWorld_ok | exact E].
  - apply initialWorld_ok.
Qed.

(** C8. [applyMibaeFilter] is deterministic: on the same source canvas,
    displayed canvas and zoom it produces the same pair of canvases (or
    throws alike) from any two states of the module that satisfy the
    cache invariant; in particular a second run, started in the state the
    first one left, returns the buffers of the first. *)
Theorem applyMibaeFilter_deterministic (cfg : Config) (actualZoom : Z)
  (shrinkedContext context : Canvas) (w1 w2 : World) :
  World_ok cfg w1 -> World_ok cfg w2 ->
  fst <$> applyMibaeFilter cfg actualZoom shrinkedContext context w1
  = fst <$> applyMibaeFilter cfg actualZoom shrinkedContext context w2
  /\ (forall out w1',
        applyMibaeFilter cfg actualZoom shrinkedContext context w1
        = Some (out, w1') ->
        exists w1'',
          applyMibaeFilter cfg actualZoom shrinkedContext context w1'
          = Some (out, w1'')).
Proof.
  intros H1 H2.
  destruct (respectful_applyMibaeFilter cfg actualZoom shrinkedContext context)
    as (Hd & Hp & _).
  split; [by apply Hd|].
  intros out w1' Hrun. pose proof (Hp _ _ _ H1 Hrun) as H1'.
  pose proof (Hd w1 w1' H1 H1') as E. rewrite Hrun in E. simpl in E.
  destruct (applyMibaeFilter cfg actualZoom shrinkedContext context w1')
    as [[out' w1'']|]; [|done].
  injection E as <-. by exists w1''.
Qed.

Lemma applyMibaeFilter_deterministic_witness :
  fst <$> applyMibaeFilter (sampleConfig 2) 1 (grayCanvas 3 2 128)
            (grayCanvas 3 2 128) (initialWorld (sampleConfig 2))
  = fst <$> applyMibaeFilter (sampleConfig 2) 1 (grayCanvas 3 2 128)
              (grayCanvas 3 2 128) (warmWorld (sampleConfig 2) samplePattern)
  /\ (forall out w1',
        applyMibaeFilter (sampleConfig 2) 1 (grayCanvas 3 2 128)
          (grayCanvas 3 2 128) (initialWorld (sampleConfig 2))
        = Some (out, w1') ->
        exists w1'',
          applyMibaeFilter (sampleConfig 2) 1 (grayCanvas 3 2 128)
            (grayCanvas 3 2 128) w1'
          = Some (out, w1'')).
Proof.
  apply (applyMibaeFilter_deterministic (sampleConfig 2) 1 (grayCanvas 3 2 128)
           (grayCanvas 3 2 128) (initialWorld (sampleConfig 2))
           (warmWorld (sampleConfig 2) samplePattern)).
  - apply initialWorld_ok.
  - apply warmWorld_ok.
Defined.

(** The sample run does return, and stamps one palette color per cell. *)
Example applyMibaeFilter_sample_run :
  (fun r => getImageData (snd (fst r)) 0 0 3 2)
    <$> applyMibaeFilter (sampleConfig 2) 1 (grayCanvas 3 2 128)
          (grayCanvas 3 2 128) (initialWorld (sampleConfig 2))
  = Some [171; 171; 171; 255; 84; 84; 84; 255; 171; 171; 171; 255;
          84; 84; 84; 255; 171; 171; 171; 255; 171; 171; 171; 255].
Proof. vm_compute. reflexivity. Qed.

(** ** The pattern cache is write-once *)

Lemma patternKey_inj p q : patternKey p = patternKey q -> p = q.
Proof. destruct p, q. unfold patternKey. simpl. congruence. Qed.

Lemma getPatternImageData_twice cfg p w t w' :
  getPatternImageData cfg p w = Some (t, w') ->
  getPatternImageData cfg p w' = Some (t, w').
Proof.
  intros Hrun. pose proof (getPatternImageData_grows cfg p w t w' Hrun) as (_ & Hhit & _).
  unfold getPatternImageData in *.
  destruct (cacheRowExists cfg p); simpl in *; [|done]. by rewrite Hhit.
Qed.

Lemma render_both_orders cfg p q w :
  World_ok cfg w ->
  let pq := (let* a := getPatternImageData cfg p in
             let* b := getPatternImageData cfg q in ret (a, b)) w in
  let qp := (let* b := getPatternImageData cfg q in
             let* a := getPatternImageData cfg p in ret (a, b)) w in
  fst <$> pq = fst <$> qp
  /\ (fun r => patternImageDataCache (snd r)) <$> pq
     = (fun r => patternImageDataCache (snd r)) <$> qp.
Proof.
  intros Hok. cbv zeta. unfold bind.
  pose proof (getPatternImageData_tileOf cfg p w Hok) as Rp.
  pose proof (getPatternImageData_tileOf cfg q w Hok) as Rq.
  destruct (tileOf cfg p) as [tp|] eqn:Tp, (tileOf cfg q) as [tq|] eqn:Tq.
  - destruct Rp as (wp & -> & Hokp & Hcp & _), Rq as (wq & -> & Hokq & Hcq & _).
    pose proof (getPatternImageData_tileOf cfg q wp Hokp) as Rq'.
    pose proof (getPatternImageData_tileOf cfg p wq Hokq) as Rp'.
    rewrite Tq in Rq'. rewrite Tp in Rp'.
    destruct Rq' as (wpq & -> & _ & Hcpq & _), Rp' as (wqp & -> & _ & Hcqp & _).
    simpl. split; [done|]. f_equal. rewrite Hcpq, Hcqp, Hcp, Hcq.
    destruct (decide (patternKey p = patternKey q)) as [E|N].
    + apply patternKey_inj in E as ->. congruence.
    + by apply insert_insert_ne.
  - destruct Rp as (wp & -> & Hokp & _). rewrite Rq.
    pose proof (getPatternImageData_tileOf cfg q wp Hokp) as Rq'.
    rewrite Tq in Rq'. by rewrite Rq'.
  - destruct Rq as (wq & -> & Hokq & _). rewrite Rp.
    pose proof (getPatternImageData_tileOf cfg p wq Hokq) as Rp'.
    rewrite Tp in Rp'. by rewrite Rp'.
  - by rewrite Rp, Rq.
Qed.

(** C7. The pattern cache is idempotent and write-once. Rendering a key
    again returns the stored tile and leaves the state as it is; the tile
    of a key is the same from every state that satisfies the invariant;
    rendering two keys in either order yields the same two tiles and the
    same cache; and an entry that is set is still there, unchanged, after
    any render, any search and any run of the whole filter. *)
Theorem pattern_cache_write_once (cfg : Config) (w : World) :
  World_ok cfg w ->
  (forall p t w',
     getPatternImageData cfg p w = Some (t, w') ->
     getPatternImageData cfg p w' = Some (t, w'))
  /\ (forall p w2, World_ok cfg w2 ->
        fst <$> getPatternImageData cfg p w = fst <$> getPatternImageData cfg p w2)
  /\ (forall p q,
        let pq := (let* a := getPatternImageData cfg p in
                   let* b := getPatternImageData cfg q in ret (a, b)) w in
        let qp := (let* b := getPatternImageData cfg q in
                   let* a := getPatternImageData cfg p in ret (a, b)) w in
        fst <$> pq = fst <$> qp
        /\ (fun r => patternImageDataCache (snd r)) <$> pq
           = (fun r => patternImageDataCache (snd r)) <$> qp)
  /\ (forall k t,
        patternImageDataCache w !! k = Some t ->
        (forall p r w', getPatternImageData cfg p w = Some (r, w') ->
           patternImageDataCache w' !! k = Some t)
        /\ (forall data patterns r w',
              getBestPattern cfg data patterns w = Some (r, w') ->
              patternImageDataCache w' !! k = Some t)
        /\ (forall actualZoom shrinkedContext context r w',
              applyMibaeFilter cfg actualZoom shrinkedContext context w
              = Some (r, w') ->
              patternImageDataCache w' !! k = Some t)).
Proof.
  intros Hok. split; [|split; [|split]].
  - intros p t w'. apply getPatternImageData_twice.
  - intros p w2 H2.
    by destruct (respectful_getPatternImageData cfg p) as (Hd & _); apply Hd.
  - intros p q. by apply render_both_orders.
  - intros k t Hk. split; [|split].
    + intros p r w' Hrun.
      destruct (respectful_getPatternImageData cfg p) as (_ & _ & Hg).
      eapply lookup_weaken; [exact Hk | by eapply Hg].
    + intros data patterns r w' Hrun.
      destruct (respectful_getBestPattern cfg data patterns) as (_ & _ & Hg).
      eapply lookup_weaken; [exact Hk | by eapply Hg].
    + intros z s c r w' Hrun.
      destruct (respectful_applyMibaeFilter cfg z s c) as (_ & _ & Hg).
      eapply lookup_weaken; [exact Hk | by eapply Hg].
Qed.

Lemma pattern_cache_write_once_witness :
  World_ok (sampleConfig 2) (warmWorld (sampleConfig 2) samplePattern)
  /\ (forall p t w',
        getPatternImageData (sampleConfig 2) p
          (warmWorld (sampleConfig 2) samplePattern)
        = Some (t, w') ->
        getPatternImageData (sampleConfig 2) p w' = Some (t, w'))
  /\ patternImageDataCache (warmWorld (sampleConfig 2) samplePattern)
       !! patternKey samplePattern
     = Some [255; 255; 255; 255; 255; 255; 255; 255;
             0; 0; 0; 255; 255; 255; 255; 255].
Proof.
  split; [apply warmWorld_ok | split].
  - apply (pattern_cache_write_once (sampleConfig 2)
             (warmWorld (sampleConfig 2) samplePattern)).
    apply warmWorld_ok.
  - vm_compute. reflexivity.
Defined.

(** ** What a rendered tile holds *)

Lemma lookup_flat_map_uniform {A B} (f : A -> list B) (n : nat) (l : list A) :
  (forall a, a ∈ l -> length (f a) = n) ->
  forall (i j : nat) (a : A),
    l !! i = Some a -> (j < n)%nat ->
    flat_map f l !! (i * n + j)%nat = f a !! j.
Proof.
  induction l as [|b l IH]; intros Hlen i j a Hi Hj; [done|].
  assert (Hb : length (f b) = n) by (apply Hlen; left).
  simpl. destruct i as [|i]; simpl in *.
  - injection Hi as ->. apply lookup_app_l. lia.
  - rewrite lookup_app_r by lia.
    replace (n + i * n + j - length (f b))%nat with (i * n + j)%nat by lia.
    apply IH; [|done|done]. intros c Hc. apply Hlen. by right.
Qed.

Lemma length_pixelData p : length (pixelData p) = 4%nat.
Proof. by destruct p as [[[r g] b] a]. Qed.

Lemma length_tileRow cfg (g : Z -> Pixel) :
  length (flat_map (fun x => pixelData (g x)) (tonePeriodRange cfg))
  = (Z.to_nat (tonePeriod cfg) * 4)%nat.
Proof.
  rewrite (flat_map_constant_length (c := 4)).
  - unfold tonePeriodRange. by rewrite length_seqZ.
  - intros x _. apply length_pixelData.
Qed.

Lemma length_tileData cfg bitmap p :
  length (tileData cfg bitmap p)
  = (Z.to_nat (tonePeriod cfg) * (Z.to_nat (tonePeriod cfg) * 4))%nat.
Proof.
  unfold tileData.
  rewrite (flat_map_constant_length (c := (Z.to_nat (tonePeriod cfg) * 4)%nat)).
  - unfold tonePeriodRange. by rewrite length_seqZ.
  - intros y _. apply length_tileRow.
Qed.

Lemma tileData_index cfg bitmap p (x y c : Z) :
  0 <= x < tonePeriod cfg -> 0 <= y < tonePeriod cfg -> 0 <= c < 4 ->
  JS.index (tileData cfg bitmap p) (4 * (y * tonePeriod cfg + x) + c)
  = JS.index (pixelData (patternPixel cfg bitmap p x y)) c.
Proof.
  intros Hx Hy Hc.
  set (P := Z.to_nat (tonePeriod cfg)).
  replace (4 * (y * tonePeriod cfg + x) + c)
    with (Z.of_nat (Z.to_nat y * (P * 4) + (Z.to_nat x * 4 + Z.to_nat c))).
  2:{ unfold P. rewrite !Nat2Z.inj_add, !Nat2Z.inj_mul, !Z2Nat.id by lia. ring. }
  replace c with (Z.of_nat (Z.to_nat c)) at 2 by lia.
  rewrite !index_nat. unfold tileData.
  rewrite (lookup_flat_map_uniform _ (P * 4) _ (fun _ _ => length_tileRow cfg _)
             (Z.to_nat y) _ y).
  - rewrite (lookup_flat_map_uniform _ 4 _ (fun _ _ => length_pixelData _)
               (Z.to_nat x) _ x); [done| |lia].
    unfold tonePeriodRange. apply lookup_seqZ. lia.
  - unfold tonePeriodRange. apply lookup_seqZ. lia.
  - assert (Z.to_nat x < P)%nat by (unfold P; lia). nia.
Qed.

Lemma cacheRowExists_offsetY cfg p :
  cacheRowExists cfg p = true -> 0 <= offsetY p < tonePeriod cfg.
Proof.
  unfold cacheRowExists. rewrite !andb_true_iff, Z.leb_le, Z.ltb_lt. tauto.
Qed.

Lemma rowsExist_tall cfg bitmap p :
  tonePeriod cfg <= Z.of_nat (length bitmap) ->
  0 <= offsetY p ->
  rowsExist cfg bitmap p = true.
Proof.
  intros Hlen Hoy. apply rowsExist_true. intros y Hy.
  apply elem_of_tonePeriodRange in Hy. apply index_is_Some.
  unfold JS.rem.
  pose proof (Z.rem_bound_pos (y + offsetY p) (tonePeriod cfg)). lia.
Qed.

(** C3. [getPatternImageData]: when the cache holds a tile for the key,
    that tile is returned and nothing changes (whatever the tile is, so
    nothing is recomputed); on a miss the result is a tile of
    [tonePeriod] x [tonePeriod] RGBA pixels in which pixel [(x, y)] has
    the foreground color when
    [bitmap[(y + offsetY) % tonePeriod][(x + offsetX) % tonePeriod]] is
    truthy and the background color otherwise, with alpha 255, and the
    tile is stored under the key. *)
Theorem getPatternImageData_hit_or_render (cfg : Config) (p : Pattern) (w : World) :
  cacheRowExists cfg p = true ->
  (forall t, patternImageDataCache w !! patternKey p = Some t ->
     getPatternImageData cfg p w = Some (t, w))
  /\ (patternImageDataCache w !! patternKey p = None ->
      width (patternContext w) = tonePeriod cfg ->
      height (patternContext w) = tonePeriod cfg ->
      forall bitmap,
        objGet (tones cfg) (toneType p) = Some bitmap ->
        tonePeriod cfg <= Z.of_nat (length bitmap) ->
        exists tile ctx,
          getPatternImageData cfg p w
          = Some (tile,
                  mkWorld (<[patternKey p := tile]> (patternImageDataCache w))
                          ctx (searches w))
          /\ Z.of_nat (length tile) = 4 * tonePeriod cfg * tonePeriod cfg
          /\ forall x y,
               0 <= x < tonePeriod cfg -> 0 <= y < tonePeriod cfg ->
               exists row r g b,
                 JS.index bitmap (JS.rem (y + offsetY p) (tonePeriod cfg)) = Some row
                 /\ cssColor cfg
                      (if truthy (JS.index row (JS.rem (x + offsetX p) (tonePeriod cfg)))
                       then foregroundColor p else backgroundColor p)
                    = (r, g, b)
                 /\ JS.index tile (4 * (y * tonePeriod cfg + x) + 0) = Some r
                 /\ JS.index tile (4 * (y * tonePeriod cfg + x) + 1) = Some g
                 /\ JS.index tile (4 * (y * tonePeriod cfg + x) + 2) = Some b
                 /\ JS.index tile (4 * (y * tonePeriod cfg + x) + 3) = Some 255).
Proof.
  intros Hrow. split.
  - intros t Hhit. unfold getPatternImageData. by rewrite Hrow, Hhit.
  - intros Hmiss Hw Hh bitmap Htone Hlen.
    pose proof (cacheRowExists_offsetY cfg p Hrow) as Hoy.
    assert (Hrows : rowsExist cfg bitmap p = true) by (apply rowsExist_tall; lia).
    destruct (paintPattern_succeeds cfg bitmap p (patternContext w) Hw Hh Hrows)
      as (ctx & Hpaint & _ & _ & Hpix).
    exists (tileData cfg bitmap p), ctx. split; [|split].
    + unfold getPatternImageData. rewrite Hrow, Hmiss, Htone, Hpaint. simpl.
      by rewrite (getImageData_tile cfg bitmap p ctx Hpix).
    + rewrite length_tileData. lia.
    + intros x y Hx Hy.
      assert (Hy' : y ∈ tonePeriodRange cfg) by (apply elem_of_tonePeriodRange; lia).
      destruct (proj1 (rowsExist_true cfg bitmap p) Hrows y Hy') as [row Hr].
      destruct (cssColor cfg
                  (if truthy (JS.index row (JS.rem (x + offsetX p) (tonePeriod cfg)))
                   then foregroundColor p else backgroundColor p))
        as [[r g] b] eqn:Hcol.
      exists row, r, g, b. split; [done|]. split; [done|].
      rewrite !tileData_index by lia.
      unfold patternPixel. rewrite Hr. simpl. rewrite Hcol. done.
Qed.

Lemma getPatternImageData_hit_or_render_witness :
  cacheRowExists (sampleConfig 2) samplePattern = true
  /\ getPatternImageData (sampleConfig 2) samplePattern
       (warmWorld (sampleConfig 2) samplePattern)
     = Some ([255; 255; 255; 255; 255; 255; 255; 255;
              0; 0; 0; 255; 255; 255; 255; 255],
             warmWorld (sampleConfig 2) samplePattern).
Proof.
  split; [reflexivity|].
  apply (getPatternImageData_hit_or_render (sampleConfig 2) samplePattern
           (warmWorld (sampleConfig 2) samplePattern)); reflexivity.
Defined.

Example getPatternImageData_sample_render :
  fst <$> getPatternImageData (sampleConfig 2) samplePattern
            (initialWorld (sampleConfig 2))
  = Some [255; 255; 255; 255; 255; 255; 255; 255;
          0; 0; 0; 255; 255; 255; 255; 255].
Proof. vm_compute. reflexivity. Qed.

(** ** Phase offsets *)

Lemma cellOffset_range cfg position :
  0 < tonePeriod cfg -> 0 <= cellOffset cfg position < tonePeriod cfg.
Proof.
  intros HP. unfold cellOffset, JS.rem.
  pose proof (Z.rem_bound_abs (position - tonePeriod cfg / 2) (tonePeriod cfg)).
  lia.
Qed.

(** C10. For every cell the two phase offsets
    [Math.abs((x - tonePeriod / 2) % tonePeriod)] and
    [Math.abs((y - tonePeriod / 2) % tonePeriod)] lie in
    [0, tonePeriod). So the cache read for a pattern with these offsets,
    a tone of [tones] and two palette colors finds its row and its slot,
    and every bitmap index [(i + offset) % tonePeriod] taken while
    rendering stays inside a bitmap of [tonePeriod] rows and columns.
    [tonePeriod] is taken even, as [tonePeriod / 2] must be integral for
    the offsets to be array indices at all; the bounds hold for negative
    positions too. *)
Theorem cell_offsets_in_bounds (cfg : Config) (x y : Z) :
  0 < tonePeriod cfg -> Z.even (tonePeriod cfg) = true ->
  let offsetX := cellOffset cfg x in
  let offsetY := cellOffset cfg y in
  0 <= offsetX < tonePeriod cfg
  /\ 0 <= offsetY < tonePeriod cfg
  /\ (forall toneType backgroundColor foregroundColor,
        toneType ∈ Object_keys (tones cfg) ->
        backgroundColor ∈ colors cfg -> foregroundColor ∈ colors cfg ->
        cacheRowExists cfg
          (mkPattern toneType backgroundColor foregroundColor offsetY offsetX)
        = true
        /\ is_Some (JS.index (tonePeriodRange cfg) offsetX))
  /\ (forall i, i ∈ tonePeriodRange cfg ->
        0 <= JS.rem (i + offsetY) (tonePeriod cfg) < tonePeriod cfg
        /\ 0 <= JS.rem (i + offsetX) (tonePeriod cfg) < tonePeriod cfg)
  /\ (forall (bitmap : list (list Z)) i,
        Z.of_nat (length bitmap) = tonePeriod cfg ->
        Forall (fun row => Z.of_nat (length row) = tonePeriod cfg) bitmap ->
        i ∈ tonePeriodRange cfg ->
        exists row,
          JS.index bitmap (JS.rem (i + offsetY) (tonePeriod cfg)) = Some row
          /\ forall j, j ∈ tonePeriodRange cfg ->
               is_Some (JS.index row (JS.rem (j + offsetX) (tonePeriod cfg)))).
Proof.
  intros HP _. cbv zeta.
  pose proof (cellOffset_range cfg x HP) as Hx.
  pose proof (cellOffset_range cfg y HP) as Hy.
  assert (Hrem : forall i o, i ∈ tonePeriodRange cfg -> 0 <= o ->
            0 <= JS.rem (i + o) (tonePeriod cfg) < tonePeriod cfg).
  { intros i o Hi Ho. apply elem_of_tonePeriodRange in Hi.
    unfold JS.rem. apply Z.rem_bound_pos; lia. }
  split; [done|]. split; [done|]. split; [|split].
  - intros t bg fg Ht Hbg Hfg. split.
    + unfold cacheRowExists. simpl.
      rewrite !bool_decide_eq_true_2 by done. simpl.
      apply andb_true_iff. rewrite Z.leb_le, Z.ltb_lt. lia.
    + apply index_is_Some. unfold tonePeriodRange. rewrite length_seqZ. lia.
  - intros i Hi. split; apply Hrem; (done || lia).
  - intros bitmap i Hlen Hrows Hi.
    destruct (index_is_Some bitmap (JS.rem (i + cellOffset cfg y) (tonePeriod cfg)))
      as [row Hrow].
    { rewrite Hlen. apply Hrem; (done || lia). }
    exists row. split; [done|]. intros j Hj. apply index_is_Some.
    assert (Hin : row ∈ bitmap).
    { unfold JS.index in Hrow. destruct (_ <? 0); [done|].
      by eapply list_elem_of_lookup_2. }
    rewrite Forall_forall in Hrows. rewrite (Hrows row Hin).
    apply Hrem; (done || lia).
Qed.

Lemma cell_offsets_in_bounds_witness :
  0 < tonePeriod (sampleConfig 16)
  /\ cellOffset (sampleConfig 16) 3 = 5
  /\ cellOffset (sampleConfig 16) 27 = 3
  /\ 0 <= cellOffset (sampleConfig 16) 3 < tonePeriod (sampleConfig 16).
Proof.
  split; [reflexivity|]. split; [reflexivity|]. split; [reflexivity|].
  apply (cell_offsets_in_bounds (sampleConfig 16) 3 27); (reflexivity || lia).
Defined.

(** ** Error diffusion *)

Lemma diffuse_setPixel cfg original put x y c d :
  diffuse cfg original put x y c d
  = setPixel c (x + deltaX d) (y + deltaY d)
      (diffused cfg original put d (pixelAt c (x + deltaX d) (y + deltaY d))).
Proof.
  unfold diffuse. rewrite getImageData_1x1.
  destruct (pixelAt c (x + deltaX d) (y + deltaY d)) as [[[r g] b] a].
  reflexivity.
Qed.


Lemma diffusion_total (e : Q) :
  (fold_right Qplus 0 (map (fun d => Qabs (e * JS.toQ (rate d))) ditheringPattern)
   <= Qabs e)%Q.
Proof.
  assert (H7 : (JS.toQ (JS.mul (JS.div (JS.ofZ 7) (JS.ofZ 16)) ditheringRate) == 7 # 32)%Q)
    by (vm_compute; reflexivity).
  assert (H3 : (JS.toQ (JS.mul (JS.div (JS.ofZ 3) (JS.ofZ 16)) ditheringRate) == 3 # 32)%Q)
    by (vm_compute; reflexivity).
  assert (H5 : (JS.toQ (JS.mul (JS.div (JS.ofZ 5) (JS.ofZ 16)) ditheringRate) == 5 # 32)%Q)
    by (vm_compute; reflexivity).
  assert (H1 : (JS.toQ (JS.mul (JS.div (JS.ofZ 1) (JS.ofZ 16)) ditheringRate) == 1 # 32)%Q)
    by (vm_compute; reflexivity).
  unfold ditheringPattern. cbn [map fold_right rate].
  rewrite H7, H3, H5, H1, !Qabs_Qmult.
  change (Qabs (7 # 32)) with (7 # 32)%Q. change (Qabs (3 # 32)) with (3 # 32)%Q.
  change (Qabs (5 # 32)) with (5 # 32)%Q. change (Qabs (1 # 32)) with (1 # 32)%Q.
  pose proof (Qabs_nonneg e) as Hn.
  set (a := Qabs e) in *. lra.
Qed.

Lemma pixelAt_setPixel_same c x y p :
  pixelAt (setPixel c x y p) x y = if inCanvas c x y then p else (0, 0, 0, 0).
Proof.
  destruct (inCanvas c x y) eqn:H; [by apply pixelAt_setPixel_eq|].
  unfold setPixel. rewrite H. by apply pixelAt_outside.
Qed.

Ltac pixel_ne :=
  let E := fresh in
  intros E; pose proof (f_equal fst E); pose proof (f_equal snd E);
  simpl in *; lia.

Lemma diffusion_targets cfg original put x y shrinked :
  let result :=
    fold_left (diffuse cfg original put x y) ditheringPattern shrinked in
  width result = width shrinked
  /\ height result = height shrinked
  /\ (forall d, d ∈ ditheringPattern ->
        pixelAt result (x + deltaX d) (y + deltaY d)
        = if inCanvas shrinked (x + deltaX d) (y + deltaY d)
          then diffused cfg original put d
                 (pixelAt shrinked (x + deltaX d) (y + deltaY d))
          else (0, 0, 0, 0))
  /\ (forall px py,
        (forall d, d ∈ ditheringPattern ->
           (px, py) <> (x + deltaX d, y + deltaY d)) ->
        pixelAt result px py = pixelAt shrinked px py).
Proof.
  cbv zeta. unfold ditheringPattern. cbn [fold_left].
  rewrite !diffuse_setPixel. cbn [deltaX deltaY].
  split; [by rewrite !width_setPixel|]. split; [by rewrite !height_setPixel|].
  split.
  - intros d Hd. rewrite !elem_of_cons in Hd.
    destruct Hd as [->|[->|[->|[->|Hd]]]]; [| | | |by apply elem_of_nil in Hd];
      cbn [deltaX deltaY rate].
    + rewrite 3!pixelAt_setPixel_ne by pixel_ne. by rewrite pixelAt_setPixel_same.
    + rewrite 2!pixelAt_setPixel_ne by pixel_ne.
      rewrite pixelAt_setPixel_same, inCanvas_setPixel.
      by rewrite pixelAt_setPixel_ne by pixel_ne.
    + rewrite pixelAt_setPixel_ne by pixel_ne.
      rewrite pixelAt_setPixel_same, !inCanvas_setPixel.
      by rewrite 2!pixelAt_setPixel_ne by pixel_ne.
    + rewrite pixelAt_setPixel_same, !inCanvas_setPixel.
      by rewrite 3!pixelAt_setPixel_ne by pixel_ne.
  - intros px py Hne.
    rewrite !pixelAt_setPixel_ne; [done| | | |].
    + intros E. eapply (Hne (mkDiffusion 1 0 _)); [by left | by rewrite <- E].
    + intros E. eapply (Hne (mkDiffusion (-1) 1 _)); [right; by left | by rewrite <- E].
    + intros E. eapply (Hne (mkDiffusion 0 1 _)); [do 2 right; by left | by rewrite <- E].
    + intros E. eapply (Hne (mkDiffusion 1 1 _)); [do 3 right; by left | by rewrite <- E].
Qed.

(** The first cell of the sample run: the error 128 - 171 = -43 of each
    channel moves the right neighbor from 128 to 119 (128 - 43 * 7/32 is
    118.59). *)
Example diffuse_sample :
  getImageData
    (fold_left (diffuse (sampleConfig 2) [128; 128; 128; 255]
                  [171; 171; 171; 255] 0 0)
               ditheringPattern (grayCanvas 3 2 128))
    0 0 3 2
  = [128; 128; 128; 255; 119; 119; 119; 255; 128; 128; 128; 255;
     121; 121; 121; 255; 127; 127; 127; 255; 128; 128; 128; 255].
Proof. vm_compute. reflexivity. Qed.

(** ** Pattern search on a window without opaque pixels *)

Lemma patternDistance_transparent cfg data p w :
  noOpaquePixel data -> patternDistance cfg data p w = Some (Fin 0, w).
Proof.
  intros H. unfold patternDistance. apply forEachM_skip.
  intros i Hi. apply elem_of_pixelIndices in Hi as (k & -> & _).
  unfold accumulate. by rewrite H.
Qed.

Lemma searchLoop_settled cfg data patterns best w :
  noOpaquePixel data ->
  forEachM patterns
    (fun pattern best =>
       let* distance := patternDistance cfg data pattern in
       ret (if Distance_ltb distance (snd best)
            then (Some pattern, distance) else best))
    (best, Fin 0) w
  = Some ((best, Fin 0), w).
Proof.
  intros H. apply forEachM_skip. intros p _.
  unfold bind. by rewrite patternDistance_transparent.
Qed.

(** C6. When no pixel of the window is opaque, every candidate
    accumulates the distance 0 without a single cache access, and
    [getBestPattern] returns the first candidate of the list (for the
    empty list, [patterns[0]], that is [undefined]); it does not throw,
    whatever the colors in the window and whatever the candidates. *)
Theorem getBestPattern_transparent_window (cfg : Config) (data : list Z)
  (patterns : list Pattern) (w : World) :
  noOpaquePixel data ->
  (forall p w0, patternDistance cfg data p w0 = Some (Fin 0, w0))
  /\ getBestPattern cfg data patterns w
     = Some (head patterns, recordSearch data patterns w)
  /\ (forall first rest, patterns = first :: rest ->
        getBestPattern cfg data patterns w
        = Some (Some first, recordSearch data patterns w)).
Proof.
  intros H.
  assert (Hbest : getBestPattern cfg data patterns w
                  = Some (head patterns, recordSearch data patterns w)).
  { unfold getBestPattern, searchLoop, bind at 1.
    destruct patterns as [|p rest]; [done|].
    cbn [forEachM head]. unfold bind at 1. unfold bind at 1.
    rewrite patternDistance_transparent by done. cbn [ret snd Distance_ltb].
    by rewrite searchLoop_settled. }
  split; [intros p w0; by apply patternDistance_transparent|].
  split; [done|]. intros first rest ->. exact Hbest.
Qed.

Lemma noOpaquePixel_transparentWindow : noOpaquePixel transparentWindow.
Proof.
  intros k. rewrite isOpaque_nat.
  do 4 (destruct k as [|k]; [reflexivity|]).
  apply bool_decide_eq_false. rewrite lookup_ge_None_2; [done|].
  simpl. lia.
Qed.

Lemma getBestPattern_transparent_window_witness :
  noOpaquePixel transparentWindow
  /\ fst <$> getBestPattern (sampleConfig 2) transparentWindow
               [mkPattern "no such tone" "red" "green" 7 (-3); samplePattern]
               (initialWorld (sampleConfig 2))
     = Some (Some (mkPattern "no such tone" "red" "green" 7 (-3))).
Proof.
  split; [apply noOpaquePixel_transparentWindow|].
  destruct (getBestPattern_transparent_window (sampleConfig 2) transparentWindow
              [mkPattern "no such tone" "red" "green" 7 (-3); samplePattern]
              (initialWorld (sampleConfig 2)) noOpaquePixel_transparentWindow)
    as (_ & -> & _).
  reflexivity.
Defined.

(** ** The distance of a candidate as a function of the window *)

Lemma objGet_elem {V} (o : list (string * V)) k v :
  objGet o k = Some v -> (k, v) ∈ o.
Proof.
  induction o as [|[k' v'] o IH]; [done|]. simpl.
  destruct (String.eqb k k') eqn:E.
  - apply String.eqb_eq in E as ->. intros [= ->]. left.
  - intros H. right. by apply IH.
Qed.

Lemma objGet_is_Some {V} (o : list (string * V)) k :
  k ∈ Object_keys o -> is_Some (objGet o k).
Proof.
  unfold Object_keys. induction o as [|[k' v'] o IH]; simpl.
  - intros H. by apply elem_of_nil in H.
  - intros H. destruct (String.eqb k k') eqn:E; [by eexists|].
    apply String.eqb_neq in E. apply elem_of_cons in H as [->|H]; [done|].
    by apply IH.
Qed.

Lemma squareTones_length cfg name bitmap :
  squareTones cfg = true ->
  objGet (tones cfg) name = Some bitmap ->
  Z.of_nat (length bitmap) = tonePeriod cfg.
Proof.
  unfold squareTones. rewrite forallb_forall. intros H Hget.
  apply objGet_elem, list_elem_of_In, H in Hget.
  apply andb_true_iff in Hget as [Hlen _]. by apply Z.eqb_eq in Hlen.
Qed.

Lemma tileOf_Some cfg p :
  squareTones cfg = true -> cacheRowExists cfg p = true ->
  exists bitmap,
    objGet (tones cfg) (toneType p) = Some bitmap
    /\ tileOf cfg p = Some (tileData cfg bitmap p).
Proof.
  intros Hsq Hrow.
  assert (Hkey : toneType p ∈ Object_keys (tones cfg)).
  { unfold cacheRowExists in Hrow. rewrite !andb_true_iff in Hrow.
    destruct Hrow as [[[[Hk _] _] _] _]. by apply bool_decide_eq_true in Hk. }
  destruct (objGet_is_Some _ _ Hkey) as [bitmap Hget].
  exists bitmap. split; [done|]. unfold tileOf. rewrite Hrow, Hget. simpl.
  rewrite rowsExist_tall; [done| |].
  - rewrite (squareTones_length cfg _ _ Hsq Hget). lia.
  - by apply cacheRowExists_offsetY in Hrow as [? _].
Qed.

Lemma tileDistance_finite data tile :
  Z.of_nat (length data) <= Z.of_nat (length tile) ->
  exists z, tileDistance data tile = Fin z.
Proof.
  intros Hlen. unfold tileDistance, dataIndices.
  generalize (Nat.div (length data + 3) 4). intros n.
  induction n as [|n [z IH]]; [by exists 0|].
  rewrite pixelIndices_S, fold_left_app, IH. cbn [fold_left].
  unfold accumulateStep.
  destruct (isOpaque data (4 * Z.of_nat n)) eqn:Hop; [|by exists z].
  cbn [negb]. unfold isOpaque in Hop. apply bool_decide_eq_true in Hop.
  apply index_Some_lt in Hop.
  assert (Hsq : forall c, 0 <= c < 3 ->
            is_Some (sqDiff data tile (4 * Z.of_nat n + c))).
  { intros c Hc. unfold sqDiff.
    destruct (index_is_Some data (4 * Z.of_nat n + c)) as [a ->]; [lia|].
    destruct (index_is_Some tile (4 * Z.of_nat n + c)) as [b ->]; [lia|].
    by eexists. }
  destruct (Hsq 0) as [a ->]; [lia|].
  destruct (Hsq 1) as [b ->]; [lia|].
  destruct (Hsq 2) as [c ->]; [lia|].
  by eexists.
Qed.

Section Search.

Variable cfg : Config.

Lemma accumulate_pure data p tile :
  tileOf cfg p = Some tile ->
  forall l d w, World_ok cfg w ->
    exists w',
      forEachM l (accumulate cfg data p) d w
      = Some (fold_left (accumulateStep data tile) l d, w')
      /\ World_ok cfg w'.
Proof.
  intros Ht. induction l as [|i l IH]; intros d w Hok; [by exists w|].
  cbn [forEachM fold_left]. unfold bind at 1.
  unfold accumulate at 1, accumulateStep at 2.
  destruct (negb (isOpaque data i)); [by apply IH|].
  unfold bind at 1.
  pose proof (getPatternImageData_tileOf cfg p w Hok) as R. rewrite Ht in R.
  destruct R as (w1 & -> & Hok1 & _). cbn [ret]. by apply IH.
Qed.

Lemma patternDistance_distanceTo data p tile w :
  tileOf cfg p = Some tile -> World_ok cfg w ->
  exists w',
    patternDistance cfg data p w = Some (distanceTo cfg data p, w')
    /\ World_ok cfg w'.
Proof.
  intros Ht Hok. unfold patternDistance, distanceTo. rewrite Ht.
  by apply accumulate_pure.
Qed.

Lemma searchLoop_pure data :
  forall patterns best w,
    World_ok cfg w ->
    Forall (fun p => is_Some (tileOf cfg p)) patterns ->
    exists w',
      forEachM patterns
        (fun pattern best =>
           let* distance := patternDistance cfg data pattern in
           ret (if Distance_ltb distance (snd best)
                then (Some pattern, distance) else best))
        best w
      = Some (fold_left (keepBest cfg data) patterns best, w')
      /\ World_ok cfg w'.
Proof.
  induction patterns as [|p l IH]; intros best w Hok Hall; [by exists w|].
  apply Forall_cons in Hall as [[tile Ht] Hall].
  cbn [forEachM fold_left]. unfold bind at 1. unfold bind at 1.
  destruct (patternDistance_distanceTo data p tile w Ht Hok) as (w1 & -> & Hok1).
  cbn [ret]. fold (keepBest cfg data best p). by apply IH.
Qed.

Lemma keepBest_firstMinimum data :
  forall l pre best d,
    Forall (fun p => exists z, distanceTo cfg data p = Fin z) l ->
    (pre = [] /\ d = Inf
     \/ exists i b z, best = Some b /\ d = Fin z /\ firstMinimum cfg data pre i b z) ->
    (pre ++ l = [] /\ snd (fold_left (keepBest cfg data) l (best, d)) = Inf
     \/ exists i b z,
          fold_left (keepBest cfg data) l (best, d) = (Some b, Fin z)
          /\ firstMinimum cfg data (pre ++ l) i b z).
Proof.
  induction l as [|p l IH]; intros pre best d Hall Hinv.
  { rewrite app_nil_r. destruct Hinv as [[-> ->]|(i & b & z & -> & -> & H)].
    - by left.
    - right. by exists i, b, z. }
  apply Forall_cons in Hall as [[zp Hp] Hall].
  cbn [fold_left].
  assert (Hk : keepBest cfg data (best, d) p
               = if Distance_ltb (Fin zp) d then (Some p, Fin zp) else (best, d))
    by (unfold keepBest; cbn [snd]; by rewrite Hp).
  rewrite Hk. clear Hk.
  replace (pre ++ p :: l) with ((pre ++ [p]) ++ l) by (by rewrite <- app_assoc).
  destruct Hinv as [[-> ->]|(i & b & z & -> & -> & Hb & Hd & Hmin)].
  - cbn [Distance_ltb]. apply IH; [done|]. right.
    exists 0%nat, p, zp. repeat split; try done.
    intros j q Hq. destruct j as [|j]; [|done]. injection Hq as <-.
    exists zp. split; [done|]. lia.
  - cbn [Distance_ltb]. destruct (zp <? z) eqn:Hlt.
    + apply Z.ltb_lt in Hlt. apply IH; [done|]. right.
      exists (length pre), p, zp. repeat split; try done.
      * by rewrite lookup_app_r, Nat.sub_diag by lia.
      * intros j q Hq. destruct (decide (j < length pre)%nat) as [Hj|Hj].
        -- rewrite lookup_app_l in Hq by done.
           destruct (Hmin j q Hq) as (dq & Hdq & Hle & _).
           exists dq. split; [done|]. lia.
        -- rewrite lookup_app_r in Hq by lia.
           destruct (j - length pre)%nat eqn:E; [|done]. injection Hq as <-.
           exists zp. split; [done|]. lia.
    + apply Z.ltb_ge in Hlt. apply IH; [done|]. right.
      exists i, b, z. repeat split; try done.
      * apply lookup_app_l_Some. exact Hb.
      * intros j q Hq. destruct (decide (j < length pre)%nat) as [Hj|Hj].
        -- rewrite lookup_app_l in Hq by done. by apply Hmin.
        -- rewrite lookup_app_r in Hq by lia.
           destruct (j - length pre)%nat eqn:E; [|done]. injection Hq as <-.
           exists zp. split; [done|]. split; [lia|].
           apply lookup_lt_Some in Hb. lia.
Qed.

End Search.

Lemma distanceTo_finite cfg data p :
  squareTones cfg = true -> cacheRowExists cfg p = true ->
  Z.of_nat (length data) <= 4 * tonePeriod cfg * tonePeriod cfg ->
  is_Some (tileOf cfg p) /\ exists z, distanceTo cfg data p = Fin z.
Proof.
  intros Hsq Hrow Hlen.
  destruct (tileOf_Some cfg p Hsq Hrow) as (bitmap & _ & Ht).
  split; [by eexists|]. unfold distanceTo. rewrite Ht.
  apply tileDistance_finite. rewrite length_tileData.
  pose proof (cacheRowExists_offsetY cfg p Hrow).
  rewrite !Nat2Z.inj_mul, !Z2Nat.id by lia. change (Z.of_nat 4) with 4. lia.
Qed.

(** C2. For a non-empty candidate list whose tiles exist and a window no
    longer than a tile, [getBestPattern] returns the candidate at the
    least index [i] among those of minimal accumulated distance: no
    candidate has a smaller distance, every earlier one has a strictly
    larger one, and so a later candidate with the same distance never
    replaces it. The distance of a candidate is the one the search loop
    accumulates for it. *)
Theorem getBestPattern_first_minimum (cfg : Config) (data : list Z)
  (patterns : list Pattern) (w : World) :
  World_ok cfg w ->
  squareTones cfg = true ->
  Forall (fun p => cacheRowExists cfg p = true) patterns ->
  Z.of_nat (length data) <= 4 * tonePeriod cfg * tonePeriod cfg ->
  patterns <> [] ->
  exists (i : nat) (best : Pattern) (d : Z) (w' : World),
    getBestPattern cfg data patterns w = Some (Some best, w')
    /\ patterns !! i = Some best
    /\ distanceTo cfg data best = Fin d
    /\ (forall (j : nat) q, patterns !! j = Some q ->
          exists dq,
            distanceTo cfg data q = Fin dq
            /\ d <= dq
            /\ ((j < i)%nat -> d < dq)
            /\ (dq = d -> (i <= j)%nat)
            /\ forall w0, World_ok cfg w0 ->
                 fst <$> patternDistance cfg data q w0 = Some (Fin dq)).
Proof.
  intros Hok Hsq Hrows Hlen Hne.
  assert (Hfin : Forall (fun p => is_Some (tileOf cfg p)
                                  /\ exists z, distanceTo cfg data p = Fin z)
                        patterns).
  { eapply Forall_impl; [exact Hrows|]. intros p Hp. by apply distanceTo_finite. }
  destruct (searchLoop_pure cfg data patterns (head patterns, Inf)
              (recordSearch data patterns w)) as (w' & Hrun & _).
  { by apply recordSearch_ok. }
  { eapply Forall_impl; [exact Hfin|]. by intros p [? _]. }
  destruct (keepBest_firstMinimum cfg data patterns [] (head patterns) Inf)
    as [[Hnil _]|(i & best & d & Hfold & Hi & Hd & Hmin)].
  { eapply Forall_impl; [exact Hfin|]. by intros p [_ ?]. }
  { by left. }
  { done. }
  exists i, best, d, w'. split; [|split; [done|split; [done|]]].
  - unfold getBestPattern, bind, searchLoop. rewrite Hrun. cbn [ret].
    simpl in Hfold. by rewrite Hfold.
  - intros j q Hq. destruct (Hmin j q Hq) as (dq & Hdq & Hle & Hlt).
    exists dq. split; [done|]. split; [done|]. split; [done|]. split; [lia|].
    intros w0 Hok0.
    assert (Hq' : q ∈ patterns) by (by eapply list_elem_of_lookup_2).
    rewrite Forall_forall in Hfin. destruct (Hfin q Hq') as [[tile Ht] _].
    destruct (patternDistance_distanceTo cfg data q tile w0 Ht Hok0)
      as (w1 & -> & _).
    simpl. by rewrite Hdq.
Qed.

Lemma getBestPattern_first_minimum_witness :
  fst <$> getBestPattern (sampleConfig 2) opaqueWindow [tiedA; tiedB]
            (initialWorld (sampleConfig 2))
  = Some (Some tiedA)
  /\ fst <$> getBestPattern (sampleConfig 2) opaqueWindow [tiedB; tiedA]
               (initialWorld (sampleConfig 2))
     = Some (Some tiedB)
  /\ distanceTo (sampleConfig 2) opaqueWindow tiedA
     = distanceTo (sampleConfig 2) opaqueWindow tiedB
  /\ exists i best d w',
       getBestPattern (sampleConfig 2) opaqueWindow [tiedA; tiedB]
         (initialWorld (sampleConfig 2))
       = Some (Some best, w')
       /\ [tiedA; tiedB] !! i = Some best
       /\ distanceTo (sampleConfig 2) opaqueWindow best = Fin d.
Proof.
  split; [vm_compute; reflexivity|].
  split; [vm_compute; reflexivity|].
  split; [vm_compute; reflexivity|].
  destruct (getBestPattern_first_minimum (sampleConfig 2) opaqueWindow
              [tiedA; tiedB] (initialWorld (sampleConfig 2)))
    as (i & best & d & w' & Hrun & Hi & Hd & _).
  - apply initialWorld_ok.
  - reflexivity.
  - repeat constructor.
  - vm_compute. discriminate.
  - discriminate.
  - exists i, best, d, w'. by repeat split.
Defined.

(** ** The searches of one cell *)

Lemma bind_Some {A B} (m : M A) (k : A -> M B) w b w' :
  bind m k w = Some (b, w') ->
  exists a w1, m w = Some (a, w1) /\ k a w1 = Some (b, w').
Proof.
  unfold bind. destruct (m w) as [[a w1]|]; [|done]. intros H. by exists a, w1.
Qed.

Lemma ret_Some {A} (a : A) w b w' :
  ret a w = Some (b, w') -> b = a /\ w' = w.
Proof. by intros [= -> ->]. Qed.

Lemma liftO_Some {A} (o : option A) w a w' :
  liftO o w = Some (a, w') -> o = Some a /\ w' = w.
Proof. destruct o; simpl; [|done]. by intros [= -> ->]. Qed.






Lemma getBestPattern_nil cfg data w :
  getBestPattern cfg data [] w = Some (None, recordSearch data [] w).
Proof. reflexivity. Qed.

Lemma mapM_const_None {A B} (l : list A) (f : A -> option B) (l' : list B) :
  (forall a, f a = None) -> mapM f l = Some l' -> l = [] /\ l' = [].
Proof.
  intros Hf. destruct l as [|a l]; [by intros [= <-]|].
  simpl. by rewrite Hf.
Qed.

Lemma mapM_total {A B} (l : list A) (g : A -> B) :
  mapM (fun a => Some (g a)) l = Some (map g l).
Proof. induction l as [|a l IH]; [done|]. simpl. by rewrite IH. Qed.

Section Stages.

Variable cfg : Config.
Variables (normalizedData windowData : list Z) (offsetY offsetX : Z).

Lemma selectPattern_stages w p w' :
  selectPattern cfg normalizedData windowData offsetY offsetX w = Some (p, w') ->
  exists light dark b1 b2 b3 b4 b5 backgroundPalette foregroundPalette w1 w2 w3 w4,
    anchor cfg "light" = Some light /\ anchor cfg "dark" = Some dark
    /\ getBestPattern cfg normalizedData (toneCandidates cfg offsetY offsetX light dark) w
       = Some (Some b1, w1)
    /\ getBestPattern cfg windowData
         (backgroundCandidates offsetY offsetX (toneType b1) dark
            (Object_keys (paletteFromLightness cfg))) w1
       = Some (Some b2, w2)
    /\ objGet (paletteFromLightness cfg) (backgroundColor b2)
       = Some backgroundPalette
    /\ getBestPattern cfg windowData
         (backgroundCandidates offsetY offsetX (toneType b1) dark backgroundPalette) w2
       = Some (Some b3, w3)
    /\ getBestPattern cfg windowData
         (foregroundCandidates offsetY offsetX (toneType b1) (backgroundColor b3)
            (Object_keys (paletteFromLightness cfg))) w3
       = Some (Some b4, w4)
    /\ objGet (paletteFromLightness cfg) (foregroundColor b4)
       = Some foregroundPalette
    /\ getBestPattern cfg windowData
         (foregroundCandidates offsetY offsetX (toneType b1) (backgroundColor b3)
            foregroundPalette) w4
       = Some (Some b5, w')
    /\ p = mkPattern (toneType b1) (backgroundColor b3) (foregroundColor b5)
             offsetY offsetX.
Proof.
  unfold selectPattern. intros Hrun.
  apply bind_Some in Hrun as (pats1 & ? & [Hp1 ->]%liftO_Some & Hrun).
  apply bind_Some in Hrun as (r1 & w1 & H1 & Hrun).
  apply bind_Some in Hrun as (tone & ? & [Ht ->]%liftO_Some & Hrun).
  destruct r1 as [b1|]; [|done]. injection Ht as <-.
  destruct (anchor cfg "light") as [light|] eqn:Hlight;
    destruct (anchor cfg "dark") as [dark|] eqn:Hdark.
  2,3,4: apply mapM_const_None in Hp1 as [_ ->]; [|done];
         by rewrite getBestPattern_nil in H1.
  rewrite mapM_total in Hp1. injection Hp1 as <-.
  apply bind_Some in Hrun as (pats2 & ? & [Hp2 ->]%liftO_Some & Hrun).
  rewrite mapM_total in Hp2. injection Hp2 as <-.
  apply bind_Some in Hrun as (r2 & w2 & H2 & Hrun).
  apply bind_Some in Hrun as (tier2 & ? & [Ht2 ->]%liftO_Some & Hrun).
  destruct r2 as [b2|]; [|done]. injection Ht2 as <-.
  apply bind_Some in Hrun as (bgPalette & ? & [Hbg ->]%liftO_Some & Hrun).
  apply bind_Some in Hrun as (pats3 & ? & [Hp3 ->]%liftO_Some & Hrun).
  rewrite mapM_total in Hp3. injection Hp3 as <-.
  apply bind_Some in Hrun as (r3 & w3 & H3 & Hrun).
  apply bind_Some in Hrun as (bg & ? & [Ht3 ->]%liftO_Some & Hrun).
  destruct r3 as [b3|]; [|done]. injection Ht3 as <-.
  apply bind_Some in Hrun as (r4 & w4 & H4 & Hrun).
  apply bind_Some in Hrun as (tier4 & ? & [Ht4 ->]%liftO_Some & Hrun).
  destruct r4 as [b4|]; [|done]. injection Ht4 as <-.
  apply bind_Some in Hrun as (fgPalette & ? & [Hfg ->]%liftO_Some & Hrun).
  apply bind_Some in Hrun as (r5 & w5 & H5 & Hrun).
  apply bind_Some in Hrun as (fg & ? & [Ht5 ->]%liftO_Some & Hrun).
  destruct r5 as [b5|]; [|done]. injection Ht5 as <-.
  injection Hrun as <- <-.
  exists light, dark, b1, b2, b3, b4, b5, bgPalette, fgPalette, w1, w2, w3, w4.
  by repeat split.
Qed.

End Stages.




(** ** Flat windows *)

Lemma sub_self_zero_or_nan (m : JS.num) :
  JS.sub m m = S754_zero false \/ JS.sub m m = S754_nan.
Proof.
  destruct m as [s|s| |s mx ex]; simpl.
  - left. by destruct s.
  - right. by destruct s.
  - by right.
  - left. unfold JS.sub, SFsub. by rewrite Z.sub_diag.
Qed.

Lemma div_by_sub_self (n m : JS.num) :
  JS.toUint8Clamp (JS.div n (JS.sub m m)) = 0
  \/ JS.toUint8Clamp (JS.div n (JS.sub m m)) = 255.
Proof.
  destruct (sub_self_zero_or_nan m) as [-> | ->].
  - destruct n as [s|s| |s mx ex]; simpl; try (by left); destruct s; auto.
  - left. by destruct n.
Qed.

(** After the rescaling loop has visited the pixels below [n], every
    color byte of an opaque pixel below [n] is a clamped quotient by
    [hi - lo]. *)
Lemma rescale_values lo hi data nd0 n :
  framed data nd0 ->
  forall k c : nat, (k < n)%nat -> (c < 3)%nat ->
    isOpaque data (4 * Z.of_nat k) = true ->
    exists v,
      fold_left (rescaleStep lo hi) (pixelIndices n) nd0 !! (4 * k + c)%nat
      = Some (JS.toUint8Clamp (JS.div v (JS.sub hi lo))).
Proof.
  intros H0. induction n as [|n IH]; intros k c Hk Hc Hop; [lia|].
  rewrite pixelIndices_S, fold_left_app. cbn [fold_left].
  pose proof (rescale_prefix lo hi data nd0 n H0) as Hfr.
  set (nd := fold_left (rescaleStep lo hi) (pixelIndices n) nd0) in *.
  unfold rescaleStep. rewrite (framed_isOpaque data nd n Hfr).
  destruct (decide (k = n)) as [->|Hne].
  - rewrite Hop. cbn [negb]. eexists. apply lookup_store3_eq; [lia|].
    rewrite <- (framed_isOpaque data nd n Hfr), isOpaque_nat in Hop.
    apply bool_decide_eq_true, lookup_lt_Some in Hop. lia.
  - destruct (IH k c) as [v Hv]; [lia|done|done|].
    exists v. destruct (isOpaque data (4 * Z.of_nat n)); [|done].
    cbn [negb]. rewrite lookup_store3_ne by lia. done.
Qed.

Lemma opaque_pixel_visited data (k : nat) :
  isOpaque data (4 * Z.of_nat k) = true ->
  (k < Nat.div (length data + 3) 4)%nat.
Proof.
  rewrite isOpaque_nat. intros H.
  apply bool_decide_eq_true, lookup_lt_Some in H.
  apply (Nat.div_le_lower_bound (length data + 3) 4 (S k)); lia.
Qed.

Lemma normalize_flat data :
  JS.Math_max (snd (grayscale data)) = JS.Math_min (snd (grayscale data)) ->
  forall k c : nat, (c < 3)%nat ->
    isOpaque data (4 * Z.of_nat k) = true ->
    normalize data !! (4 * k + c)%nat = Some 0
    \/ normalize data !! (4 * k + c)%nat = Some 255.
Proof.
  intros Hflat k c Hc Hop. unfold normalize.
  pose proof (grayscale_prefix data (Nat.div (length data + 3) 4)) as (Hfr & _ & _).
  fold (dataIndices (length data)) in Hfr. fold (grayscale data) in Hfr.
  destruct (grayscale data) as [nd ls]. simpl in Hfr, Hflat.
  destruct Hfr as (Hlen & Hfr').
  destruct (rescale_values (JS.Math_min ls) (JS.Math_max ls) data nd
              (Nat.div (length nd + 3) 4) (conj Hlen Hfr') k c) as [v Hv].
  - rewrite Hlen. by apply opaque_pixel_visited.
  - done.
  - done.
  - unfold dataIndices. rewrite Hv, Hflat.
    destruct (div_by_sub_self v (JS.Math_min ls)) as [-> | ->]; auto.
Qed.

(** ** The cell callback does not throw on a well-formed configuration *)

Lemma objSet_keys {V} (o : list (string * V)) k v k' :
  k' ∈ Object_keys (objSet o k v) <-> k' = k \/ k' ∈ Object_keys o.
Proof.
  unfold Object_keys. induction o as [|[k0 v0] o IH]; simpl.
  - rewrite list_elem_of_singleton. split; [auto|]. intros [?|H]; [done|].
    by apply elem_of_nil in H.
  - destruct (String.eqb k k0) eqn:E; simpl.
    + apply String.eqb_eq in E as ->. rewrite !elem_of_cons. tauto.
    + rewrite !elem_of_cons, IH. tauto.
Qed.

Lemma objGet_objSet {V} (o : list (string * V)) k v k' v' :
  objGet (objSet o k v) k' = Some v' -> (k' = k /\ v' = v) \/ objGet o k' = Some v'.
Proof.
  induction o as [|[k0 v0] o IH]; simpl.
  - destruct (String.eqb k' k) eqn:E; [|done].
    apply String.eqb_eq in E. intros [= <-]. by left.
  - destruct (String.eqb k k0) eqn:E; simpl.
    + apply String.eqb_eq in E as ->.
      destruct (String.eqb k' k0) eqn:E'; [|by right].
      apply String.eqb_eq in E'. intros [= <-]. by left.
    + destruct (String.eqb k' k0); [by right | apply IH].
Qed.

Lemma fromEntries_acc {V} (l : list (string * V)) :
  forall acc,
    let o := fold_left (fun o kv => objSet o (fst kv) (snd kv)) l acc in
    (forall k, k ∈ Object_keys o -> k ∈ map fst l \/ k ∈ Object_keys acc)
    /\ (forall k v, objGet o k = Some v -> (k, v) ∈ l \/ objGet acc k = Some v)
    /\ (forall k, k ∈ Object_keys acc -> k ∈ Object_keys o)
    /\ (forall k, k ∈ map fst l -> k ∈ Object_keys o).
Proof.
  induction l as [|[k0 v0] l IH]; intros acc; cbv zeta.
  - simpl. repeat split; auto. intros k H. by apply elem_of_nil in H.
  - cbn [fold_left fst snd map].
    destruct (IH (objSet acc k0 v0)) as (H1 & H2 & H3 & H4). cbv zeta in *.
    repeat split.
    + intros k Hk. destruct (H1 k Hk) as [?|Hin]; [left; by right|].
      apply objSet_keys in Hin as [->|?]; [left; by left | by right].
    + intros k v Hg. destruct (H2 k v Hg) as [?|Hin]; [left; by right|].
      apply objGet_objSet in Hin as [[-> ->]|?]; [left; by left | by right].
    + intros k Hk. apply H3, objSet_keys. by right.
    + intros k Hk. apply elem_of_cons in Hk as [->|Hk]; [|by apply H4].
      apply H3, objSet_keys. by left.
Qed.

Lemma fromEntries_keys {V} (l : list (string * V)) k :
  k ∈ Object_keys (Object_fromEntries l) <-> k ∈ map fst l.
Proof.
  destruct (fromEntries_acc l []) as (H1 & _ & _ & H4). cbv zeta in *.
  split; [|apply H4]. intros Hk. destruct (H1 k Hk) as [?|Hn]; [done|].
  by apply elem_of_nil in Hn.
Qed.

Lemma fromEntries_get {V} (l : list (string * V)) k v :
  objGet (Object_fromEntries l) k = Some v -> (k, v) ∈ l.
Proof.
  destruct (fromEntries_acc l []) as (_ & H2 & _). cbv zeta in *.
  intros Hg. by destruct (H2 k v Hg).
Qed.

Lemma elem_of_concat {A} (ls : list (list A)) (x : A) :
  x ∈ concat ls <-> exists l, x ∈ l /\ l ∈ ls.
Proof.
  induction ls as [|l0 ls IH]; simpl.
  - split; [intros H; by apply elem_of_nil in H|].
    intros (l & _ & H). by apply elem_of_nil in H.
  - rewrite elem_of_app, IH. split.
    + intros [H|(l & Hx & Hl)]; [exists l0; split; [done|left] |].
      exists l. split; [done | by right].
    + intros (l & Hx & Hl). apply elem_of_cons in Hl as [->|Hl]; [by left|].
      right. by exists l.
Qed.

Section Totality.

Variable cfg : Config.
Hypothesis Hwf : wellFormed cfg = true.

Lemma wellFormed_parts :
  squareTones cfg = true
  /\ tones cfg <> []
  /\ is_Some (objGet (palettes cfg) "light")
  /\ is_Some (objGet (palettes cfg) "dark")
  /\ forall palette, palette ∈ Object_values (palettes cfg) -> palette <> [].
Proof.
  unfold wellFormed in Hwf. rewrite !andb_true_iff in Hwf.
  destruct Hwf as [[[[Hsq Ht] Hl] Hd] Hp].
  apply negb_true_iff, bool_decide_eq_false in Ht.
  apply bool_decide_eq_true in Hl, Hd.
  repeat split; try done.
  intros palette Hin. rewrite forallb_forall in Hp.
  apply list_elem_of_In, Hp, negb_true_iff, bool_decide_eq_false in Hin. done.
Qed.

Lemma first_in_colors palette :
  palette ∈ Object_values (palettes cfg) -> first palette ∈ colors cfg.
Proof.
  intros Hin. destruct wellFormed_parts as (_ & _ & _ & _ & Hne).
  unfold colors. apply elem_of_concat. exists palette. split; [|done].
  destruct palette as [|c palette]; [by apply Hne in Hin|]. left.
Qed.

Lemma palette_in_colors palette c :
  palette ∈ Object_values (palettes cfg) -> c ∈ palette -> c ∈ colors cfg.
Proof.
  intros Hin Hc. unfold colors. apply elem_of_concat. by exists palette.
Qed.

Lemma objGet_value {V} (o : list (string * V)) k v :
  objGet o k = Some v -> v ∈ Object_values o.
Proof.
  intros H. apply objGet_elem in H. unfold Object_values.
  apply list_elem_of_fmap. by exists (k, v).
Qed.

Lemma anchor_in_colors name :
  is_Some (objGet (palettes cfg) name) ->
  exists c, anchor cfg name = Some c /\ c ∈ colors cfg.
Proof.
  intros [palette Hp]. exists (first palette). unfold anchor. rewrite Hp.
  split; [done|]. apply first_in_colors. by eapply objGet_value.
Qed.

Lemma tier_in_colors k :
  k ∈ Object_keys (paletteFromLightness cfg) -> k ∈ colors cfg.
Proof.
  unfold paletteFromLightness. rewrite fromEntries_keys, map_map. simpl.
  intros Hk. apply list_elem_of_fmap in Hk as (palette & -> & Hin).
  by apply first_in_colors.
Qed.

Lemma tier_palette k palette :
  objGet (paletteFromLightness cfg) k = Some palette ->
  palette ∈ Object_values (palettes cfg) /\ palette <> [].
Proof.
  unfold paletteFromLightness. intros H. apply fromEntries_get in H.
  apply list_elem_of_fmap in H as (palette' & [= _ <-] & Hin).
  split; [done|]. destruct wellFormed_parts as (_ & _ & _ & _ & Hne). by apply Hne.
Qed.

Lemma tiers_nonempty : Object_keys (paletteFromLightness cfg) <> [].
Proof.
  destruct wellFormed_parts as (_ & _ & [palette Hl] & _).
  assert (Hin : first palette ∈ Object_keys (paletteFromLightness cfg)).
  { unfold paletteFromLightness. rewrite fromEntries_keys, map_map. simpl.
    apply list_elem_of_fmap. exists palette. split; [done|]. by eapply objGet_value. }
  intros E. rewrite E in Hin. by apply elem_of_nil in Hin.
Qed.

Lemma cacheRowExists_intro t bg fg oy ox :
  t ∈ Object_keys (tones cfg) -> bg ∈ colors cfg -> fg ∈ colors cfg ->
  0 <= oy < tonePeriod cfg ->
  cacheRowExists cfg (mkPattern t bg fg oy ox) = true.
Proof.
  intros Ht Hbg Hfg Hoy. unfold cacheRowExists. simpl.
  rewrite !bool_decide_eq_true_2 by done. simpl.
  apply andb_true_iff. rewrite Z.leb_le, Z.ltb_lt. lia.
Qed.

Lemma cacheRowExists_toneType p :
  cacheRowExists cfg p = true -> toneType p ∈ Object_keys (tones cfg).
Proof.
  unfold cacheRowExists. rewrite !andb_true_iff.
  intros [[[[Hk _] _] _] _]. by apply bool_decide_eq_true in Hk.
Qed.

Lemma getBestPattern_total data patterns w :
  World_ok cfg w ->
  Forall (fun p => cacheRowExists cfg p = true) patterns ->
  Z.of_nat (length data) <= 4 * tonePeriod cfg * tonePeriod cfg ->
  patterns <> [] ->
  exists best w',
    getBestPattern cfg data patterns w = Some (Some best, w')
    /\ best ∈ patterns /\ World_ok cfg w'.
Proof.
  intros Hok Hrows Hlen Hne.
  destruct wellFormed_parts as (Hsq & _).
  assert (Hfin : Forall (fun p => is_Some (tileOf cfg p)
                                  /\ exists z, distanceTo cfg data p = Fin z)
                        patterns).
  { eapply Forall_impl; [exact Hrows|]. intros p Hp. by apply distanceTo_finite. }
  destruct (searchLoop_pure cfg data patterns (head patterns, Inf)
              (recordSearch data patterns w)) as (w' & Hloop & _).
  { by apply recordSearch_ok. }
  { eapply Forall_impl; [exact Hfin|]. by intros p [? _]. }
  destruct (keepBest_firstMinimum cfg data patterns [] (head patterns) Inf)
    as [[Hnil _]|(i & best & d & Hfold & Hi & _)].
  { eapply Forall_impl; [exact Hfin|]. by intros p [_ ?]. }
  { by left. }
  { done. }
  assert (Hrun : getBestPattern cfg data patterns w = Some (Some best, w')).
  { unfold getBestPattern, bind, searchLoop. rewrite Hloop. cbn [ret].
    simpl in Hfold. by rewrite Hfold. }
  exists best, w'. split; [done|]. split; [by eapply list_elem_of_lookup_2|].
  destruct (respectful_getBestPattern cfg data patterns) as (_ & Hp & _). eauto.
Qed.

End Totality.

Lemma bind_run {A B} (m : M A) (k : A -> M B) w a w1 :
  m w = Some (a, w1) -> bind m k w = k a w1.
Proof. intros H. unfold bind. by rewrite H. Qed.

Lemma bind_liftO_Some {A B} (a : A) (k : A -> M B) w :
  bind (liftO (Some a)) k w = k a w.
Proof. reflexivity. Qed.

Lemma Forall_candidates (P : Pattern -> Prop) (f : string -> Pattern)
  (choices : list string) :
  (forall c, c ∈ choices -> P (f c)) -> Forall P (map f choices).
Proof.
  intros H. apply Forall_forall. intros p Hp.
  apply list_elem_of_fmap in Hp as (c & -> & Hc). by apply H.
Qed.

Lemma map_nonempty {A B} (f : A -> B) (l : list A) : l <> [] -> map f l <> [].
Proof. by destruct l. Qed.

Section Quantizer.

Variable cfg : Config.
Hypothesis Hwf : wellFormed cfg = true.

Lemma selectPattern_total normalizedData windowData offsetY offsetX w :
  World_ok cfg w ->
  0 <= offsetY < tonePeriod cfg ->
  Z.of_nat (length normalizedData) <= 4 * tonePeriod cfg * tonePeriod cfg ->
  Z.of_nat (length windowData) <= 4 * tonePeriod cfg * tonePeriod cfg ->
  exists p w',
    selectPattern cfg normalizedData windowData offsetY offsetX w = Some (p, w')
    /\ World_ok cfg w'
    /\ cacheRowExists cfg p = true.
Proof.
  intros Hok Hoy Hn Hw.
  destruct (wellFormed_parts cfg Hwf) as (Hsq & Htones & Hlight & Hdark & Hpal).
  destruct (anchor_in_colors cfg Hwf "light" Hlight) as (light & Hl & Hlc).
  destruct (anchor_in_colors cfg Hwf "dark" Hdark) as (dark & Hd & Hdc).
  unfold selectPattern. rewrite Hl, Hd.
  rewrite mapM_total, bind_liftO_Some. cbv beta.
  (* the tone *)
  destruct (getBestPattern_total cfg Hwf normalizedData
              (map (fun t => mkPattern t light dark offsetY offsetX)
                   (Object_keys (tones cfg))) w Hok)
    as (b1 & w1 & H1 & Hin1 & Hok1).
  { apply Forall_candidates. intros t Ht. by apply cacheRowExists_intro. }
  { done. }
  { apply map_nonempty. unfold Object_keys. apply map_nonempty. done. }
  rewrite (bind_run _ _ _ _ _ H1). cbv beta.
  change (toneType <$> Some b1) with (Some (toneType b1)).
  rewrite bind_liftO_Some. cbv beta.
  assert (Ht1 : toneType b1 ∈ Object_keys (tones cfg)).
  { apply list_elem_of_fmap in Hin1 as (t & -> & Ht). done. }
  (* the background tier *)
  rewrite mapM_total, bind_liftO_Some. cbv beta.
  destruct (getBestPattern_total cfg Hwf windowData
              (map (fun c => mkPattern (toneType b1) c dark offsetY offsetX)
                   (Object_keys (paletteFromLightness cfg))) w1 Hok1)
    as (b2 & w2 & H2 & Hin2 & Hok2).
  { apply Forall_candidates. intros c Hc.
    apply cacheRowExists_intro; try done. by apply tier_in_colors. }
  { done. }
  { apply map_nonempty, tiers_nonempty. done. }
  rewrite (bind_run _ _ _ _ _ H2). cbv beta.
  change (backgroundColor <$> Some b2) with (Some (backgroundColor b2)).
  rewrite bind_liftO_Some. cbv beta.
  assert (Hk2 : backgroundColor b2 ∈ Object_keys (paletteFromLightness cfg)).
  { apply list_elem_of_fmap in Hin2 as (c & -> & Hc). done. }
  destruct (objGet_is_Some _ _ Hk2) as [bgPalette Hbg].
  destruct (tier_palette cfg Hwf _ _ Hbg) as [Hbgin Hbgne].
  rewrite Hbg, bind_liftO_Some. cbv beta.
  (* the background color *)
  rewrite mapM_total, bind_liftO_Some. cbv beta.
  destruct (getBestPattern_total cfg Hwf windowData
              (map (fun c => mkPattern (toneType b1) c dark offsetY offsetX)
                   bgPalette) w2 Hok2)
    as (b3 & w3 & H3 & Hin3 & Hok3).
  { apply Forall_candidates. intros c Hc.
    apply cacheRowExists_intro; try done. by eapply palette_in_colors. }
  { done. }
  { by apply map_nonempty. }
  rewrite (bind_run _ _ _ _ _ H3). cbv beta.
  change (backgroundColor <$> Some b3) with (Some (backgroundColor b3)).
  rewrite bind_liftO_Some. cbv beta.
  assert (Hc3 : backgroundColor b3 ∈ colors cfg).
  { apply list_elem_of_fmap in Hin3 as (c & -> & Hc). by eapply palette_in_colors. }
  (* the foreground tier *)
  destruct (getBestPattern_total cfg Hwf windowData
              (map (fun c => mkPattern (toneType b1) (backgroundColor b3) c
                               offsetY offsetX)
                   (Object_keys (paletteFromLightness cfg))) w3 Hok3)
    as (b4 & w4 & H4 & Hin4 & Hok4).
  { apply Forall_candidates. intros c Hc.
    apply cacheRowExists_intro; try done. by apply tier_in_colors. }
  { done. }
  { apply map_nonempty, tiers_nonempty. done. }
  rewrite (bind_run _ _ _ _ _ H4). cbv beta.
  change (foregroundColor <$> Some b4) with (Some (foregroundColor b4)).
  rewrite bind_liftO_Some. cbv beta.
  assert (Hk4 : foregroundColor b4 ∈ Object_keys (paletteFromLightness cfg)).
  { apply list_elem_of_fmap in Hin4 as (c & -> & Hc). done. }
  destruct (objGet_is_Some _ _ Hk4) as [fgPalette Hfg].
  destruct (tier_palette cfg Hwf _ _ Hfg) as [Hfgin Hfgne].
  rewrite Hfg, bind_liftO_Some. cbv beta.
  (* the foreground color *)
  destruct (getBestPattern_total cfg Hwf windowData
              (map (fun c => mkPattern (toneType b1) (backgroundColor b3) c
                               offsetY offsetX)
                   fgPalette) w4 Hok4)
    as (b5 & w5 & H5 & Hin5 & Hok5).
  { apply Forall_candidates. intros c Hc.
    apply cacheRowExists_intro; try done. by eapply palette_in_colors. }
  { done. }
  { by apply map_nonempty. }
  rewrite (bind_run _ _ _ _ _ H5). cbv beta.
  change (foregroundColor <$> Some b5) with (Some (foregroundColor b5)).
  rewrite bind_liftO_Some. cbv beta.
  eexists _, w5. split; [reflexivity|]. split; [done|].
  apply cacheRowExists_intro; try done.
  apply list_elem_of_fmap in Hin5 as (c & -> & Hc). by eapply palette_in_colors.
Qed.

End Quantizer.

(** ** Further properties of the pattern search and the cache *)

Lemma forEachM_invariant {A S} (I : S -> Prop) (body : A -> S -> M S)
  (l : list A) :
  (forall a s w s' w', a ∈ l -> I s -> body a s w = Some (s', w') -> I s') ->
  forall s w r w', I s -> forEachM l body s w = Some (r, w') -> I r.
Proof.
  induction l as [|a l IH]; intros Hstep s w r w' Hs Hrun.
  - by injection Hrun as <- _.
  - simpl in Hrun. apply bind_Some in Hrun as (s1 & w1 & H1 & H2).
    eapply IH; [|by eapply (Hstep a s w s1 w1); [left|..]|exact H2].
    intros b s0 w0 s0' w0' Hb. apply Hstep. by right.
Qed.

Lemma getBestPattern_member cfg data patterns w r w' :
  getBestPattern cfg data patterns w = Some (r, w') ->
  match r with
  | Some best => best ∈ patterns
  | None => patterns = []
  end.
Proof.
  unfold getBestPattern. intros Hrun.
  apply bind_Some in Hrun as (best & w1 & Hloop & [-> _]%ret_Some).
  unfold searchLoop in Hloop.
  assert (Hinv : match fst best with
                 | Some b => b ∈ patterns
                 | None => patterns = []
                 end).
  { eapply (forEachM_invariant
              (fun st : option Pattern * Distance =>
                 match fst st with
                 | Some b => b ∈ patterns
                 | None => patterns = []
                 end)); [|
      |exact Hloop].
    - intros p st w0 st' w0' Hp Hst Hbody.
      apply bind_Some in Hbody as (d & w2 & _ & [-> _]%ret_Some).
      by destruct (Distance_ltb d (snd st)).
    - simpl. destruct patterns as [|p l]; [done | left]. }
  exact Hinv.
Qed.

(** X1. Whenever [getBestPattern] returns, its result is one of the
    candidates it was given; it returns [undefined] exactly when the
    candidate list is empty. *)
Theorem getBestPattern_returns_candidate (cfg : Config) (data : list Z)
  (patterns : list Pattern) (w : World) (r : option Pattern) (w' : World) :
  getBestPattern cfg data patterns w = Some (r, w') ->
  match r with
  | Some best => best ∈ patterns
  | None => patterns = []
  end.
Proof. apply getBestPattern_member. Qed.

Lemma getBestPattern_returns_candidate_witness :
  match fst <$> getBestPattern (sampleConfig 2) opaqueWindow [tiedA; tiedB]
                 (initialWorld (sampleConfig 2)) with
  | Some (Some best) => best ∈ [tiedA; tiedB]
  | _ => False
  end.
Proof.
  assert (Hs : match getBestPattern (sampleConfig 2) opaqueWindow [tiedA; tiedB]
                       (initialWorld (sampleConfig 2))
               with Some (Some _, _) => true | _ => false end = true)
    by (vm_compute; reflexivity).
  destruct (getBestPattern (sampleConfig 2) opaqueWindow [tiedA; tiedB]
              (initialWorld (sampleConfig 2))) as [[[b|] w']|] eqn:E;
    try discriminate Hs.
  exact (getBestPattern_returns_candidate _ _ _ _ _ _ E).
Defined.

(** X2. On a state that satisfies the invariant and with square tone
    bitmaps, and for a pattern none of whose three names is found
    through the prototype of a plain object (each is a key of the
    object it indexes, or is not a property name of [Object.prototype]),
    [getPatternImageData] throws exactly for the keys outside the shape
    of the cache object: an unknown tone, a color outside the palettes,
    or an [offsetY] outside [0, tonePeriod). The value of [offsetX]
    never makes it throw. *)
Theorem getPatternImageData_throws_iff (cfg : Config) (p : Pattern) (w : World) :
  World_ok cfg w ->
  squareTones cfg = true ->
  plainLookup (Object_keys (tones cfg)) (toneType p) = true ->
  plainLookup (colors cfg) (backgroundColor p) = true ->
  plainLookup (colors cfg) (foregroundColor p) = true ->
  (getPatternImageData cfg p w = None
   <-> (toneType p ∉ Object_keys (tones cfg)
        \/ backgroundColor p ∉ colors cfg
        \/ foregroundColor p ∉ colors cfg
        \/ ~ (0 <= offsetY p < tonePeriod cfg))).
Proof.
  intros Hok Hsq _ _ _.
  assert (Hshape : cacheRowExists cfg p = true
                   <-> (toneType p ∈ Object_keys (tones cfg)
                        /\ backgroundColor p ∈ colors cfg
                        /\ foregroundColor p ∈ colors cfg
                        /\ 0 <= offsetY p < tonePeriod cfg)).
  { unfold cacheRowExists.
    rewrite !andb_true_iff, !bool_decide_eq_true, Z.leb_le, Z.ltb_lt. tauto. }
  pose proof (getPatternImageData_tileOf cfg p w Hok) as R.
  destruct (cacheRowExists cfg p) eqn:Hrow.
  - destruct (tileOf_Some cfg p Hsq Hrow) as (bitmap & _ & Ht). rewrite Ht in R.
    destruct R as (w' & -> & _). split; [done|].
    destruct (proj1 Hshape eq_refl) as (H1 & H2 & H3 & H4).
    intros [?|[?|[?|?]]]; done.
  - assert (Hnone : getPatternImageData cfg p w = None).
    { unfold getPatternImageData. by rewrite Hrow. }
    split; [|done]. intros _.
    destruct (decide (toneType p ∈ Object_keys (tones cfg))) as [H1|]; [|by left].
    destruct (decide (backgroundColor p ∈ colors cfg)) as [H2|]; [|right; by left].
    destruct (decide (foregroundColor p ∈ colors cfg)) as [H3|];
      [|right; right; by left].
    right; right; right. intros H4.
    assert (false = true) by (by apply Hshape).
    done.
Qed.

Lemma getPatternImageData_throws_iff_witness :
  getPatternImageData (sampleConfig 2)
    (mkPattern "dot" "hsl(0, 0%, 100%)" "hsl(0, 0%, 0%)" 2 0)
    (initialWorld (sampleConfig 2)) = None
  /\ fst <$> getPatternImageData (sampleConfig 2)
               (mkPattern "dot" "hsl(0, 0%, 100%)" "hsl(0, 0%, 0%)" 1 5)
               (initialWorld (sampleConfig 2))
     = Some [255; 255; 255; 255; 255; 255; 255; 255;
             255; 255; 255; 255; 0; 0; 0; 255].
Proof.
  split; [|vm_compute; reflexivity].
  apply (getPatternImageData_throws_iff (sampleConfig 2)
           (mkPattern "dot" "hsl(0, 0%, 100%)" "hsl(0, 0%, 0%)" 2 0)
           (initialWorld (sampleConfig 2)));
    [apply initialWorld_ok | reflexivity | reflexivity | reflexivity
    | reflexivity |].
  right; right; right. simpl. lia.
Defined.

Lemma paletteFromLightness_get cfg tier palette :
  objGet (paletteFromLightness cfg) tier = Some palette ->
  palette ∈ Object_values (palettes cfg) /\ first palette = tier.
Proof.
  unfold paletteFromLightness. intros H.
  apply fromEntries_get in H.
  apply list_elem_of_fmap in H as (palette' & [= -> <-] & Hin). done.
Qed.

(** X3. The tier table built before the scan: looking up a tier color
    yields a palette of [palettes] that starts with this color, and the
    tier keys are exactly the first colors of the palettes. When two
    palettes start with the same color, the tier holds one of them. *)
Theorem paletteFromLightness_lookup (cfg : Config) :
  (forall tier palette,
     objGet (paletteFromLightness cfg) tier = Some palette ->
     palette ∈ Object_values (palettes cfg) /\ first palette = tier)
  /\ (forall tier,
        tier ∈ Object_keys (paletteFromLightness cfg)
        <-> exists palette,
              palette ∈ Object_values (palettes cfg) /\ first palette = tier)
  /\ (forall tier,
        tier ∈ Object_keys (paletteFromLightness cfg) ->
        is_Some (objGet (paletteFromLightness cfg) tier)).
Proof.
  split; [|split].
  - apply paletteFromLightness_get.
  - intros tier. unfold paletteFromLightness.
    rewrite fromEntries_keys, map_map. simpl. rewrite list_elem_of_fmap.
    split; intros (palette & H1 & H2); exists palette; done.
  - intros tier. apply objGet_is_Some.
Qed.

(** ** A closed form of window normalization *)

Lemma grayscale_values data n :
  forall k c : nat, (k < n)%nat -> (c < 3)%nat ->
    isOpaque data (4 * Z.of_nat k) = true ->
    fst (fold_left grayscaleStep (pixelIndices n) (data, [])) !! (4 * k + c)%nat
    = Some (JS.toUint8Clamp (lightnessAt data (4 * Z.of_nat k))).
Proof.
  induction n as [|n IH]; intros k c Hk Hc Hop; [lia|].
  pose proof (grayscale_prefix data n) as (Hfr & Hun & _). cbv zeta in *.
  rewrite pixelIndices_S, fold_left_app.
  destruct (fold_left grayscaleStep (pixelIndices n) (data, [])) as [nd ls] eqn:E.
  simpl in Hfr, Hun, IH. cbn [fold_left grayscaleStep].
  rewrite (framed_isOpaque data nd n Hfr).
  destruct (decide (k = n)) as [->|Hne].
  - rewrite Hop. cbn [negb fst].
    rewrite (lightnessAt_untouchedFrom data nd n Hun).
    apply lookup_store3_eq; [lia|].
    rewrite <- (framed_isOpaque data nd n Hfr), isOpaque_nat in Hop.
    apply bool_decide_eq_true, lookup_lt_Some in Hop. lia.
  - destruct (isOpaque data (4 * Z.of_nat n)); cbn [negb fst].
    + rewrite lookup_store3_ne by lia. apply IH; (lia || done).
    + apply IH; (lia || done).
Qed.

Lemma rescale_untouched lo hi gd n :
  untouchedFrom gd (fold_left (rescaleStep lo hi) (pixelIndices n) gd) n.
Proof.
  induction n as [|n IH]; [by intros k c _ _|].
  rewrite pixelIndices_S, fold_left_app. cbn [fold_left].
  unfold rescaleStep at 1.
  destruct (negb _).
  - intros k c Hc Hk. apply IH; lia.
  - by apply untouchedFrom_store3.
Qed.

Lemma rescale_exact lo hi data gd n :
  framed data gd ->
  forall k c : nat, (k < n)%nat -> (c < 3)%nat ->
    isOpaque data (4 * Z.of_nat k) = true ->
    fold_left (rescaleStep lo hi) (pixelIndices n) gd !! (4 * k + c)%nat
    = Some (JS.toUint8Clamp
              (JS.div (JS.mul (JS.sub (JS.read gd (4 * Z.of_nat k + 0)) lo)
                              (JS.ofZ 255))
                      (JS.sub hi lo))).
Proof.
  intros H0. induction n as [|n IH]; intros k c Hk Hc Hop; [lia|].
  rewrite pixelIndices_S, fold_left_app. cbn [fold_left].
  pose proof (rescale_prefix lo hi data gd n H0) as Hfr.
  pose proof (rescale_untouched lo hi gd n) as Hun.
  set (nd := fold_left (rescaleStep lo hi) (pixelIndices n) gd) in *.
  unfold rescaleStep. rewrite (framed_isOpaque data nd n Hfr).
  destruct (decide (k = n)) as [->|Hne].
  - rewrite Hop. cbn [negb].
    rewrite (read_untouchedFrom gd nd n 0 Hun) by lia.
    apply lookup_store3_eq; [lia|].
    rewrite <- (framed_isOpaque data nd n Hfr), isOpaque_nat in Hop.
    apply bool_decide_eq_true, lookup_lt_Some in Hop. lia.
  - destruct (isOpaque data (4 * Z.of_nat n)); cbn [negb].
    + rewrite lookup_store3_ne by lia. apply IH; (lia || done).
    + apply IH; (lia || done).
Qed.

Lemma normalize_value data (k c : nat) :
  (c < 3)%nat ->
  isOpaque data (4 * Z.of_nat k) = true ->
  normalize data !! (4 * k + c)%nat
  = Some (JS.toUint8Clamp (rescaled data (4 * Z.of_nat k))).
Proof.
  intros Hc Hop. unfold rescaled.
  pose proof (grayscale_prefix data (Nat.div (length data + 3) 4)) as (Hfr & _ & _).
  pose proof (grayscale_values data (Nat.div (length data + 3) 4)) as Hgv.
  fold (dataIndices (length data)) in Hfr, Hgv.
  fold (grayscale data) in Hfr, Hgv.
  assert (Hk : (k < Nat.div (length data + 3) 4)%nat)
    by (by apply opaque_pixel_visited).
  unfold normalize.
  destruct (grayscale data) as [gd ls]. cbn [fst snd] in *. cbv beta iota.
  unfold dataIndices.
  rewrite (rescale_exact (JS.Math_min ls) (JS.Math_max ls) data gd
             (Nat.div (length gd + 3) 4) Hfr k c);
    [|destruct Hfr as (-> & _); done|done|done].
  do 4 f_equal. unfold JS.read.
  replace (4 * Z.of_nat k + 0) with (Z.of_nat (4 * k + 0)) by lia.
  rewrite index_nat. rewrite (Hgv k 0%nat Hk); [done | lia | done].
Qed.

(** X4. Normalization in closed form. With [lo] and [hi] the least and
    greatest lightness among the opaque pixels of the window, each of
    the three color bytes of an opaque pixel of the normalized window is
    [clamp (((clamp l) - lo) * 255 / (hi - lo))], where [l] is the
    lightness of that pixel in the window and [clamp] the conversion of
    a [Uint8ClampedArray] store. In particular the pixel is gray, and
    the lightness is rounded to a byte before it is rescaled. *)
Theorem normalize_closed_form (data : list Z) (k c : nat) :
  (c < 3)%nat ->
  isOpaque data (4 * Z.of_nat k) = true ->
  let lightnesses :=
    map (lightnessAt data)
        (List.filter (isOpaque data) (dataIndices (length data))) in
  let lo := JS.Math_min lightnesses in
  let hi := JS.Math_max lightnesses in
  normalize data !! (4 * k + c)%nat
  = Some (JS.toUint8Clamp
            (JS.div
               (JS.mul
                  (JS.sub
                     (JS.ofZ (JS.toUint8Clamp (lightnessAt data (4 * Z.of_nat k))))
                     lo)
                  (JS.ofZ 255))
               (JS.sub hi lo)))
  /\ normalize data !! (4 * k)%nat = normalize data !! (4 * k + 1)%nat
  /\ normalize data !! (4 * k + 1)%nat = normalize data !! (4 * k + 2)%nat.
Proof.
  intros Hc Hop. cbv zeta.
  pose proof (grayscale_prefix data (Nat.div (length data + 3) 4)) as (_ & _ & Hls).
  fold (dataIndices (length data)) in Hls.
  fold (grayscale data) in Hls.
  pose proof (fun c' Hc' => normalize_value data k c' Hc' Hop) as Hall.
  unfold rescaled in Hall.
  rewrite <- Hls. split; [by apply Hall|].
  pose proof (Hall 0%nat) as H0. rewrite Nat.add_0_r in H0.
  rewrite H0, (Hall 1%nat), (Hall 2%nat) by lia. done.
Qed.

Lemma normalize_closed_form_witness :
  isOpaque opaqueWindow (4 * Z.of_nat 1) = true
  /\ normalize opaqueWindow !! (4 * 1 + 2)%nat = Some 255
  /\ normalize opaqueWindow !! (4 * 1)%nat
     = normalize opaqueWindow !! (4 * 1 + 1)%nat.
Proof.
  split; [reflexivity|]. split; [vm_compute; reflexivity|].
  apply (normalize_closed_form opaqueWindow 1 2); [lia | reflexivity].
Defined.

(** ** Flat windows: the quantization of a window of one lightness *)

Lemma div_by_sub_self_not_finite (n m : JS.num) :
  JS.isFinite (JS.div n (JS.sub m m)) = false.
Proof.
  destruct (sub_self_zero_or_nan m) as [-> | ->].
  - by destruct n as [s|s| |s mx ex].
  - by destruct n.
Qed.

(** C5 (as amended). A window whose opaque pixels all have the same
    lightness ([maxLightness] equals [minLightness]) is not given a
    fallback value: the rescaling divides by zero, and the quotient for
    an opaque pixel is never finite, it is NaN or an infinity. It is
    stored into a [Uint8ClampedArray], so that every color byte of an
    opaque pixel becomes the clamped value of that quotient, which is 0
    or 255. No NaN or infinity reaches the comparisons: every candidate
    of the searches has a finite distance. The five searches return, and
    the pattern they select is the same from every state of the
    module. *)
Theorem flat_window_quantized (cfg : Config) (data : list Z)
  (offsetY offsetX : Z) (w : World) :
  wellFormed cfg = true ->
  World_ok cfg w ->
  0 <= offsetY < tonePeriod cfg ->
  Z.of_nat (length data) <= 4 * tonePeriod cfg * tonePeriod cfg ->
  JS.Math_max (snd (grayscale data)) = JS.Math_min (snd (grayscale data)) ->
  (forall k c : nat, (c < 3)%nat ->
     isOpaque data (4 * Z.of_nat k) = true ->
     JS.isFinite (rescaled data (4 * Z.of_nat k)) = false
     /\ normalize data !! (4 * k + c)%nat
        = Some (JS.toUint8Clamp (rescaled data (4 * Z.of_nat k)))
     /\ (normalize data !! (4 * k + c)%nat = Some 0
         \/ normalize data !! (4 * k + c)%nat = Some 255))
  /\ (forall p, cacheRowExists cfg p = true ->
        exists d1 d2,
          distanceTo cfg (normalize data) p = Fin d1
          /\ distanceTo cfg data p = Fin d2)
  /\ exists p w',
       selectPattern cfg (normalize data) data offsetY offsetX w = Some (p, w')
       /\ forall w2, World_ok cfg w2 ->
            fst <$> selectPattern cfg (normalize data) data offsetY offsetX w2
            = Some p.
Proof.
  intros Hwf Hok Hoy Hlen Hflat.
  destruct (wellFormed_parts cfg Hwf) as (Hsq & _).
  destruct (normalize_framed data) as (Hnlen & _).
  split; [|split].
  - intros k c Hc Hop. split; [|split].
    + unfold rescaled. rewrite Hflat. apply div_by_sub_self_not_finite.
    + by apply normalize_value.
    + by apply normalize_flat.
  - intros p Hp.
    destruct (distanceTo_finite cfg (normalize data) p Hsq Hp) as (_ & d1 & H1);
      [by rewrite Hnlen|].
    destruct (distanceTo_finite cfg data p Hsq Hp) as (_ & d2 & H2); [done|].
    by exists d1, d2.
  - destruct (selectPattern_total cfg Hwf (normalize data) data offsetY offsetX w)
      as (p & w' & Hrun & _); try done; [by rewrite Hnlen|].
    exists p, w'. split; [done|]. intros w2 Hok2.
    destruct (respectful_selectPattern cfg (normalize data) data offsetY offsetX)
      as (Hd & _).
    rewrite <- (Hd w w2 Hok Hok2), Hrun. done.
Qed.

(** Its lightness is not exactly 128 in binary64, so the stored byte 128
    lies above the minimum and every quotient is +Infinity: the
    normalized window is white. *)
Example midGrayWindow_normalized :
  lightnessAt midGrayWindow 0 = S754_finite false 9007199254740991 (-46)
  /\ normalize midGrayWindow = map (fun _ => 255) midGrayWindow.
Proof. split; vm_compute; reflexivity. Qed.

Example midGrayWindow_selected :
  fst <$> selectPattern (sampleConfig 16) (normalize midGrayWindow) midGrayWindow
            8 8 (initialWorld (sampleConfig 16))
  = Some (mkPattern "blank" "hsl(0, 0%, 67%)" "hsl(0, 0%, 100%)" 8 8).
Proof. vm_compute. reflexivity. Qed.

Lemma flat_window_quantized_witness :
  wellFormed (sampleConfig 16) = true
  /\ JS.Math_max (snd (grayscale midGrayWindow))
     = JS.Math_min (snd (grayscale midGrayWindow))
  /\ exists p w',
       selectPattern (sampleConfig 16) (normalize midGrayWindow) midGrayWindow
         8 8 (initialWorld (sampleConfig 16))
       = Some (p, w')
       /\ forall w2, World_ok (sampleConfig 16) w2 ->
            fst <$> selectPattern (sampleConfig 16) (normalize midGrayWindow)
                      midGrayWindow 8 8 w2
            = Some p.
Proof.
  split; [vm_compute; reflexivity|]. split; [vm_compute; reflexivity|].
  apply (flat_window_quantized (sampleConfig 16) midGrayWindow 8 8
           (initialWorld (sampleConfig 16))).
  - vm_compute. reflexivity.
  - apply initialWorld_ok.
  - split; [discriminate | reflexivity].
  - vm_compute. discriminate.
  - vm_compute. reflexivity.
Defined.

(** There is no fallback value. The uniform windows of gray 128 and of
    gray 129 (here of 4 x 4 pixels) are both flat. For gray 128 the
    lightness is just below 128, the quotient is +Infinity and the
    normalized window is white; for gray 129 the lightness is exactly
    129, the quotient is 0 / 0 = NaN and the normalized window is black.
    The tone selected for the one is "blank" and for the other "fill". *)
Lemma flat_window_no_fallback :
  JS.Math_max (snd (grayscale (flatWindow 4 128)))
  = JS.Math_min (snd (grayscale (flatWindow 4 128)))
  /\ JS.Math_max (snd (grayscale (flatWindow 4 129)))
     = JS.Math_min (snd (grayscale (flatWindow 4 129)))
  /\ rescaled (flatWindow 4 128) 0 = JS.Infinity
  /\ rescaled (flatWindow 4 129) 0 = S754_nan
  /\ normalize (flatWindow 4 128)
     = flat_map (fun _ => [255; 255; 255; 255]) (seq 0 16)
  /\ normalize (flatWindow 4 129)
     = flat_map (fun _ => [0; 0; 0; 255]) (seq 0 16)
  /\ toneType
     <$> (fst <$> selectPattern (sampleConfig 4) (normalize (flatWindow 4 128))
                    (flatWindow 4 128) 2 2 (initialWorld (sampleConfig 4)))
     = Some "blank"%string
  /\ toneType
     <$> (fst <$> selectPattern (sampleConfig 4) (normalize (flatWindow 4 129))
                    (flatWindow 4 129) 2 2 (initialWorld (sampleConfig 4)))
     = Some "fill"%string.
Proof.
  do 7 (split; [vm_compute; reflexivity|]). vm_compute. reflexivity.
Qed.

(** A flat window whose lightness is exactly an integer: the quotient is
    0 / 0, and the stored byte is 0. *)
Example white_window_normalized :
  normalize [255; 255; 255; 255; 255; 255; 255; 255]
  = [0; 0; 0; 255; 0; 0; 0; 255].
Proof. vm_compute. reflexivity. Qed.

(** ** The filter does not throw on a well-formed configuration *)

Lemma length_getImageData c sx sy sw sh :
  length (getImageData c sx sy sw sh) = (Z.to_nat sh * (Z.to_nat sw * 4))%nat.
Proof.
  unfold getImageData.
  rewrite (flat_map_constant_length (c := (Z.to_nat sw * 4)%nat)).
  - by rewrite length_seqZ.
  - intros y _. rewrite (flat_map_constant_length (c := 4%nat)).
    + by rewrite length_seqZ.
    + intros x _. apply length_pixelData.
Qed.

Lemma forEachM_total {A S} (I : World -> Prop) (body : A -> S -> M S)
  (l : list A) :
  (forall a s w, a ∈ l -> I w -> exists s' w', body a s w = Some (s', w') /\ I w') ->
  forall s w, I w -> exists s' w', forEachM l body s w = Some (s', w') /\ I w'.
Proof.
  induction l as [|a l IH]; intros Hbody s w Hw; [by exists s, w|].
  destruct (Hbody a s w) as (s1 & w1 & H1 & Hw1); [left|done|].
  destruct (IH (fun b s0 w0 Hb => Hbody b s0 w0 (list_elem_of_further _ _ _ Hb))
              s1 w1 Hw1) as (s' & w' & H2 & Hw').
  exists s', w'. split; [|done]. simpl. by rewrite (bind_run _ _ _ _ _ H1).
Qed.

Lemma processCell_total cfg actualZoom y x st w :
  wellFormed cfg = true ->
  0 < tonePeriod cfg ->
  0 <= y ->
  World_ok cfg w ->
  exists st' w', processCell cfg actualZoom y x st w = Some (st', w')
                 /\ World_ok cfg w'.
Proof.
  intros Hwf HP Hy Hok. destruct st as [shrinked context].
  unfold processCell. cbv zeta.
  assert (Hlen : forall sx sy,
            Z.of_nat (length (getImageData shrinked sx sy (tonePeriod cfg)
                                (tonePeriod cfg)))
            <= 4 * tonePeriod cfg * tonePeriod cfg).
  { intros sx sy. rewrite length_getImageData.
    rewrite !Nat2Z.inj_mul, !Z2Nat.id by lia. change (Z.of_nat 4) with 4. lia. }
  destruct (selectPattern_total cfg Hwf
              (normalize (getImageData shrinked (x - tonePeriod cfg / 2)
                            (y - tonePeriod cfg / 2) (tonePeriod cfg) (tonePeriod cfg)))
              (getImageData shrinked (x - tonePeriod cfg / 2)
                 (y - tonePeriod cfg / 2) (tonePeriod cfg) (tonePeriod cfg))
              (cellOffset cfg y) (cellOffset cfg x) w Hok)
    as (p & w' & Hrun & Hok' & Hrow).
  { by apply cellOffset_range. }
  { destruct (normalize_framed
                (getImageData shrinked (x - tonePeriod cfg / 2)
                   (y - tonePeriod cfg / 2) (tonePeriod cfg) (tonePeriod cfg)))
      as (-> & _). apply Hlen. }
  { apply Hlen. }
  rewrite (bind_run _ _ _ _ _ Hrun). cbv beta.
  destruct (wellFormed_parts cfg Hwf) as (Hsq & _).
  destruct (objGet_is_Some _ _ (cacheRowExists_toneType cfg p Hrow)) as [bitmap Hb].
  rewrite Hb, bind_liftO_Some. cbv beta.
  destruct (index_is_Some bitmap (JS.rem y (tonePeriod cfg))) as [row Hr].
  { rewrite (squareTones_length cfg _ _ Hsq Hb). unfold JS.rem.
    apply Z.rem_bound_pos; lia. }
  rewrite Hr, bind_liftO_Some. cbv beta.
  eexists _, w'. split; [reflexivity | done].
Qed.

Lemma applyMibaeFilter_scan_total cfg actualZoom shrinkedContext context w :
  wellFormed cfg = true ->
  0 < tonePeriod cfg ->
  World_ok cfg w ->
  exists out w',
    applyMibaeFilter cfg actualZoom shrinkedContext context w = Some (out, w')
    /\ World_ok cfg w'.
Proof.
  intros Hwf HP Hok. unfold applyMibaeFilter.
  apply (forEachM_total (World_ok cfg)); [|done].
  intros y st w0 Hy Hok0. apply elem_of_seqZ in Hy.
  apply (forEachM_total (World_ok cfg)); [|done].
  intros x st' w1 _ Hok1. apply processCell_total; (done || lia).
Qed.



(** The source canvas of a displayed canvas of 6 x 4 pixels at zoom 2
    has 3 x 2 pixels; at zoom 0 it has none, and a displayed canvas
    without pixels makes the method throw. *)
Example KanvasCanvas_applyMibaeFilter_sample :
  canvasSize 300 (JS.div (JS.ofZ 6) (JS.ofZ 2)) = 3
  /\ canvasSize 150 (JS.div (JS.ofZ 4) (JS.ofZ 2)) = 2
  /\ canvasSize 300 (JS.div (JS.ofZ 7) (JS.ofZ 2)) = 3
  /\ canvasSize 300 (JS.div (JS.ofZ 6) (JS.ofZ 0)) = 0
  /\ KanvasCanvas_applyMibaeFilter (sampleConfig 2)
       (fun _ w h => pixels (grayCanvas w h 128)) (Some (blankCanvas 0 0))
       true 0 (initialWorld (sampleConfig 2))
     = None.
Proof. do 4 (split; [vm_compute; reflexivity|]). reflexivity. Qed.

(** ** What the filter writes *)

Lemma fold_setPixel_row c v py0 xs :
  let c' := fold_left (fun c px => setPixel c px py0 v) xs c in
  width c' = width c /\ height c' = height c
  /\ forall px py,
       pixelAt c' px py
       = if bool_decide (py = py0 /\ px ∈ xs) && inCanvas c px py
         then v else pixelAt c px py.
Proof.
  cbv zeta. revert c. induction xs as [|x xs IH]; intros c.
  - cbn [fold_left]. split; [done|]. split; [done|]. intros px py.
    rewrite bool_decide_eq_false_2; [done|]. intros [_ H]. by apply elem_of_nil in H.
  - cbn [fold_left]. destruct (IH (setPixel c x py0 v)) as (Hw & Hh & Hp).
    rewrite Hw, Hh, width_setPixel, height_setPixel.
    split; [done|]. split; [done|]. intros px py. rewrite Hp, inCanvas_setPixel.
    destruct (inCanvas c px py) eqn:Hin.
    + destruct (decide (py = py0 /\ px ∈ xs)) as [[-> Hx]|Hn].
      * rewrite !bool_decide_eq_true_2; [done | split; [done | by right] | done].
      * rewrite (bool_decide_eq_false_2 _ Hn). cbn [andb].
        destruct (decide ((x, py0) = (px, py))) as [[= -> ->]|Hne].
        -- rewrite bool_decide_eq_true_2 by (split; [done | left]). cbn [andb].
           by apply pixelAt_setPixel_eq.
        -- rewrite pixelAt_setPixel_ne by done.
           rewrite bool_decide_eq_false_2; [done|].
           intros [-> Hx]. apply elem_of_cons in Hx as [->|Hx]; [done|].
           apply Hn. done.
    + rewrite !andb_false_r.
      destruct (decide ((x, py0) = (px, py))) as [[= -> ->]|Hne].
      * unfold setPixel. by rewrite Hin.
      * by apply pixelAt_setPixel_ne.
Qed.

Lemma pixelAt_fillRect c rgb x y w h :
  let c' := fillRect c rgb x y w h in
  width c' = width c /\ height c' = height c
  /\ forall px py,
       pixelAt c' px py
       = if inRect x y w h px py && inCanvas c px py
         then (let '(r, g, b) := rgb in (r, g, b, 255))
         else pixelAt c px py.
Proof.
  cbv zeta. destruct rgb as [[r g] b]. unfold fillRect.
  assert (H : forall ys c,
            let c' := fold_left
                        (fun c py => fold_left
                           (fun c px => setPixel c px py (r, g, b, 255))
                           (seqZ x w) c) ys c in
            width c' = width c /\ height c' = height c
            /\ forall px py,
                 pixelAt c' px py
                 = if bool_decide (py ∈ ys /\ px ∈ seqZ x w) && inCanvas c px py
                   then (r, g, b, 255) else pixelAt c px py).
  { clear c. induction ys as [|y0 ys IH]; intros c; cbv zeta.
    - cbn [fold_left]. split; [done|]. split; [done|]. intros px py.
      rewrite bool_decide_eq_false_2; [done|]. intros [H _]. by apply elem_of_nil in H.
    - cbn [fold_left].
      destruct (fold_setPixel_row c (r, g, b, 255) y0 (seqZ x w)) as (Hw & Hh & Hp).
      cbv zeta in *.
      set (c1 := fold_left (fun c px => setPixel c px y0 (r, g, b, 255)) (seqZ x w) c)
        in *.
      destruct (IH c1) as (Hw' & Hh' & Hp'). cbv zeta in *.
      rewrite Hw', Hh', Hw, Hh. split; [done|]. split; [done|].
      intros px py. rewrite Hp', Hp.
      assert (Hin : inCanvas c1 px py = inCanvas c px py)
        by (unfold inCanvas; by rewrite Hw, Hh).
      rewrite Hin. destruct (inCanvas c px py); [|by rewrite !andb_false_r].
      rewrite !andb_true_r.
      destruct (decide (py ∈ ys /\ px ∈ seqZ x w)) as [[Hy Hx]|Hn].
      + rewrite !bool_decide_eq_true_2; [done | split; [by right | done] | done].
      + rewrite (bool_decide_eq_false_2 _ Hn).
        destruct (decide (py = y0 /\ px ∈ seqZ x w)) as [[-> Hx]|Hn'].
        * rewrite !bool_decide_eq_true_2; [done | split; [left | done] | done].
        * rewrite (bool_decide_eq_false_2 _ Hn').
          rewrite bool_decide_eq_false_2; [done|].
          intros [Hy Hx]. apply elem_of_cons in Hy as [->|Hy]; tauto. }
  destruct (H (seqZ y h) c) as (Hw & Hh & Hp). cbv zeta in *.
  split; [done|]. split; [done|]. intros px py. rewrite Hp.
  replace (bool_decide (py ∈ seqZ y h /\ px ∈ seqZ x w)) with (inRect x y w h px py);
    [done|].
  unfold inRect. apply eq_true_iff_eq.
  rewrite bool_decide_eq_true, !andb_true_iff, !Z.leb_le, !Z.ltb_lt, !elem_of_seqZ.
  lia.
Qed.

Lemma forEachM_prefix_invariant {A S} (I : list A -> S -> Prop)
  (body : A -> S -> M S) (l : list A) :
  (forall pre a s w s' w',
     a ∈ l -> I pre s -> body a s w = Some (s', w') -> I (pre ++ [a]) s') ->
  forall pre s w r w',
    I pre s -> forEachM l body s w = Some (r, w') -> I (pre ++ l) r.
Proof.
  induction l as [|a l IH]; intros Hstep pre s w r w' Hs Hrun.
  - injection Hrun as <- _. by rewrite app_nil_r.
  - simpl in Hrun. apply bind_Some in Hrun as (s1 & w1 & H1 & H2).
    replace (pre ++ a :: l) with ((pre ++ [a]) ++ l) by (by rewrite <- app_assoc).
    eapply IH; [| |exact H2].
    + intros pre' b s0 w0 s0' w0' Hb. apply Hstep. by right.
    + eapply Hstep; [left | exact Hs | exact H1].
Qed.

Lemma selectPattern_colors cfg nd wd oy ox w p w' :
  selectPattern cfg nd wd oy ox w = Some (p, w') ->
  toneType p ∈ Object_keys (tones cfg)
  /\ backgroundColor p ∈ colors cfg
  /\ foregroundColor p ∈ colors cfg.
Proof.
  intros Hrun. apply selectPattern_stages in Hrun
    as (light & dark & b1 & b2 & b3 & b4 & b5 & bgP & fgP & w1 & w2 & w3 & w4
        & _ & _ & H1 & _ & Hbg & H3 & _ & Hfg & H5 & ->).
  apply getBestPattern_member in H1, H3, H5.
  apply paletteFromLightness_get in Hbg as [Hbg _].
  apply paletteFromLightness_get in Hfg as [Hfg _].
  simpl. split; [|split].
  - apply list_elem_of_fmap in H1 as (t & -> & Ht). done.
  - apply list_elem_of_fmap in H3 as (c & -> & Hc). simpl.
    unfold colors. apply elem_of_concat. by exists bgP.
  - apply list_elem_of_fmap in H5 as (c & -> & Hc). simpl.
    unfold colors. apply elem_of_concat. by exists fgP.
Qed.

Lemma processCell_effect cfg actualZoom y x s c w s' c' w' :
  processCell cfg actualZoom y x (s, c) w = Some ((s', c'), w') ->
  exists color,
    color ∈ colors cfg
    /\ c' = fillRect c (cssColor cfg color)
              (x * actualZoom) (y * actualZoom) actualZoom actualZoom
    /\ s' = fold_left
              (diffuse cfg (getImageData s x y 1 1)
                       (getImageData c' (x * actualZoom) (y * actualZoom) 1 1) x y)
              ditheringPattern s.
Proof.
  unfold processCell. cbv zeta. intros Hrun.
  apply bind_Some in Hrun as (p & w1 & Hsel & Hrun).
  apply bind_Some in Hrun as (bitmap & ? & [_ ->]%liftO_Some & Hrun).
  apply bind_Some in Hrun as (row & ? & [_ ->]%liftO_Some & Hrun).
  apply ret_Some in Hrun as [E _]. injection E as -> ->.
  apply selectPattern_colors in Hsel as (_ & Hbg & Hfg).
  exists (if truthy (JS.index row (JS.rem x (tonePeriod cfg)))
          then foregroundColor p else backgroundColor p).
  split; [by destruct (truthy _)|]. done.
Qed.

Lemma alphaOf_stored lossy r g b a : alphaOf (stored lossy (r, g, b, a)) = a.
Proof.
  unfold stored. destruct (a =? 255) eqn:E1; [done|].
  destruct (a =? 0) eqn:E0; [by apply Z.eqb_eq in E0 as ->|].
  by destruct (lossy (r, g, b, a)) as [[r' g'] b'].
Qed.

Lemma diffuse_keeps_alpha cfg original put x y s :
  forall px py,
    alphaOf (pixelAt (fold_left (diffuse cfg original put x y) ditheringPattern s)
               px py)
    = alphaOf (pixelAt s px py).
Proof.
  intros px py.
  destruct (diffusion_targets cfg original put x y s) as (_ & _ & Ht & Ho).
  cbv zeta in *.
  destruct (decide (Exists (fun d => (px, py) = (x + deltaX d, y + deltaY d))
                           ditheringPattern)) as [He|Hn].
  1: apply Exists_exists in He as (d & Hd & [= -> ->]).
  - rewrite (Ht d Hd).
    destruct (inCanvas s (x + deltaX d) (y + deltaY d)) eqn:Hin.
    + destruct (pixelAt s (x + deltaX d) (y + deltaY d)) as [[[r g] b] a].
      unfold diffused. apply alphaOf_stored.
    + by rewrite pixelAt_outside.
  - rewrite Ho; [done|]. intros d Hd E. apply Hn, Exists_exists. by exists d.
Qed.

(** C4. The error of a processed cell is diffused into exactly four
    pixels of the source canvas, at (+1, 0), (-1, +1), (0, +1) and
    (+1, +1), with the weights 7/16, 3/16, 5/16 and 1/16, each
    multiplied by the one constant [ditheringRate] = 1/2; the four rates
    sum to [ditheringRate], so the diffused fractions of an error [e]
    sum to at most [|e|]. On a well-formed configuration the cell
    callback returns, and the source canvas it leaves is the one before
    except at the four targets. The error of a channel is the byte of
    the cell's own source pixel minus the byte of the pixel just stamped
    in the displayed canvas. A target inside the canvas is rewritten
    once, from its own previous value: an opaque target receives, in
    each channel, its byte plus error times rate, clamped and rounded by
    the byte store; a target of alpha 0 stays transparent black. A
    target outside the canvas is not written. *)
Theorem dithering_weights_and_targets (cfg : Config) (actualZoom y x : Z)
  (shrinkedContext context : Canvas) (w : World) :
  wellFormed cfg = true ->
  0 < tonePeriod cfg -> Z.even (tonePeriod cfg) = true ->
  0 <= y ->
  World_ok cfg w ->
  map (fun d => (deltaX d, deltaY d)) ditheringPattern
  = [(1, 0); (-1, 1); (0, 1); (1, 1)]
  /\ Forall (fun d => JS.isFinite (rate d) = true) ditheringPattern
  /\ (JS.toQ ditheringRate == 1 # 2)%Q
  /\ Forall2 (fun d weight => (JS.toQ (rate d) == weight * JS.toQ ditheringRate)%Q)
       ditheringPattern [7 # 16; 3 # 16; 5 # 16; 1 # 16]%Q
  /\ (forall e : Q,
        (fold_right Qplus 0
           (map (fun d => Qabs (e * JS.toQ (rate d))) ditheringPattern)
         <= Qabs e)%Q)
  /\ exists shrinked' context' w',
       processCell cfg actualZoom y x (shrinkedContext, context) w
       = Some ((shrinked', context'), w')
       /\ width shrinked' = width shrinkedContext
       /\ height shrinked' = height shrinkedContext
       /\ (forall d, d ∈ ditheringPattern ->
             pixelAt shrinked' (x + deltaX d) (y + deltaY d)
             = if inCanvas shrinkedContext (x + deltaX d) (y + deltaY d)
               then diffused cfg (getImageData shrinkedContext x y 1 1)
                      (getImageData context' (x * actualZoom) (y * actualZoom) 1 1)
                      d (pixelAt shrinkedContext (x + deltaX d) (y + deltaY d))
               else (0, 0, 0, 0))
       /\ (forall d r g b, d ∈ ditheringPattern ->
             pixelAt shrinkedContext (x + deltaX d) (y + deltaY d) = (r, g, b, 255) ->
             let error (c : Z) :=
               JS.sub (JS.read (getImageData shrinkedContext x y 1 1) c)
                      (JS.read (getImageData context' (x * actualZoom)
                                  (y * actualZoom) 1 1) c) in
             let channel (c : Z) (old : Z) :=
               JS.toUint8Clamp (JS.add (JS.ofZ old) (JS.mul (error c) (rate d))) in
             pixelAt shrinked' (x + deltaX d) (y + deltaY d)
             = (channel 0 r, channel 1 g, channel 2 b, 255))
       /\ (forall d r g b, d ∈ ditheringPattern ->
             pixelAt shrinkedContext (x + deltaX d) (y + deltaY d) = (r, g, b, 0) ->
             pixelAt shrinked' (x + deltaX d) (y + deltaY d) = (0, 0, 0, 0))
       /\ (forall px py,
             (forall d, d ∈ ditheringPattern ->
                (px, py) <> (x + deltaX d, y + deltaY d)) ->
             pixelAt shrinked' px py = pixelAt shrinkedContext px py).
Proof.
  intros Hwf HP _ Hy Hok.
  split; [reflexivity|].
  split; [repeat constructor|].
  split; [vm_compute; reflexivity|].
  split; [repeat constructor; vm_compute; reflexivity|].
  split; [apply diffusion_total|].
  destruct (processCell_total cfg actualZoom y x (shrinkedContext, context) w
              Hwf HP Hy Hok) as ([shrinked' context'] & w' & Hrun & _).
  exists shrinked', context', w'. split; [exact Hrun|].
  apply processCell_effect in Hrun as (color & _ & _ & ->).
  destruct (diffusion_targets cfg (getImageData shrinkedContext x y 1 1)
              (getImageData context' (x * actualZoom) (y * actualZoom) 1 1)
              x y shrinkedContext) as (Hw & Hh & Ht & Ho).
  cbv zeta in *.
  split; [done|]. split; [done|]. split; [exact Ht|].
  split; [|split; [|exact Ho]].
  - intros d r g b Hd Hpx. rewrite (Ht d Hd), Hpx.
    destruct (inCanvas shrinkedContext (x + deltaX d) (y + deltaY d)) eqn:Hin;
      [reflexivity|].
    by rewrite pixelAt_outside in Hpx.
  - intros d r g b Hd Hpx. rewrite (Ht d Hd), Hpx.
    by destruct (inCanvas shrinkedContext (x + deltaX d) (y + deltaY d)).
Qed.

Lemma dithering_weights_and_targets_witness :
  wellFormed (sampleConfig 2) = true
  /\ exists shrinked' context' w',
       processCell (sampleConfig 2) 2 0 0
         (grayCanvas 3 2 128, grayCanvas 6 4 128) (initialWorld (sampleConfig 2))
       = Some ((shrinked', context'), w')
       /\ width shrinked' = 3
       /\ pixelAt shrinked' 0 0 = (128, 128, 128, 255)
       /\ pixelAt shrinked' 1 0
          = diffused (sampleConfig 2) [128; 128; 128; 255]
              (getImageData context' 0 0 1 1)
              (mkDiffusion 1 0 (JS.mul (JS.div (JS.ofZ 7) (JS.ofZ 16)) ditheringRate))
              (128, 128, 128, 255).
Proof.
  split; [vm_compute; reflexivity|].
  destruct (dithering_weights_and_targets (sampleConfig 2) 2 0 0
              (grayCanvas 3 2 128) (grayCanvas 6 4 128)
              (initialWorld (sampleConfig 2)))
    as (_ & _ & _ & _ & _ & s' & c' & w' & Hrun & Hw & _ & Ht & _ & _ & Ho);
    [vm_compute; reflexivity | reflexivity | reflexivity | lia
    | apply initialWorld_ok |].
  exists s', c', w'. split; [exact Hrun|]. clear Hrun.
  split; [exact Hw|]. split.
  - clear Ht. rewrite Ho; [vm_compute; reflexivity|]. clear Ho.
    intros d Hd. unfold ditheringPattern in Hd. rewrite !elem_of_cons in Hd.
    destruct Hd as [->|[->|[->|[->|Hd]]]]; [| | | |by apply elem_of_nil in Hd];
      cbn [deltaX deltaY]; pixel_ne.
  - pose proof (Ht (mkDiffusion 1 0 _) (list_elem_of_here _ _)) as H1.
    cbn [deltaX deltaY] in H1.
    change (0 + 1) with 1 in H1. change (0 + 0) with 0 in H1.
    change (0 * 2) with 0 in H1.
    assert (E1 : inCanvas (grayCanvas 3 2 128) 1 0 = true)
      by (vm_compute; reflexivity).
    assert (E2 : getImageData (grayCanvas 3 2 128) 0 0 1 1 = [128; 128; 128; 255])
      by (vm_compute; reflexivity).
    assert (E3 : pixelAt (grayCanvas 3 2 128) 1 0 = (128, 128, 128, 255))
      by (vm_compute; reflexivity).
    rewrite E1, E2, E3 in H1. exact H1.
Defined.

(** The cell (0, 0) of the sample run is stamped with the gray 171: the
    error 128 - 171 = -43 of each channel moves its right neighbor from
    128 to 119 (128 - 43 * 7/32 is 118.59) and the pixel below from 128
    to 121. *)
Example processCell_sample_diffusion :
  (fun st => getImageData (fst (fst st)) 0 0 3 2)
  <$> processCell (sampleConfig 2) 2 0 0
        (grayCanvas 3 2 128, grayCanvas 6 4 128) (initialWorld (sampleConfig 2))
  = Some [128; 128; 128; 255; 119; 119; 119; 255; 128; 128; 128; 255;
          121; 121; 121; 255; 127; 127; 127; 255; 128; 128; 128; 255].
Proof. vm_compute. reflexivity. Qed.

(** A target of alpha 0 inside the canvas stays transparent black. *)
Example diffuse_transparent_target :
  pixelAt
    (fold_left (diffuse (sampleConfig 2) [128; 128; 128; 255]
                  [84; 84; 84; 255] 0 0)
               ditheringPattern (blankCanvas 3 2))
    1 0
  = (0, 0, 0, 0).
Proof. vm_compute. reflexivity. Qed.

Lemma stampedState_ext cfg actualZoom s0 c0 (cells cells' : Z -> Z -> Prop) st :
  (forall x y, cells x y <-> cells' x y) ->
  stampedState cfg actualZoom s0 c0 cells st ->
  stampedState cfg actualZoom s0 c0 cells' st.
Proof.
  intros Hext (H1 & H2 & H3 & H4 & H5 & H6 & H7).
  assert (Hcov : forall px py, covered actualZoom cells px py
                               <-> covered actualZoom cells' px py).
  { intros px py. unfold covered. split; intros (x & y & Hc & Hr);
      exists x, y; (split; [by apply Hext | done]). }
  repeat (split; [done|]). split.
  - intros px py Hn. apply H6. by rewrite Hcov.
  - intros px py Hc. apply H7. by rewrite Hcov.
Qed.

Lemma stampedState_step cfg actualZoom s0 c0 cells y x s c w s' c' w' :
  stampedState cfg actualZoom s0 c0 cells (s, c) ->
  processCell cfg actualZoom y x (s, c) w = Some ((s', c'), w') ->
  stampedState cfg actualZoom s0 c0
    (fun x' y' => cells x' y' \/ (x' = x /\ y' = y)) (s', c').
Proof.
  intros (H1 & H2 & H3 & H4 & H5 & H6 & H7) Hrun. cbn [fst snd] in *.
  apply processCell_effect in Hrun as (color & Hcolor & -> & ->).
  destruct (pixelAt_fillRect c (cssColor cfg color) (x * actualZoom)
              (y * actualZoom) actualZoom actualZoom) as (Hw & Hh & Hp).
  cbv zeta in *.
  set (c' := fillRect c (cssColor cfg color) (x * actualZoom) (y * actualZoom)
               actualZoom actualZoom) in *.
  destruct (diffusion_targets cfg (getImageData s x y 1 1)
              (getImageData c' (x * actualZoom) (y * actualZoom) 1 1) x y s)
    as (Hsw & Hsh & _). cbv zeta in *.
  unfold stampedState. cbn [fst snd].
  split; [congruence|]. split; [congruence|].
  split; [intros px py; rewrite diffuse_keeps_alpha; apply H3|].
  split; [congruence|]. split; [congruence|].
  assert (Hin : forall px py, inCanvas c px py = inCanvas c0 px py)
    by (intros; unfold inCanvas; by rewrite H4, H5).
  split.
  - intros px py Hn. rewrite Hp.
    destruct (inRect (x * actualZoom) (y * actualZoom) actualZoom actualZoom px py)
      eqn:Hr.
    + exfalso. apply Hn. exists x, y. split; [by right | done].
    + cbn [andb]. apply H6. intros (x1 & y1 & Hc & Hr1). apply Hn.
      exists x1, y1. split; [by left | done].
  - intros px py (x1 & y1 & Hc & Hr1) Hin0. rewrite Hp, Hin, Hin0, andb_true_r.
    destruct (inRect (x * actualZoom) (y * actualZoom) actualZoom actualZoom px py)
      eqn:Hr.
    + exists color. split; [done|]. unfold opaque. by destruct (cssColor cfg color) as [[r g] b].
    + apply H7; [|done]. destruct Hc as [Hc|[-> ->]]; [|congruence].
      by exists x1, y1.
Qed.

Lemma covered_grid actualZoom W H px py :
  0 < actualZoom ->
  covered actualZoom (fun x y => y ∈ seqZ 0 H /\ x ∈ seqZ 0 W) px py
  <-> (0 <= px < W * actualZoom /\ 0 <= py < H * actualZoom).
Proof.
  intros Hz. unfold covered, inRect. split.
  - intros (x & y & [Hy Hx] & Hr). apply elem_of_seqZ in Hx, Hy.
    rewrite !andb_true_iff, !Z.leb_le, !Z.ltb_lt in Hr. nia.
  - intros [Hx Hy]. exists (px / actualZoom), (py / actualZoom).
    pose proof (Z.mul_div_le px actualZoom Hz).
    pose proof (Z.mul_div_le py actualZoom Hz).
    pose proof (Z.mul_succ_div_gt px actualZoom Hz).
    pose proof (Z.mul_succ_div_gt py actualZoom Hz).
    rewrite !elem_of_seqZ, !andb_true_iff, !Z.leb_le, !Z.ltb_lt.
    assert (0 <= px / actualZoom) by (apply Z.div_pos; lia).
    assert (0 <= py / actualZoom) by (apply Z.div_pos; lia).
    assert (px / actualZoom < W) by (apply Z.div_lt_upper_bound; lia).
    assert (py / actualZoom < H) by (apply Z.div_lt_upper_bound; lia).
    lia.
Qed.

(** X6. What a completed run of [applyMibaeFilter] has written, for a
    positive zoom. Both canvases keep their size. In the displayed
    canvas every pixel of the grid of cells
    ([shrinked width * zoom] by [shrinked height * zoom]) is an opaque
    palette color, and no pixel outside the grid is touched. In the source canvas the
    error diffusion has changed color bytes only: the alpha of every
    pixel is the one it had before the run. *)
Theorem applyMibaeFilter_output (cfg : Config) (actualZoom : Z)
  (shrinkedContext context : Canvas) (w : World)
  (shrinked' context' : Canvas) (w' : World) :
  applyMibaeFilter cfg actualZoom shrinkedContext context w
  = Some ((shrinked', context'), w') ->
  0 < actualZoom ->
  width shrinked' = width shrinkedContext
  /\ height shrinked' = height shrinkedContext
  /\ (forall x y,
        alphaOf (pixelAt shrinked' x y) = alphaOf (pixelAt shrinkedContext x y))
  /\ width context' = width context
  /\ height context' = height context
  /\ (forall px py,
        ~ (0 <= px < width shrinkedContext * actualZoom
           /\ 0 <= py < height shrinkedContext * actualZoom) ->
        pixelAt context' px py = pixelAt context px py)
  /\ (forall px py,
        0 <= px < width shrinkedContext * actualZoom ->
        0 <= py < height shrinkedContext * actualZoom ->
        inCanvas context px py = true ->
        exists color,
          color ∈ colors cfg
          /\ pixelAt context' px py = opaque (cssColor cfg color)).
Proof.
  intros Hrun Hz. unfold applyMibaeFilter in Hrun.
  set (cols := seqZ 0 (width shrinkedContext)) in *.
  set (rows := seqZ 0 (height shrinkedContext)) in *.
  assert (Hfinal : stampedState cfg actualZoom shrinkedContext context
                     (fun x y => y ∈ rows /\ x ∈ cols) (shrinked', context')).
  { apply (forEachM_prefix_invariant
             (fun (pre : list Z) st =>
                stampedState cfg actualZoom shrinkedContext context
                  (fun x y => y ∈ pre /\ x ∈ cols) st)
             _ rows) with (pre := []) in Hrun; [exact Hrun| |].
    - intros pre y st w0 st' w0' Hy Hst Hrow.
      apply (forEachM_prefix_invariant
               (fun (prex : list Z) st =>
                  stampedState cfg actualZoom shrinkedContext context
                    (fun x' y' => (y' ∈ pre /\ x' ∈ cols) \/ (y' = y /\ x' ∈ prex))
                    st)
               _ cols) with (pre := []) in Hrow.
      + eapply stampedState_ext; [|exact Hrow]. intros x' y'. cbn [app].
        rewrite elem_of_app, list_elem_of_singleton. tauto.
      + intros prex x [s c] w1 [s1 c1] w1' Hx Hst1 Hcell.
        eapply stampedState_ext;
          [|exact (stampedState_step _ _ _ _ _ _ _ _ _ _ _ _ _ Hst1 Hcell)].
        intros x' y'. cbn beta.
        rewrite elem_of_app, list_elem_of_singleton. tauto.
      + eapply stampedState_ext; [|exact Hst]. intros x' y'.
        split; [tauto|]. intros [?|[_ H]]; [done|]. by apply elem_of_nil in H.
    - repeat split. intros px py (x & y & [H _] & _) _. by apply elem_of_nil in H. }
  destruct Hfinal as (H1 & H2 & H3 & H4 & H5 & H6 & H7). cbn [fst snd] in *.
  repeat (split; [done|]). split.
  - intros px py Hn. apply H6. unfold rows, cols. by rewrite covered_grid.
  - intros px py Hx Hy. apply H7. unfold rows, cols. by rewrite covered_grid.
Qed.

Lemma applyMibaeFilter_output_witness :
  exists shrinked' context' w',
    applyMibaeFilter (sampleConfig 2) 2 (grayCanvas 3 2 128) (grayCanvas 6 4 128)
      (initialWorld (sampleConfig 2))
    = Some ((shrinked', context'), w')
    /\ width context' = 6
    /\ exists color,
         color ∈ colors (sampleConfig 2)
         /\ pixelAt context' 5 3 = opaque (cssColor (sampleConfig 2) color).
Proof.
  destruct (applyMibaeFilter_scan_total (sampleConfig 2) 2 (grayCanvas 3 2 128)
              (grayCanvas 6 4 128) (initialWorld (sampleConfig 2)))
    as ([s' c'] & w' & Hrun & _);
    [reflexivity | reflexivity | apply initialWorld_ok |].
  exists s', c', w'. split; [exact Hrun|].
  destruct (applyMibaeFilter_output _ _ _ _ _ _ _ _ Hrun)
    as (_ & _ & _ & Hw & _ & _ & Hpal); [reflexivity|].
  split; [exact Hw|]. apply Hpal; [split; reflexivity || discriminate ..|reflexivity].
Defined.

(** ** The undo history *)

Lemma length_Array_slice {A} (a : list A) start end_ :
  0 <= start -> 0 <= end_ ->
  Z.of_nat (length (Array_slice a start end_)) <= Z.max 0 (end_ - start).
Proof.
  intros Hs He. unfold Array_slice. rewrite length_take, length_drop.
  destruct (start <? 0) eqn:E1; [apply Z.ltb_lt in E1; lia|].
  destruct (end_ <? 0) eqn:E2; [apply Z.ltb_lt in E2; lia|]. lia.
Qed.

Lemma lookup_Array_slice {A} (a : list A) start end_ (i : nat) :
  0 <= start -> Z.of_nat i < end_ - start -> 0 <= end_ ->
  Array_slice a start end_ !! i = a !! (Z.to_nat start + i)%nat.
Proof.
  intros Hs Hi He. unfold Array_slice.
  destruct (start <? 0) eqn:E1; [apply Z.ltb_lt in E1; lia|].
  destruct (end_ <? 0) eqn:E2; [apply Z.ltb_lt in E2; lia|].
  destruct (decide (Z.to_nat start + i < length a)%nat) as [Hlt|Hge].
  - rewrite lookup_take_lt by lia. rewrite lookup_drop. f_equal. lia.
  - rewrite (lookup_ge_None_2 a) by lia.
    apply lookup_ge_None_2. rewrite length_take, length_drop. lia.
Qed.

Lemma pushImageToHistory_ok dataURL h :
  historyOk h -> historyOk (fst (pushImageToHistory dataURL h)).
Proof.
  intros Hok. unfold pushImageToHistory.
  destruct (_ && _); [done|]. cbn [fst].
  pose proof (length_Array_slice (history h)
                (Z.max (historyIndex h - historyMaxLength) 0)
                (historyIndex h + 1)) as Hlen.
  assert (-1 <= historyIndex h) by (destruct Hok; lia).
  unfold historyOk, historyMaxLength in *. cbn [history historyIndex].
  rewrite length_app in *. cbn [length] in *.
  repeat split; try lia.
  intros E. apply (f_equal length) in E. rewrite length_app in E. simpl in E. lia.
Qed.

Lemma undo_ok h : historyOk h -> historyOk (fst (undo h)).
Proof.
  intros (H1 & H2 & H3 & H4). unfold undo.
  destruct (historyIndex h <? 1) eqn:E; [done|]. apply Z.ltb_ge in E.
  repeat split; cbn [fst history historyIndex]; try lia.
  intros Hnil. apply H2 in Hnil. lia.
Qed.

Lemma redo_ok h : historyOk h -> historyOk (fst (redo h)).
Proof.
  intros (H1 & H2 & H3 & H4). unfold redo.
  destruct (_ <=? historyIndex h) eqn:E; [done|]. apply Z.leb_gt in E.
  repeat split; cbn [fst history historyIndex]; try lia.
  intros Hnil. rewrite Hnil in E. simpl in E. lia.
Qed.

(** X7. Whatever sequence of pushes, undos and redos is applied to the
    initial state, the history index is -1 on the empty history and a
    valid index otherwise, and the history never holds more than 32
    ([historyMaxLength + 2]) images. *)
Theorem history_invariant (actions : list HistoryAction) :
  let h := fold_left historyStep actions initialHistory in
  -1 <= historyIndex h < Z.of_nat (length (history h))
  /\ (history h = [] <-> historyIndex h = -1)
  /\ Z.of_nat (length (history h)) <= 32.
Proof.
  cbv zeta.
  assert (Hok : historyOk (fold_left historyStep actions initialHistory)).
  { assert (H0 : historyOk initialHistory).
    { unfold historyOk, historyMaxLength. simpl. repeat split; (lia || done). }
    revert H0. generalize initialHistory.
    induction actions as [|a l IH]; intros h Hh; [done|].
    simpl. apply IH. destruct a; simpl.
    - by apply pushImageToHistory_ok.
    - by apply undo_ok.
    - by apply redo_ok. }
  destruct Hok as (H1 & H2 & H3 & H4). unfold historyMaxLength in H4.
  split; [done|]. split; [|lia]. split; [done|].
  intros Hi. destruct (history _) as [|x l]; [done|].
  assert (0 <= historyIndex (fold_left historyStep actions initialHistory))
    by (by apply H3). lia.
Qed.

(** Forty distinct images pushed in a row: the history holds 32. *)
Example history_fills_up :
  let h := fold_left historyStep
             (map (fun n => PushImage (String (Ascii.ascii_of_nat n) EmptyString))
                  (seq 0 40))
             initialHistory in
  length (history h) = 32%nat /\ historyIndex h = 31.
Proof. vm_compute. done. Qed.

(** X8. Undo and redo are inverse to each other. Where undo is enabled
    (the index is at least 1 and valid), redo after undo restores the
    state and asks for the image that was current; where redo is enabled
    (a valid index that is not the last), undo after redo restores the
    state likewise. At index 0 undo does nothing, and at the last index
    redo does nothing. *)
Theorem undo_redo_inverse (h : History) :
  0 <= historyIndex h < Z.of_nat (length (history h)) ->
  (1 <= historyIndex h ->
   redo (fst (undo h))
   = (h, [LoadImage (JS.index (history h) (historyIndex h));
          HistoryChange (history h) (historyIndex h)]))
  /\ (historyIndex h < Z.of_nat (length (history h)) - 1 ->
      undo (fst (redo h))
      = (h, [LoadImage (JS.index (history h) (historyIndex h));
             HistoryChange (history h) (historyIndex h)]))
  /\ (historyIndex h = 0 -> undo h = (h, []))
  /\ (historyIndex h = Z.of_nat (length (history h)) - 1 -> redo h = (h, [])).
Proof.
  intros Hi. destruct h as [l i]. cbn [history historyIndex] in *.
  unfold undo, redo. cbn [history historyIndex fst].
  split; [|split; [|split]].
  - intros H1.
    destruct (i <? 1) eqn:E1; [apply Z.ltb_lt in E1; lia|]. cbn [fst history historyIndex].
    destruct (Z.of_nat (length l) - 1 <=? i - 1) eqn:E2; [apply Z.leb_le in E2; lia|].
    unfold putImageFromHistory, dispatchChangeHistoryEvent.
    cbn [history historyIndex app]. by replace (i - 1 + 1) with i by lia.
  - intros H1.
    destruct (Z.of_nat (length l) - 1 <=? i) eqn:E2; [apply Z.leb_le in E2; lia|].
    cbn [fst history historyIndex].
    destruct (i + 1 <? 1) eqn:E1; [apply Z.ltb_lt in E1; lia|].
    unfold putImageFromHistory, dispatchChangeHistoryEvent.
    cbn [history historyIndex app]. by replace (i + 1 - 1) with i by lia.
  - intros ->. done.
  - intros ->. by rewrite Z.leb_refl.
Qed.

Lemma undo_redo_inverse_witness :
  redo (fst (undo (mkHistory ["a"; "b"; "c"] 1)))
  = (mkHistory ["a"; "b"; "c"] 1,
     [LoadImage (Some "b"); HistoryChange ["a"; "b"; "c"] 1])
  /\ undo (fst (redo (mkHistory ["a"; "b"; "c"] 1)))
     = (mkHistory ["a"; "b"; "c"] 1,
        [LoadImage (Some "b"); HistoryChange ["a"; "b"; "c"] 1]).
Proof.
  destruct (undo_redo_inverse (mkHistory ["a"; "b"; "c"] 1)) as (H1 & H2 & _).
  - simpl. lia.
  - split; [apply H1 | apply H2]; simpl; lia.
Defined.

Lemma index_app_last {A} (l : list A) (x : A) :
  JS.index (l ++ [x]) (Z.of_nat (length (l ++ [x])) - 1) = Some x.
Proof.
  rewrite length_app. cbn [length].
  replace (Z.of_nat (length l + 1) - 1) with (Z.of_nat (length l)) by lia.
  rewrite index_nat, lookup_app_r, Nat.sub_diag by lia. done.
Qed.

(** X9. Pushing an image. If it equals the current image, nothing
    changes and no event is sent. Otherwise the new image becomes the
    last and current entry, so there is nothing left to redo; the
    entries kept before it are the current image and up to 30 images
    before it, in order; and an undo right after the push asks for the
    image that was current before it. *)
Theorem pushImageToHistory_spec (dataURL : string) (h : History) :
  0 <= historyIndex h < Z.of_nat (length (history h)) ->
  let h' := fst (pushImageToHistory dataURL h) in
  (JS.index (history h) (historyIndex h) = Some dataURL ->
   pushImageToHistory dataURL h = (h, []))
  /\ (JS.index (history h) (historyIndex h) <> Some dataURL ->
      let first := Z.max (historyIndex h - historyMaxLength) 0 in
      JS.index (history h') (historyIndex h') = Some dataURL
      /\ historyIndex h' = Z.of_nat (length (history h')) - 1
      /\ historyIndex h' = historyIndex h - first + 1
      /\ (forall j, first <= j <= historyIndex h ->
            JS.index (history h') (j - first) = JS.index (history h) j)
      /\ redo h' = (h', [])
      /\ snd (pushImageToHistory dataURL h)
         = [HistoryChange (history h') (historyIndex h')]
      /\ snd (undo h')
         = [LoadImage (JS.index (history h) (historyIndex h));
            HistoryChange (history h') (historyIndex h' - 1)]).
Proof.
  intros Hi. cbv zeta. unfold pushImageToHistory.
  split.
  - intros ->. rewrite bool_decide_eq_true_2 by done.
    destruct (0 <=? historyIndex h) eqn:E; [done|]. apply Z.leb_gt in E. lia.
  - intros Hne. rewrite (bool_decide_eq_false_2 _ Hne), andb_false_r.
    cbn [fst snd history historyIndex].
    set (first := Z.max (historyIndex h - historyMaxLength) 0).
    assert (Hfirst : 0 <= first <= historyIndex h)
      by (unfold first, historyMaxLength; lia).
    set (kept := Array_slice (history h) first (historyIndex h + 1)).
    assert (Hkept : forall i : nat, Z.of_nat i < historyIndex h + 1 - first ->
              kept !! i = history h !! (Z.to_nat first + i)%nat).
    { intros i Hlt. apply lookup_Array_slice; lia. }
    assert (Hlen : Z.of_nat (length kept) = historyIndex h + 1 - first).
    { unfold kept, Array_slice. rewrite length_take, length_drop.
      destruct (first <? 0) eqn:E1; [apply Z.ltb_lt in E1; lia|].
      destruct (historyIndex h + 1 <? 0) eqn:E2; [apply Z.ltb_lt in E2; lia|]. lia. }
    assert (Hidx : forall j, first <= j <= historyIndex h ->
              JS.index (kept ++ [dataURL]) (j - first) = JS.index (history h) j).
    { intros j Hj.
      replace (j - first) with (Z.of_nat (Z.to_nat (j - first))) by lia.
      replace j with (Z.of_nat (Z.to_nat j)) at 2 by lia.
      rewrite !index_nat, lookup_app_l by lia.
      rewrite Hkept by lia. f_equal. lia. }
    split; [apply index_app_last|]. split; [done|].
    split; [rewrite length_app; cbn [length]; lia|].
    split; [exact Hidx|].
    split.
    { unfold redo. cbn [history historyIndex]. by rewrite Z.leb_refl. }
    split; [done|].
    unfold undo. cbn [history historyIndex].
    destruct (Z.of_nat (length (kept ++ [dataURL])) - 1 <? 1) eqn:E.
    { apply Z.ltb_lt in E. rewrite length_app in E. cbn [length] in E. lia. }
    cbn [snd]. unfold putImageFromHistory, dispatchChangeHistoryEvent.
    cbn [history historyIndex app]. do 2 f_equal.
    rewrite <- (Hidx (historyIndex h)) by lia. f_equal.
    rewrite length_app. cbn [length]. lia.
Qed.

Lemma pushImageToHistory_spec_witness :
  pushImageToHistory "b" (mkHistory ["a"; "b"; "c"] 1)
  = (mkHistory ["a"; "b"; "c"] 1, [])
  /\ fst (pushImageToHistory "d" (mkHistory ["a"; "b"; "c"] 1))
     = mkHistory ["a"; "b"; "d"] 2.
Proof.
  split; [|reflexivity].
  apply (pushImageToHistory_spec "b" (mkHistory ["a"; "b"; "c"] 1)).
  - simpl. lia.
  - reflexivity.
Defined.

(** ** Drawing: one stamp of the brush *)

Lemma paintedBy_refl rgb c : paintedBy rgb (fun _ _ => false) c c.
Proof.
  split; [done|]. split; [done|]. intros qx qy. by rewrite andb_false_r.
Qed.

Lemma paintedBy_ext rgb R R' c c' :
  (forall qx qy, R qx qy = R' qx qy) -> paintedBy rgb R c c' -> paintedBy rgb R' c c'.
Proof.
  intros HR (Hw & Hh & Hp). split; [done|]. split; [done|].
  intros qx qy. by rewrite Hp, HR.
Qed.

Lemma paintedBy_trans rgb R1 R2 c1 c2 c3 :
  paintedBy rgb R1 c1 c2 -> paintedBy rgb R2 c2 c3 ->
  paintedBy rgb (fun qx qy => R1 qx qy || R2 qx qy) c1 c3.
Proof.
  intros (Hw1 & Hh1 & Hp1) (Hw2 & Hh2 & Hp2).
  split; [congruence|]. split; [congruence|]. intros qx qy.
  rewrite Hp2, Hp1.
  assert (Hin : inCanvas c2 qx qy = inCanvas c1 qx qy)
    by (unfold inCanvas; by rewrite Hw1, Hh1).
  rewrite Hin. destruct (inCanvas c1 qx qy), (R1 qx qy), (R2 qx qy); done.
Qed.

Lemma paintedBy_fillRect rgb c x y w h :
  paintedBy rgb (inRect x y w h) c (fillRect c rgb x y w h).
Proof.
  destruct (pixelAt_fillRect c rgb x y w h) as (Hw & Hh & Hp). cbv zeta in *.
  split; [done|]. split; [done|]. intros qx qy. rewrite Hp.
  by rewrite andb_comm.
Qed.

Lemma forEachO_paints {A} rgb (g : A -> Z -> Z -> bool)
  (body : A -> Canvas -> option Canvas) (l : list A) :
  (forall a c, a ∈ l -> exists c', body a c = Some c' /\ paintedBy rgb (g a) c c') ->
  forall c, exists c',
    forEachO l body c = Some c'
    /\ paintedBy rgb (fun qx qy => existsb (fun a => g a qx qy) l) c c'.
Proof.
  induction l as [|a l IH]; intros Hbody c.
  - exists c. split; [done|]. apply paintedBy_refl.
  - destruct (Hbody a c) as (c1 & H1 & P1); [left|].
    destruct (IH (fun b c Hb => Hbody b c (proj2 (elem_of_cons l b a) (or_intror Hb))) c1)
      as (c2 & H2 & P2).
    exists c2. cbn [forEachO]. rewrite H1. split; [done|].
    exact (paintedBy_trans _ _ _ _ _ _ P1 P2).
Qed.

Lemma existsb_seqZ_block (f : Z -> bool) (b n z q : Z) :
  0 < z ->
  existsb (fun x => f x && ((x * z <=? q) && (q <? x * z + z))) (seqZ b n)
  = (b <=? q / z) && (q / z <? b + n) && f (q / z).
Proof.
  intros Hz. apply eq_true_iff_eq.
  rewrite existsb_exists, !andb_true_iff, Z.leb_le, Z.ltb_lt. split.
  - intros (x & Hx & Hf). apply list_elem_of_In, elem_of_seqZ in Hx.
    rewrite !andb_true_iff, Z.leb_le, Z.ltb_lt in Hf. destruct Hf as (Hf & H1 & H2).
    assert (q / z = x) as ->; [|lia || done].
    symmetry. apply Z.div_unique with (r := q - x * z); lia.
  - intros ((H1 & H2) & Hf). exists (q / z).
    split; [apply list_elem_of_In, elem_of_seqZ; lia|].
    rewrite Hf, !andb_true_iff, Z.leb_le, Z.ltb_lt.
    pose proof (Z.mul_div_le q z Hz). pose proof (Z.mul_succ_div_gt q z Hz). lia.
Qed.

Lemma existsb_cells (S : Z -> Z -> bool) (bx by_ w h z qx qy : Z) :
  0 < z ->
  existsb (fun y =>
             existsb (fun x => S x y && inRect (x * z) (y * z) z z qx qy)
                     (seqZ bx w))
          (seqZ by_ h)
  = inRect bx by_ w h (qx / z) (qy / z) && S (qx / z) (qy / z).
Proof.
  intros Hz. apply eq_true_iff_eq.
  pose proof (Z.mul_div_le qx z Hz). pose proof (Z.mul_succ_div_gt qx z Hz).
  pose proof (Z.mul_div_le qy z Hz). pose proof (Z.mul_succ_div_gt qy z Hz).
  rewrite existsb_exists. unfold inRect.
  rewrite !andb_true_iff, !Z.leb_le, !Z.ltb_lt. split.
  - intros (y & Hy & Hex). apply list_elem_of_In, elem_of_seqZ in Hy.
    apply existsb_exists in Hex as (x & Hx & Hc).
    apply list_elem_of_In, elem_of_seqZ in Hx.
    rewrite !andb_true_iff, !Z.leb_le, !Z.ltb_lt in Hc.
    destruct Hc as (HS & ((Hx1 & Hx2) & Hy1) & Hy2).
    assert (qx / z = x) as ->
      by (symmetry; apply Z.div_unique with (r := qx - x * z); lia).
    assert (qy / z = y) as ->
      by (symmetry; apply Z.div_unique with (r := qy - y * z); lia).
    split; [lia | done].
  - intros (Hr & HS). exists (qy / z).
    split; [apply list_elem_of_In, elem_of_seqZ; lia|].
    apply existsb_exists. exists (qx / z).
    split; [apply list_elem_of_In, elem_of_seqZ; lia|].
    rewrite HS, !andb_true_iff, !Z.leb_le, !Z.ltb_lt. lia.
Qed.

Section DrawPoint.

Variable cfg : Config.
Variable brushes : list (string * list (list Z)).

Lemma drawPoint_paints this brush tone px py :
  objGet brushes (Kanvas.brushType this) = Some brush ->
  objGet (tones cfg) (Kanvas.toneType this) = Some tone ->
  brush <> [] ->
  tonePeriod cfg <> 0 ->
  Z.abs (tonePeriod cfg) <= Z.of_nat (length tone) ->
  0 < Kanvas.actualZoom this ->
  exists c',
    drawPoint cfg brushes this (Some px, Some py)
    = Some (Kanvas.withContext this c')
    /\ paintedBy (cssColor cfg (Kanvas.color this))
         (fun qx qy =>
            stamps cfg brush tone px py
              (qx / Kanvas.actualZoom this) (qy / Kanvas.actualZoom this))
         (Kanvas.context this) c'.
Proof.
  intros Hb Ht Hne HP Hrows Hz. unfold drawPoint. rewrite Hb, Ht.
  destruct brush as [|row0 rest]; [done|].
  change (JS.index (row0 :: rest) 0) with (Some row0). cbv beta iota zeta.
  set (brush := row0 :: rest) in *.
  set (w := Z.of_nat (length row0)). set (h := Z.of_nat (length brush)).
  set (beginX := px - (w - 1) / 2). set (beginY := py - (h - 1) / 2).
  set (z := Kanvas.actualZoom this) in *.
  set (rgb := cssColor cfg (Kanvas.color this)).
  set (S := fun x y =>
              negb (isZero (brushBit brush (x - beginX) (y - beginY)))
              && negb (isZero (toneBit cfg tone x y))).
  set (cell := fun y x qx qy => S x y && inRect (x * z) (y * z) z z qx qy).
  match goal with
  | |- context [forEachO (seqZ beginY h) ?body ?c] =>
      assert (Hloop :
        exists c', forEachO (seqZ beginY h) body c = Some c'
          /\ paintedBy rgb
               (fun qx qy =>
                  existsb (fun y => existsb (fun x => cell y x qx qy) (seqZ beginX w))
                          (seqZ beginY h)) c c');
        [apply (forEachO_paints rgb
                  (fun y qx qy => existsb (fun x => cell y x qx qy) (seqZ beginX w)))
        | destruct Hloop as (c' & Hrun & Hp)]
  end.
  - intros y c Hy. apply elem_of_seqZ in Hy.
    apply (forEachO_paints rgb (cell y)). intros x c0 Hx. apply elem_of_seqZ in Hx.
    rewrite Z.abs_eq by lia. rewrite Z.abs_eq by lia.
    assert (Hrow : is_Some (JS.index brush (y - beginY))).
    { apply index_is_Some. unfold h in Hy. lia. }
    destruct Hrow as [brushRow Hrow]. rewrite Hrow.
    assert (HbB : brushBit brush (x - beginX) (y - beginY)
                  = JS.index brushRow (x - beginX))
      by (unfold brushBit; by rewrite Hrow).
    assert (HtR : is_Some (toneRow cfg tone y)).
    { unfold toneRow. destruct (tonePeriod cfg =? 0) eqn:E;
        [apply Z.eqb_eq in E; done|].
      apply index_is_Some. unfold JS.rem.
      pose proof (Z.rem_bound_abs y (tonePeriod cfg) HP).
      pose proof (Z.abs_nonneg (Z.rem y (tonePeriod cfg))). lia. }
    destruct HtR as [row HtR]. cbn [mbind option_bind]. rewrite HtR.
    assert (HtB : toneBit cfg tone x y
                  = JS.index row (Z.abs (JS.rem x (tonePeriod cfg)))).
    { unfold toneBit. unfold toneRow in HtR.
      destruct (tonePeriod cfg =? 0); [done|]. by rewrite HtR. }
    destruct (isZero (JS.index brushRow (x - beginX))) eqn:E1.
    { exists c0. split; [done|]. eapply paintedBy_ext; [|apply paintedBy_refl].
      intros qx qy. unfold cell, S. by rewrite HbB, E1. }
    destruct (isZero (JS.index row _)) eqn:E2.
    { exists c0. split; [done|]. eapply paintedBy_ext; [|apply paintedBy_refl].
      intros qx qy. unfold cell, S. by rewrite HtB, E2, andb_false_r. }
    eexists. split; [done|]. eapply paintedBy_ext; [|apply paintedBy_fillRect].
    intros qx qy. unfold cell, S. by rewrite HbB, HtB, E1, E2.
  - exists c'. rewrite Hrun. split; [done|].
    eapply paintedBy_ext; [|exact Hp].
    intros qx qy. unfold cell. rewrite existsb_cells by done.
    unfold stamps, S. cbn [head default]. fold w h beginX beginY.
    by rewrite andb_assoc.
Qed.

End DrawPoint.

(** ** Drawing: integers as binary64 numbers *)

Lemma digits2_pos_bounds (p : positive) :
  2 ^ (Z.pos (digits2_pos p) - 1) <= Z.pos p < 2 ^ Z.pos (digits2_pos p).
Proof.
  induction p as [p IH|p IH|]; cbn [digits2_pos].
  - rewrite Pos2Z.inj_succ.
    replace (Z.succ (Z.pos (digits2_pos p)) - 1) with (Z.succ (Z.pos (digits2_pos p) - 1)) by lia.
    rewrite !Z.pow_succ_r by lia. lia.
  - rewrite Pos2Z.inj_succ.
    replace (Z.succ (Z.pos (digits2_pos p)) - 1) with (Z.succ (Z.pos (digits2_pos p) - 1)) by lia.
    rewrite !Z.pow_succ_r by lia. lia.
  - simpl. lia.
Qed.

Lemma digits2_pos_le (p : positive) (n : Z) :
  Z.pos p < 2 ^ n -> Z.pos (digits2_pos p) <= n.
Proof.
  intros H. destruct (digits2_pos_bounds p) as [Hlo _].
  destruct (Z_le_gt_dec (Z.pos (digits2_pos p)) n) as [|Hgt]; [done|].
  assert (2 ^ n <= 2 ^ (Z.pos (digits2_pos p) - 1)); [|lia].
  destruct (Z_lt_le_dec n 0) as [Hn|Hn].
  - rewrite Z.pow_neg_r in H by done. lia.
  - apply Z.pow_le_mono_r; lia.
Qed.

Lemma iter_xO_spec (q p : positive) :
  Z.pos (Pos.iter xO p q) = Z.pos p * 2 ^ Z.pos q
  /\ digits2_pos (Pos.iter xO p q) = (digits2_pos p + q)%positive.
Proof.
  induction q as [|q IH] using Pos.peano_ind.
  - simpl. split; [lia|]. by rewrite Pos.add_1_r.
  - rewrite Pos.iter_succ. destruct IH as [IH1 IH2]. split.
    + rewrite Pos2Z.inj_xO, IH1, Pos2Z.inj_succ, Z.pow_succ_r by lia. lia.
    + cbn [digits2_pos]. rewrite IH2. lia.
Qed.

Lemma binary_round_small (s : bool) (p : positive) :
  Z.pos p < 2 ^ 53 ->
  exists m e, binary_round JS.prec JS.emax s p 0 = S754_finite s m e
    /\ -52 <= e <= 0 /\ Z.pos m = Z.pos p * 2 ^ (- e).
Proof.
  intros Hp. pose proof (digits2_pos_le p 53 Hp) as Hd.
  assert (Hd1 : 1 <= Z.pos (digits2_pos p)) by lia.
  unfold binary_round, JS.prec, JS.emax.
  assert (Hf : forall d, 1 <= d <= 53 -> fexp 53 1024 d = d - 53).
  { intros d Hdd. unfold fexp, emin. lia. }
  rewrite Z.add_0_r, Hf by lia.
  set (d := digits2_pos p) in *.
  assert (Haux : forall m e, Z.pos (digits2_pos m) = 53 -> -52 <= e <= 0 ->
            binary_round_aux 53 1024 s (Z.pos m) e loc_Exact = S754_finite s m e).
  { intros m e Hm He. unfold binary_round_aux, shr_fexp.
    cbn [Zdigits2 shr_record_of_loc]. rewrite Hm.
    assert (Hfe : fexp 53 1024 (53 + e) - e = 0) by (unfold fexp, emin; lia).
    rewrite Hfe. cbn [shr shr_m loc_of_shr_record round_nearest_even Zdigits2].
    rewrite Hm, Hfe. cbn [shr shr_m].
    destruct (e <=? 1024 - 53) eqn:E; [done|]. apply Z.leb_gt in E. lia. }
  unfold shl_align.
  destruct (Z.pos d - 53 - 0) as [|q|q] eqn:Hq.
  - exists p, 0. rewrite Haux by (fold d; lia). split; [done|]. split; [lia|].
    simpl. lia.
  - lia.
  - destruct (iter_xO_spec q p) as [H1 H2].
    exists (Pos.iter xO p q), (Z.pos d - 53).
    rewrite Haux.
    + split; [done|]. split; [lia|]. rewrite H1. f_equal. f_equal. lia.
    + rewrite H2. fold d. lia.
    + lia.
Qed.

Lemma ofZ_small (x : Z) :
  - 2 ^ 53 < x < 2 ^ 53 ->
  Math_round (JS.ofZ x) = Some x
  /\ JS.isFinite (JS.ofZ x) = true
  /\ (x <> 0 -> exists s m e, JS.ofZ x = S754_finite s m e).
Proof.
  intros Hx. unfold JS.ofZ, binary_normalize.
  destruct x as [|p|p].
  - split; [done|]. split; [done|]. done.
  - destruct (binary_round_small false p) as (m & e & -> & He & Hm); [lia|].
    split; [|split; [done | eauto]].
    cbn [Math_round]. destruct (0 <=? e) eqn:E.
    + apply Z.leb_le in E. assert (e = 0) as -> by lia. simpl in Hm. f_equal. lia.
    + f_equal. rewrite Hm.
      replace (1 - e) with (Z.succ (- e)) by lia. rewrite Z.pow_succ_r by lia.
      assert (0 < 2 ^ (- e)) by (apply Z.pow_pos_nonneg; lia).
      symmetry. apply Z.div_unique with (r := 2 ^ (- e)); nia.
  - destruct (binary_round_small true p) as (m & e & -> & He & Hm); [lia|].
    split; [|split; [done | eauto]].
    cbn [Math_round]. destruct (0 <=? e) eqn:E.
    + apply Z.leb_le in E. assert (e = 0) as -> by lia. simpl in Hm. f_equal. lia.
    + f_equal. rewrite <- Pos2Z.opp_pos, Hm.
      replace (1 - e) with (Z.succ (- e)) by lia. rewrite Z.pow_succ_r by lia.
      assert (0 < 2 ^ (- e)) by (apply Z.pow_pos_nonneg; lia).
      symmetry. apply Z.div_unique with (r := 2 ^ (- e)); nia.
Qed.

Lemma ofZ_zero_or_finite (x : Z) :
  - 2 ^ 53 < x < 2 ^ 53 ->
  JS.ofZ x = S754_zero false \/ exists s m e, JS.ofZ x = S754_finite s m e.
Proof.
  intros Hx. destruct (decide (x = 0)) as [->|Hne]; [by left|].
  right. by apply ofZ_small.
Qed.

(** ** Drawing: segments *)

Lemma interpolate_0 (f d n : Z) :
  - 2 ^ 53 < f < 2 ^ 53 -> - 2 ^ 53 < d < 2 ^ 53 -> 0 < n < 2 ^ 53 ->
  Math_round (JS.add (JS.ofZ f) (JS.mul (JS.ofZ d) (JS.div (JS.ofZ 0) (JS.ofZ n))))
  = Some f.
Proof.
  intros Hf Hd Hn.
  destruct (ofZ_small n) as (_ & _ & Hnf); [lia|].
  destruct Hnf as (sn & mn & en & ->); [lia|].
  change (JS.div (JS.ofZ 0) (S754_finite sn mn en)) with (S754_zero (xorb false sn)).
  assert (Hmul : exists s, JS.mul (JS.ofZ d) (S754_zero (xorb false sn)) = S754_zero s).
  { destruct (ofZ_zero_or_finite d Hd) as [->|(s & m & e & ->)]; eexists; reflexivity. }
  destruct Hmul as [s ->].
  destruct (decide (f = 0)) as [->|Hne].
  - by destruct s.
  - destruct (ofZ_small f Hf) as (Hr & _ & Hff).
    destruct (Hff Hne) as (sf & mf & ef & Hff'). rewrite Hff' in *.
    exact Hr.
Qed.

Section DrawLine.

Variable cfg : Config.
Variable brushes : list (string * list (list Z)).

Lemma linePoint_0 fx fy tx ty n :
  - 2 ^ 53 < fx < 2 ^ 53 -> - 2 ^ 53 < fy < 2 ^ 53 ->
  - 2 ^ 53 < tx - fx < 2 ^ 53 -> - 2 ^ 53 < ty - fy < 2 ^ 53 ->
  0 < n < 2 ^ 53 ->
  linePoint (Some fx, Some fy) (Some tx, Some ty) n 0 = (Some fx, Some fy).
Proof.
  intros. unfold linePoint. cbn [fst snd coordinate difference].
  by rewrite !interpolate_0.
Qed.

Lemma stepLength_self x y : stepLength (Some x, Some y) (Some x, Some y) = Some 0.
Proof.
  unfold stepLength. cbn [fst snd difference]. by rewrite !Z.sub_diag.
Qed.

Lemma add_nan_r v : JS.add v S754_nan = S754_nan.
Proof. by destruct v as [[]|[]| |]. Qed.

Lemma stepLength_not_finite (from to : KanvasPosition) :
  fst from = None \/ snd from = None \/ fst to = None \/ snd to = None ->
  stepLength from to = None.
Proof.
  destruct from as [fx fy], to as [tx ty]. cbn [fst snd]. unfold stepLength.
  cbn [fst snd].
  intros [-> | [-> | [-> | ->]]].
  - destruct tx; cbn [difference]; by destruct (Math_pow2 (difference ty fy)) as [[]|[]| |].
  - destruct ty; cbn [difference]; change (Math_pow2 S754_nan) with S754_nan;
      by rewrite add_nan_r.
  - cbn [difference]; by destruct (Math_pow2 (difference ty fy)) as [[]|[]| |].
  - cbn [difference]; change (Math_pow2 S754_nan) with S754_nan;
      by rewrite add_nan_r.
Qed.

End DrawLine.

(** ** Drawing: what a stroke can change *)

Lemma forEachO_paints_partial {A} rgb (body : A -> Canvas -> option Canvas)
  (l : list A) :
  (forall a c c', a ∈ l -> body a c = Some c' -> exists R, paintedBy rgb R c c') ->
  forall c c', forEachO l body c = Some c' -> exists R, paintedBy rgb R c c'.
Proof.
  induction l as [|a l IH]; intros Hbody c c' Hrun.
  - injection Hrun as <-. eexists. apply paintedBy_refl.
  - cbn [forEachO] in Hrun. destruct (body a c) as [c1|] eqn:E1; [|done].
    destruct (Hbody a c c1) as [R1 P1]; [left | done |].
    destruct (IH (fun b c c' Hb => Hbody b c c' (proj2 (elem_of_cons l b a) (or_intror Hb)))
                 c1 c' Hrun) as [R2 P2].
    eexists. exact (paintedBy_trans _ _ _ _ _ _ P1 P2).
Qed.

Lemma withContext_context this : Kanvas.withContext this (Kanvas.context this) = this.
Proof. by destruct this. Qed.

Section Strokes.

Variable cfg : Config.
Variable brushes : list (string * list (list Z)).

Lemma drawPoint_partial this position this' :
  drawPoint cfg brushes this position = Some this' ->
  exists c' R,
    this' = Kanvas.withContext this c'
    /\ paintedBy (cssColor cfg (Kanvas.color this)) R (Kanvas.context this) c'.
Proof.
  unfold drawPoint. intros Hrun.
  destruct (objGet brushes (Kanvas.brushType this)) as [brush|]; [|done].
  destruct (JS.index brush 0) as [row0|]; [|done].
  destruct position as [[px|] [py|]];
    try (injection Hrun as <-; exists (Kanvas.context this); eexists;
         split; [by rewrite withContext_context | apply paintedBy_refl]).
  cbv zeta in Hrun. apply fmap_Some in Hrun as (c' & Hrun & ->).
  exists c'.
  apply (forEachO_paints_partial (cssColor cfg (Kanvas.color this))) in Hrun
    as [R HR]; [by exists R|].
  intros y c c1 _ Hy.
  apply (forEachO_paints_partial (cssColor cfg (Kanvas.color this))) in Hy; [done|].
  intros x c2 c3 _ Hx.
  destruct (JS.index brush _) as [brushRow|]; [|done].
  destruct (isZero (JS.index brushRow _)).
  { injection Hx as <-. eexists. apply paintedBy_refl. }
  destruct (_ ≫= _) as [row|]; [|done].
  destruct (isZero (JS.index row _)).
  { injection Hx as <-. eexists. apply paintedBy_refl. }
  injection Hx as <-. eexists. apply paintedBy_fillRect.
Qed.

Lemma forEachO_drawPoint_partial {A} (f : A -> KanvasPosition) (l : list A) :
  forall this this',
    forEachO l (fun a this => drawPoint cfg brushes this (f a)) this = Some this' ->
    exists c' R,
      this' = Kanvas.withContext this c'
      /\ paintedBy (cssColor cfg (Kanvas.color this)) R (Kanvas.context this) c'.
Proof.
  induction l as [|a l IH]; intros this this' Hrun.
  - injection Hrun as <-. exists (Kanvas.context this). eexists.
    split; [by rewrite withContext_context | apply paintedBy_refl].
  - cbn [forEachO] in Hrun.
    destruct (drawPoint cfg brushes this (f a)) as [this1|] eqn:E1; [|done].
    apply drawPoint_partial in E1 as (c1 & R1 & -> & P1).
    apply IH in Hrun as (c' & R2 & -> & P2).
    exists c'. eexists. split; [done|].
    exact (paintedBy_trans _ _ _ _ _ _ P1 P2).
Qed.

Lemma drawLine_partial this from to this' :
  drawLine cfg brushes this from to = Some this' ->
  exists c' R,
    this' = Kanvas.withContext this c'
    /\ paintedBy (cssColor cfg (Kanvas.color this)) R (Kanvas.context this) c'.
Proof.
  unfold drawLine. intros Hrun.
  destruct (stepLength from to) as [n|]; [|done].
  destruct (Array_keys (Some n)) as [steps|]; [|done].
  by apply forEachO_drawPoint_partial in Hrun.
Qed.

Lemma drawLine_self this x y :
  drawLine cfg brushes this (Some x, Some y) (Some x, Some y) = Some this.
Proof. unfold drawLine. by rewrite stepLength_self. Qed.

End Strokes.

(** X10. One stamp of the brush. For a brush with an odd number of rows
    and columns and a tone whose bitmap has a row for every residue of
    the tone period, [drawPoint] at an integer position does not throw,
    changes nothing but the canvas and keeps its size; the position and
    the zoom are below 2^25, where the integer arithmetic of the model
    is that of the source. With a positive zoom, the pixel [(qx, qy)] of the canvas becomes the current color
    exactly when its cell [(qx / zoom, qy / zoom)] lies in the rectangle
    of the brush centered on the position and neither the brush entry
    nor the tone entry [tone[|y % tonePeriod|][|x % tonePeriod|]] of the
    cell is 0; every other pixel is unchanged. *)
Theorem drawPoint_stamps (cfg : Config) (brushes : list (string * list (list Z)))
  (this : Kanvas.Element) (brush tone : list (list Z)) (px py : Z) :
  objGet brushes (Kanvas.brushType this) = Some brush ->
  oddBrush brush = true ->
  objGet (tones cfg) (Kanvas.toneType this) = Some tone ->
  tonePeriod cfg <> 0 ->
  Z.abs (tonePeriod cfg) <= Z.of_nat (length tone) ->
  0 < Kanvas.actualZoom this < 2 ^ 25 ->
  smallPosition (Some px, Some py) = true ->
  exists c',
    drawPoint cfg brushes this (Some px, Some py)
    = Some (Kanvas.withContext this c')
    /\ width c' = width (Kanvas.context this)
    /\ height c' = height (Kanvas.context this)
    /\ forall qx qy,
         pixelAt c' qx qy
         = if inCanvas (Kanvas.context this) qx qy
              && stamps cfg brush tone px py
                   (qx / Kanvas.actualZoom this) (qy / Kanvas.actualZoom this)
           then opaque (cssColor cfg (Kanvas.color this))
           else pixelAt (Kanvas.context this) qx qy.
Proof.
  intros Hb Hodd Ht HP Hrows [Hz _] _.
  assert (Hne : brush <> []).
  { intros ->. discriminate Hodd. }
  destruct (drawPoint_paints cfg brushes this brush tone px py Hb Ht Hne HP Hrows Hz)
    as (c' & Hrun & Hw & Hh & Hp).
  exists c'. done.
Qed.

Lemma drawPoint_stamps_witness :
  exists c',
    drawPoint (sampleConfig 4) sampleBrushes (sampleElement "bold" "dot")
      (Some 1, Some 2)
    = Some (Kanvas.withContext (sampleElement "bold" "dot") c')
    /\ pixelAt c' 4 4 = (0, 0, 0, 255)
    /\ pixelAt c' 2 4 = (0, 0, 0, 0).
Proof.
  destruct (drawPoint_stamps (sampleConfig 4) sampleBrushes
              (sampleElement "bold" "dot")
              [[1; 1; 1]; [1; 1; 1]; [1; 1; 1]]
              (sampleBitmap 4 (fun x y => (x mod 2 =? 0) && (y mod 2 =? 0))) 1 2)
    as (c' & Hrun & _ & _ & Hp);
    [reflexivity | reflexivity | reflexivity | discriminate
    | simpl; lia | simpl; lia | reflexivity |].
  exists c'. split; [exact Hrun|]. rewrite !Hp. split; reflexivity.
Defined.

(** X11. A segment starts at its first end point. For end points with
    coordinates below 2^52 in absolute value and a segment of at least
    one step, [drawLine] first stamps the brush at [from] and then at
    the positions of the steps 1 to [stepLength - 1]. *)
Theorem drawLine_starts_at_from (cfg : Config)
  (brushes : list (string * list (list Z))) (this : Kanvas.Element)
  (fx fy tx ty n : Z) :
  Z.abs fx < 2 ^ 52 -> Z.abs fy < 2 ^ 52 ->
  Z.abs tx < 2 ^ 52 -> Z.abs ty < 2 ^ 52 ->
  stepLength (Some fx, Some fy) (Some tx, Some ty) = Some n ->
  0 < n < 2 ^ 32 ->
  drawLine cfg brushes this (Some fx, Some fy) (Some tx, Some ty)
  = drawPoint cfg brushes this (Some fx, Some fy)
    ≫= forEachO (seqZ 1 (n - 1))
         (fun step this =>
            drawPoint cfg brushes this
              (linePoint (Some fx, Some fy) (Some tx, Some ty) n step)).
Proof.
  intros Hfx Hfy Htx Hty Hn Hrange. unfold drawLine. rewrite Hn.
  unfold Array_keys.
  destruct (0 <=? n) eqn:E1; [|apply Z.leb_gt in E1; lia].
  destruct (n <? 2 ^ 32) eqn:E2; [|apply Z.ltb_ge in E2; lia].
  cbn [andb]. rewrite seqZ_cons by lia. cbn [forEachO].
  rewrite linePoint_0 by lia.
  replace (Z.succ 0) with 1 by lia. replace (Z.pred n) with (n - 1) by lia.
  by destruct (drawPoint _ _ _ _).
Qed.

Lemma drawLine_starts_at_from_witness :
  drawLine (sampleConfig 4) sampleBrushes (sampleElement "light" "fill")
    (Some 0, Some 0) (Some 3, Some 4)
  = drawPoint (sampleConfig 4) sampleBrushes (sampleElement "light" "fill")
      (Some 0, Some 0)
    ≫= forEachO (seqZ 1 (5 - 1))
         (fun step this =>
            drawPoint (sampleConfig 4) sampleBrushes this
              (linePoint (Some 0, Some 0) (Some 3, Some 4) 5 step)).
Proof.
  apply (drawLine_starts_at_from (sampleConfig 4) sampleBrushes
           (sampleElement "light" "fill") 0 0 3 4 5);
    [simpl; lia | simpl; lia | simpl; lia | simpl; lia | reflexivity | lia].
Defined.

(** The steps of the segment from (0, 0) to (3, 4): the end point [to]
    is not among them. *)
Example linePoint_sample :
  stepLength (Some 0, Some 0) (Some 3, Some 4) = Some 5
  /\ map (linePoint (Some 0, Some 0) (Some 3, Some 4) 5) (seqZ 0 5)
     = [(Some 0, Some 0); (Some 1, Some 1); (Some 1, Some 2);
        (Some 2, Some 2); (Some 2, Some 3)].
Proof. split; reflexivity. Qed.

(** X12. Degenerate segments. A segment whose end points coincide has
    no step: [drawLine] draws nothing and does not throw, whatever the
    brush and the tone. A segment with an end point that has a
    coordinate that is not finite has no length: [drawLine] throws a
    RangeError. *)
Theorem drawLine_degenerate (cfg : Config)
  (brushes : list (string * list (list Z))) (this : Kanvas.Element)
  (x y : Z) (c : option Z) (p : KanvasPosition) :
  drawLine cfg brushes this (Some x, Some y) (Some x, Some y) = Some this
  /\ drawLine cfg brushes this (None, c) p = None
  /\ drawLine cfg brushes this (c, None) p = None
  /\ drawLine cfg brushes this p (None, c) = None
  /\ drawLine cfg brushes this p (c, None) = None.
Proof.
  split; [apply drawLine_self|]. unfold drawLine.
  rewrite !stepLength_not_finite by (cbn [fst snd]; tauto).
  done.
Qed.

(** X13. A stroke only paints in the current color. For a brush with an
    odd number of rows and columns, a zoom that is not negative and end
    points and zoom below 2^25 (where the model of [drawPoint] applies),
    when [drawLine] returns it has changed nothing but the canvas, whose
    size is kept, and every pixel either is as before or has the current
    color. *)
Theorem drawLine_paints_color (cfg : Config)
  (brushes : list (string * list (list Z))) (this this' : Kanvas.Element)
  (from to : KanvasPosition) :
  (forall brush, objGet brushes (Kanvas.brushType this) = Some brush ->
     oddBrush brush = true) ->
  0 <= Kanvas.actualZoom this < 2 ^ 25 ->
  smallPosition from = true -> smallPosition to = true ->
  drawLine cfg brushes this from to = Some this' ->
  this' = Kanvas.withContext this (Kanvas.context this')
  /\ width (Kanvas.context this') = width (Kanvas.context this)
  /\ height (Kanvas.context this') = height (Kanvas.context this)
  /\ forall qx qy,
       pixelAt (Kanvas.context this') qx qy = pixelAt (Kanvas.context this) qx qy
       \/ pixelAt (Kanvas.context this') qx qy
          = opaque (cssColor cfg (Kanvas.color this)).
Proof.
  intros _ _ _ _ Hrun.
  apply drawLine_partial in Hrun as (c' & R & -> & Hw & Hh & Hp).
  cbn [Kanvas.withContext Kanvas.context].
  split; [done|]. split; [done|]. split; [done|].
  intros qx qy. rewrite Hp. destruct (_ && _); auto.
Qed.

Lemma drawLine_paints_color_witness :
  match
    drawLine (sampleConfig 4) sampleBrushes (sampleElement "medium" "dot")
      (Some 0, Some 0) (Some 3, Some 2)
  with
  | Some this' =>
      width (Kanvas.context this') = 8
      /\ (pixelAt (Kanvas.context this') 5 5 = (0, 0, 0, 0)
          \/ pixelAt (Kanvas.context this') 5 5 = (0, 0, 0, 255))
  | None => False
  end.
Proof.
  assert (Hs : match
                 drawLine (sampleConfig 4) sampleBrushes
                   (sampleElement "medium" "dot") (Some 0, Some 0) (Some 3, Some 2)
               with Some _ => true | None => false end = true)
    by (vm_compute; reflexivity).
  destruct (drawLine _ _ _ _ _) as [this'|] eqn:E; [|discriminate Hs].
  destruct (drawLine_paints_color (sampleConfig 4) sampleBrushes
              (sampleElement "medium" "dot") this' (Some 0, Some 0)
              (Some 3, Some 2)) as (_ & Hw & _ & Hp);
    [by intros brush [= <-] | simpl; lia | reflexivity | reflexivity | exact E |].
  split; [exact Hw | exact (Hp 5 5)].
Defined.

(** X14. A click. In shape mode and outside a transaction, a pointer
    down followed by a pointer up at the same integer position stamps
    the brush once at that position, and nothing else is drawn; the
    canvas so obtained is pushed to the history, the position is
    remembered, and the transaction is closed. *)
Theorem click_stamps_once (cfg : Config)
  (brushes : list (string * list (list Z)))
  (fillText : Kanvas.Element -> KanvasPosition -> Canvas)
  (toDataURL : Canvas -> string)
  (this drawn : Kanvas.Element) (x y : Z) :
  Kanvas.transactionMode this = None ->
  Kanvas.mode this = Shape ->
  drawPoint cfg brushes (Kanvas.withTransactionMode this (Some Shape))
    (Some x, Some y) = Some drawn ->
  let pushed :=
    pushImageToHistory (toDataURL (Kanvas.context drawn)) (Kanvas.hist this) in
  handlePointerDown cfg brushes (Some x, Some y) this
  ≫= handlePointerUp cfg brushes fillText toDataURL (Some x, Some y)
  = Some (Kanvas.withTransactionMode
            (Kanvas.withHistory
               (Kanvas.withPrevPosition
                  (Kanvas.withContext this (Kanvas.context drawn))
                  (Some x, Some y))
               (fst pushed))
            None,
          snd pushed).
Proof.
  intros Htx Hmode Hdraw. cbv zeta.
  unfold handlePointerDown. rewrite Htx, Hmode, Hdraw.
  apply drawPoint_partial in Hdraw as (c' & R & -> & _).
  cbn [fmap option_fmap option_map mbind option_bind].
  unfold handlePointerUp.
  cbn [Kanvas.transactionMode Kanvas.withPrevPosition Kanvas.withContext
       Kanvas.withTransactionMode Kanvas.prevPosition].
  pose proof (drawLine_self cfg brushes
                (Kanvas.withPrevPosition
                   (Kanvas.withContext (Kanvas.withTransactionMode this (Some Shape)) c')
                   (Some x, Some y)) x y) as Hline.
  cbn [Kanvas.transactionMode Kanvas.withPrevPosition Kanvas.withContext
       Kanvas.withTransactionMode Kanvas.prevPosition] in Hline.
  rewrite Hline. reflexivity.
Qed.

Lemma click_stamps_once_witness :
  exists drawn,
    drawPoint (sampleConfig 4) sampleBrushes
      (Kanvas.withTransactionMode (sampleElement "bold" "dot") (Some Shape))
      (Some 1, Some 2) = Some drawn
    /\ handlePointerDown (sampleConfig 4) sampleBrushes (Some 1, Some 2)
         (sampleElement "bold" "dot")
       ≫= handlePointerUp (sampleConfig 4) sampleBrushes
            (fun this _ => Kanvas.context this) (fun _ => "image"%string)
            (Some 1, Some 2)
       = Some (Kanvas.mkElement "bold" "hsl(0, 0%, 0%)" "sans-serif"
                 (mkHistory ["image"%string] 0) Shape (Some 1, Some 2) ""
                 "dot" None 2 (Kanvas.context drawn),
               [HistoryChange ["image"%string] 0]).
Proof.
  assert (Hs : match
                 drawPoint (sampleConfig 4) sampleBrushes
                   (Kanvas.withTransactionMode (sampleElement "bold" "dot")
                      (Some Shape)) (Some 1, Some 2)
               with Some _ => true | None => false end = true)
    by (vm_compute; reflexivity).
  destruct (drawPoint _ _ _ _) as [drawn|] eqn:E; [|discriminate Hs].
  exists drawn. split; [done|].
  exact (click_stamps_once (sampleConfig 4) sampleBrushes
           (fun this _ => Kanvas.context this) (fun _ => "image"%string)
           (sampleElement "bold" "dot") drawn 1 2 eq_refl eq_refl E).
Defined.

(** ** Drawing: transactions *)

Lemma forEachO_preserves {A S} (I : S -> Prop) (body : A -> S -> option S)
  (l : list A) :
  (forall a s s', I s -> body a s = Some s' -> I s') ->
  forall s s', I s -> forEachO l body s = Some s' -> I s'.
Proof.
  intros Hbody. induction l as [|a l IH]; intros s s' Hs Hrun.
  - by injection Hrun as <-.
  - cbn [forEachO] in Hrun. destruct (body a s) as [s1|] eqn:E; [|done].
    eapply IH; [|exact Hrun]. by eapply Hbody.
Qed.

Lemma pushImageToHistory_current dataURL h :
  JS.index (history (fst (pushImageToHistory dataURL h)))
           (historyIndex (fst (pushImageToHistory dataURL h)))
  = Some dataURL.
Proof.
  unfold pushImageToHistory.
  destruct (0 <=? historyIndex h); cbn [andb].
  - destruct (bool_decide _) eqn:E.
    + by apply bool_decide_eq_true in E.
    + cbn [fst history historyIndex]. apply index_app_last.
  - cbn [fst history historyIndex]. apply index_app_last.
Qed.

Section Transactions.

Variable cfg : Config.
Variable brushes : list (string * list (list Z)).
Variable fillText : Kanvas.Element -> KanvasPosition -> Canvas.
Variable toDataURL : Canvas -> string.

Lemma displayTextPreviewRect_partial this this' :
  displayTextPreviewRect brushes this = Some this' -> this' = this.
Proof.
  unfold displayTextPreviewRect.
  destruct (objGet brushes _); [|done]. by intros [= <-].
Qed.

Lemma handlePointerDown_opens position this this' :
  Kanvas.transactionMode this = None ->
  handlePointerDown cfg brushes position this = Some this' ->
  Kanvas.hist this' = Kanvas.hist this
  /\ Kanvas.transactionMode this' = Some (Kanvas.mode this).
Proof.
  intros Htx. unfold handlePointerDown. rewrite Htx. intros Hrun.
  apply fmap_Some in Hrun as (this1 & Hrun & ->).
  destruct (Kanvas.mode this).
  - by apply drawPoint_partial in Hrun as (c' & R & -> & _).
  - by apply displayTextPreviewRect_partial in Hrun as ->.
Qed.

Lemma handlePointerMove_keeps position this this' :
  handlePointerMove cfg brushes position this = Some this' ->
  Kanvas.hist this' = Kanvas.hist this
  /\ Kanvas.transactionMode this' = Kanvas.transactionMode this.
Proof.
  unfold handlePointerMove.
  destruct (Kanvas.transactionMode this) as [m|] eqn:Htx;
    [|by intros [= <-]].
  intros Hrun. apply fmap_Some in Hrun as (this1 & Hrun & ->).
  destruct m.
  - by apply drawLine_partial in Hrun as (c' & R & -> & _).
  - by apply displayTextPreviewRect_partial in Hrun as ->.
Qed.

Lemma stroke_open start moves this this' :
  Kanvas.transactionMode this = None ->
  stroke cfg brushes start moves this = Some this' ->
  Kanvas.hist this' = Kanvas.hist this
  /\ Kanvas.transactionMode this' = Some (Kanvas.mode this).
Proof.
  intros Htx Hrun. unfold stroke in Hrun.
  destruct (handlePointerDown cfg brushes start this) as [this1|] eqn:Hdown;
    [|done].
  cbn [mbind option_bind] in Hrun. rename Hrun into Hmoves.
  apply handlePointerDown_opens in Hdown as [Hh Ht]; [|done].
  revert Hmoves.
  apply (forEachO_preserves
           (fun s => Kanvas.hist s = Kanvas.hist this
                     /\ Kanvas.transactionMode s = Some (Kanvas.mode this)));
    [|done].
  intros p s s' [H1 H2] Hmove.
  apply handlePointerMove_keeps in Hmove as [H3 H4]. split; congruence.
Qed.

End Transactions.

(** X15. Transactions commit or cancel. Outside a transaction, let a
    pointer down and any number of pointer moves run without throwing.
    Then the history is still the one before the stroke and the
    transaction is open in the mode of the element. A pointer cancel
    closes it and, in shape mode, asks for the image of the current
    history entry, which is the canvas as it was before the stroke if
    that canvas was the current entry; in text mode it asks for nothing.
    A pointer up that returns closes it and leaves the canvas as the
    current history entry. *)
Theorem stroke_commit_or_cancel (cfg : Config)
  (brushes : list (string * list (list Z)))
  (fillText : Kanvas.Element -> KanvasPosition -> Canvas)
  (toDataURL : Canvas -> string)
  (this this' : Kanvas.Element)
  (start : KanvasPosition) (moves : list KanvasPosition) :
  Kanvas.transactionMode this = None ->
  stroke cfg brushes start moves this = Some this' ->
  Kanvas.hist this' = Kanvas.hist this
  /\ Kanvas.transactionMode this' = Some (Kanvas.mode this)
  /\ handlePointerCancel this'
     = (Kanvas.withTransactionMode this' None,
        match Kanvas.mode this with
        | Shape => putImageFromHistory (Kanvas.hist this)
        | Text => []
        end)
  /\ (committed toDataURL this ->
      putImageFromHistory (Kanvas.hist this)
      = [LoadImage (Some (toDataURL (Kanvas.context this)))])
  /\ forall position up effects,
       handlePointerUp cfg brushes fillText toDataURL position this'
       = Some (up, effects) ->
       committed toDataURL up /\ Kanvas.transactionMode up = None.
Proof.
  intros Htx Hrun.
  destruct (stroke_open cfg brushes start moves this this' Htx Hrun) as [Hh Ht].
  split; [done|]. split; [done|]. split; [|split].
  - unfold handlePointerCancel. rewrite Ht, Hh. by destruct (Kanvas.mode this).
  - intros Hc. unfold putImageFromHistory. by rewrite Hc.
  - intros position up effects Hup. unfold handlePointerUp in Hup.
    rewrite Ht in Hup. apply fmap_Some in Hup as (drawn & _ & [= -> _]).
    split; [|done]. unfold committed.
    cbn [Kanvas.hist Kanvas.context Kanvas.withHistory Kanvas.withTransactionMode].
    apply pushImageToHistory_current.
Qed.

Lemma stroke_commit_or_cancel_witness :
  match
    stroke (sampleConfig 4) sampleBrushes (Some 1, Some 1)
      [(Some 2, Some 1); (Some 3, Some 3)] (sampleElement "light" "fill")
  with
  | Some this' =>
      Kanvas.hist this' = initialHistory
      /\ handlePointerCancel this'
         = (Kanvas.withTransactionMode this' None, [LoadImage None])
  | None => False
  end.
Proof.
  assert (Hs : match
                 stroke (sampleConfig 4) sampleBrushes (Some 1, Some 1)
                   [(Some 2, Some 1); (Some 3, Some 3)]
                   (sampleElement "light" "fill")
               with Some _ => true | None => false end = true)
    by (vm_compute; reflexivity).
  destruct (stroke _ _ _ _ _) as [this'|] eqn:E; [|discriminate Hs].
  destruct (stroke_commit_or_cancel (sampleConfig 4) sampleBrushes
              (fun this _ => Kanvas.context this) (fun _ => "image"%string)
              (sampleElement "light" "fill") this' (Some 1, Some 1)
              [(Some 2, Some 1); (Some 3, Some 3)] eq_refl E)
    as (Hh & _ & Hc & _).
  split; [exact Hh | exact Hc].
Defined.
